(** * rpi-weather-station: a shallow embedding of [ws.py] and [mqtt.py]

    The development follows the two source files:
    - [IntervalSampler] and its subclasses ([ButtonSampler],
      [WindDirectionSampler]),
    - [WeatherStation] with its numeric reductions and its callbacks,
    - the module-level [listener] of [mqtt.py].

    Number model.  The capacity of a window is an integer cut out of a
    float quotient, so [IntervalSampler.__init__] is computed in binary64
    arithmetic ([binary64.rnd], round to nearest, ties to even).  Elsewhere
    Python floats are idealised as exact numbers: rationals ([Q]) where the
    source only uses field operations and comparisons (the resistance
    table), real numbers ([R]) where it calls [math.sin], [math.cos],
    [math.atan] or [math.log]; the statements about those say so.  Instants
    ([datetime.datetime]) and durations ([datetime.timedelta]) are integers
    counting microseconds, the resolution of both Python types. *)

From Stdlib Require Import ZArith QArith Qround Qreals Qabs Qpower Reals.
From Stdlib Require Import Lra Lia List.
From Stdlib Require Lqa.
From stdpp Require Import gmap strings list fin_maps sorting.

Local Open Scope Z_scope.

(** ** Python runtime pieces shared by the whole program *)

(** The exceptions the modelled code can raise. *)
Inductive exn : Set :=
| ZeroDivisionError
| TypeError
| ValueError
| IndexError
| AttributeError.

(** The outcome of a call: a returned value or a raised exception. *)
Inductive result (A : Type) : Type :=
| Ok (a : A)
| Raise (e : exn).
Arguments Ok {A} a.
Arguments Raise {A} e.

(** The call raised. *)
Definition rejected {A : Type} (r : result A) : Prop :=
  match r with
  | Ok _ => False
  | Raise _ => True
  end.

Definition bind {A B : Type} (r : result A) (k : A -> result B) : result B :=
  match r with
  | Ok a => k a
  | Raise e => Raise e
  end.

#[global] Instance result_ret : MRet result := @Ok.
#[global] Instance result_bind : MBind result := fun A B k r => bind r k.

(** [l[i]] for a non-negative index. *)
Definition index {A : Type} (l : list A) (i : nat) : result A :=
  match nth_error l i with
  | Some x => Ok x
  | None => Raise IndexError
  end.

(** [l[-1]]. *)
Definition last_item {A : Type} (l : list A) : result A :=
  match last l with
  | Some x => Ok x
  | None => Raise IndexError
  end.

(** [l[start:]]: a negative [start] counts from the end, and both ends are
    clamped to the list. *)
Definition slice_from {A : Type} (start : Z) (l : list A) : list A :=
  let len := Z.of_nat (length l) in
  let s := if start <? 0 then Z.max (len + start) 0 else Z.min start len in
  skipn (Z.to_nat s) l.

(** ** Builtins and [math] functions on idealised floats *)

Module builtins.

(** [int(x)]: truncation toward zero. *)
Definition int (x : Q) : Z :=
  if Qle_bool 0 x then Qfloor x else Qceiling x.

(** [round(x)]: the nearest integer, ties to the even one. *)
Definition round (x : R) : Z :=
  let f := Int_part x in
  let d := (x - IZR f)%R in
  if Rlt_dec d (1 / 2) then f
  else if Rlt_dec (1 / 2) d then f + 1
  else if Z.even f then f else f + 1.

(** [round(x, 1)]. *)
Definition round1 (x : R) : R := (IZR (round (x * 10)) / 10)%R.

(** [sum(l)] on a list of ints. *)
Definition sum (l : list Z) : Z := fold_left Z.add l 0.

(** [max(l)] on a list of ints. *)
Definition max (l : list Z) : result Z :=
  match l with
  | [] => Raise ValueError
  | x :: rest => Ok (fold_left Z.max rest x)
  end.

End builtins.

Module math.

Definition radians (x : R) : R := (x * (PI / 180))%R.
Definition degrees (x : R) : R := (x * (180 / PI))%R.

End math.

(** ** [datetime.timedelta] *)

Definition timedelta : Type := Z.

Definition microseconds (n : Z) : timedelta := n.
Definition seconds (n : Z) : timedelta := n * 1000000.
Definition minutes (n : Z) : timedelta := seconds (n * 60).
Definition hours (n : Z) : timedelta := minutes (n * 60).
Definition days (n : Z) : timedelta := hours (n * 24).

Definition total_seconds (d : timedelta) : Q := Qmake d 1000000.

(** ** Binary64 floating point

    A float is the rational it denotes.  [rnd x] is the binary64 number
    nearest to [x], ties to the even significand: a significand of 53 bits
    and no bound on the exponent (the quotients of two [timedelta]s stay
    far from overflow and from the subnormal range). *)

Module binary64.

Local Open Scope Q_scope.

(** [floor(log2 x)] for a positive [x]. *)
Definition ilog2 (x : Q) : Z :=
  let l := (Z.log2 (Qnum x) - Z.log2 (Zpos (Qden x)))%Z in
  if Qle_bool (2 ^ l) x then l else (l - 1)%Z.

(** The nearest integer, ties to the even one. *)
Definition rint (x : Q) : Z :=
  let f := Qfloor x in
  match Qcompare (x - inject_Z f) (1 # 2) with
  | Lt => f
  | Gt => (f + 1)%Z
  | Eq => if Z.even f then f else (f + 1)%Z
  end.

(** The nearest float to a positive [x]: its significand
    [x / 2 ^ e] lies in [[2 ^ 52, 2 ^ 53)]. *)
Definition nearest (x : Q) : Q :=
  let e := (ilog2 x - 52)%Z in inject_Z (rint (x / 2 ^ e)) * 2 ^ e.

Definition rnd (x : Q) : Q :=
  match Qnum x with
  | Z0 => 0
  | Zpos _ => nearest x
  | Zneg _ => - nearest (- x)
  end.

(** The unit roundoff, [2 ^ -53]. *)
Definition u : Q := 1 # 9007199254740992.

End binary64.

(** [timedelta.total_seconds()]: the microseconds divided by [10 ** 6],
    as a float. *)
Definition float_seconds (d : timedelta) : Q :=
  binary64.rnd (total_seconds d).

(** ** [class IntervalSampler] *)

Module IntervalSampler.

(** [_callback] records whether a callback was configured
    ([callback is not None]); [_data] is the attribute created by [start]. *)
Record t (T : Type) : Type := Make {
  _interval : Q;
  _size : Z;
  _callback : bool;
  _data : list T
}.
Arguments Make {T}.
Arguments _interval {T}.
Arguments _size {T}.
Arguments _callback {T}.
Arguments _data {T}.

(** [int(duration.total_seconds() / interval.total_seconds())]: two
    floats, their float quotient, truncated. *)
Definition capacity (interval duration : timedelta) : Z :=
  builtins.int
    (binary64.rnd (float_seconds duration / float_seconds interval)).

(** [__init__]: the only failure is the float division by a zero
    interval. *)
Definition __init__ {T : Type} (interval duration : timedelta)
    (callback : bool) : result (t T) :=
  if Qeq_bool (float_seconds interval) 0 then Raise ZeroDivisionError
  else Ok {| _interval := float_seconds interval;
             _size := capacity interval duration;
             _callback := callback;
             _data := [] |}.

(** [_store]: append, keep [self._data[-self._size:]], and hand the new
    list to the callback thread when a callback is configured.  The second
    component is the argument of the dispatched callback. *)
Definition _store {T : Type} (self : t T) (sample : T)
    : t T * option (list T) :=
  let data := slice_from (- _size self) (_data self ++ [sample]) in
  let self' := {| _interval := _interval self; _size := _size self;
                  _callback := _callback self; _data := data |} in
  (self', if _callback self then Some data else None).

(** [duration]: the float product of the interval and the capacity. *)
Definition duration {T : Type} (self : t T) : Q :=
  binary64.rnd
    (_interval self * binary64.rnd (inject_Z (_size self)))%Q.

Definition interval {T : Type} (self : t T) : Q := _interval self.

Definition size {T : Type} (self : t T) : Z := _size self.

(** [start] resets the window; the first acquisition is the caller's
    first [_sample]. *)
Definition start {T : Type} (self : t T) : t T :=
  {| _interval := _interval self; _size := _size self;
     _callback := _callback self; _data := [] |}.

(** The window after a run of acquisitions, oldest first. *)
Definition store_all {T : Type} (self : t T) (samples : list T) : t T :=
  fold_left (fun s x => fst (_store s x)) samples self.

End IntervalSampler.

(** ** [class ButtonSampler(IntervalSampler)] *)

Module ButtonSampler.

Record t : Type := Make {
  base : IntervalSampler.t Z;
  _count : Z
}.

Definition __init__ (interval duration : timedelta) (callback : bool)
    : result t :=
  bind (IntervalSampler.__init__ interval duration callback)
       (fun b => Ok {| base := b; _count := 0 |}).

(** [start]: [self._count = 0], then [super().start()]. *)
Definition start (self : t) : t :=
  {| base := IntervalSampler.start (base self); _count := 0 |}.

(** [_tick]: [self._count += 1]. *)
Definition _tick (self : t) : t :=
  {| base := base self; _count := _count self + 1 |}.

(** Line 85 of [_sample]: [self._store(self._count)]. *)
Definition _sample_store (self : t) : t * option (list Z) :=
  let (b, cb) := IntervalSampler._store (base self) (_count self) in
  ({| base := b; _count := _count self |}, cb).

(** Line 86 of [_sample]: [self._count = 0]. *)
Definition _sample_reset (self : t) : t :=
  {| base := base self; _count := 0 |}.

(** [_sample] run without interference: line 85 then line 86. *)
Definition _sample (self : t) : t * option (list Z) :=
  let (s, cb) := _sample_store self in (_sample_reset s, cb).

(** *** The sampler threads against the pulse thread

    The pulse source calls [_tick] from its own thread.  The timer starts
    a new thread on [_sample] at every tick (line 36), [start] one more
    (line 70), and none is joined: any number of them can stand between
    line 85 and line 86 at once.  Threads are interleaved at statement
    granularity: each statement of [_tick] and of [_sample] is one step.
    The source holds no lock, so every interleaving of these steps is a
    possible schedule.  Finer interleavings (inside [+=], inside [_store])
    only add schedules. *)
Inductive step : Set :=
| Pulse        (* the pulse thread runs [_tick] *)
| Line85       (* a sampler thread runs [self._store(self._count)] *)
| Line86.      (* a sampler thread runs [self._count = 0] *)

(** [in_sample] is the number of sampler threads that stand between
    line 85 and line 86; [stored] logs the sample handed to [_store] by
    every line 85 so far, oldest first. *)
Record machine : Type := Machine {
  sampler : t;
  in_sample : nat;
  stored : list Z
}.

(** Line 85 can always run (a new thread); line 86 needs a thread that has
    run line 85. *)
Definition exec (m : machine) (e : step) : option machine :=
  match e with
  | Pulse =>
      Some {| sampler := _tick (sampler m); in_sample := in_sample m;
              stored := stored m |}
  | Line85 =>
      Some {| sampler := fst (_sample_store (sampler m));
              in_sample := S (in_sample m);
              stored := stored m ++ [_count (sampler m)] |}
  | Line86 =>
      match in_sample m with
      | O => None
      | S n => Some {| sampler := _sample_reset (sampler m); in_sample := n;
                       stored := stored m |}
      end
  end.

Fixpoint run (m : machine) (sched : list step) : option machine :=
  match sched with
  | [] => Some m
  | e :: rest =>
      match exec m e with
      | Some m' => run m' rest
      | None => None
      end
  end.

Definition boot (self : t) : machine :=
  {| sampler := start self; in_sample := O; stored := [] |}.

(** Number of pulse events in a schedule. *)
Fixpoint pulses (sched : list step) : Z :=
  match sched with
  | [] => 0
  | Pulse :: rest => 1 + pulses rest
  | _ :: rest => pulses rest
  end.

Definition total (counts : list Z) : Z := fold_right Z.add 0 counts.

(** The books of a schedule.  [fresh] is the part of the counter that no
    sampler thread has read yet, [count] the counter.

    [lost]: the pulses wiped by a reset before any thread read them. *)
Fixpoint lost (fresh : Z) (sched : list step) : Z :=
  match sched with
  | [] => 0
  | Pulse :: rest => lost (fresh + 1) rest
  | Line85 :: rest => lost 0 rest
  | Line86 :: rest => fresh + lost 0 rest
  end.

(** [repeated]: the readings of a pulse beyond its first, by a thread that
    reads the counter before an earlier reader has reset it. *)
Fixpoint repeated (count fresh : Z) (sched : list step) : Z :=
  match sched with
  | [] => 0
  | Pulse :: rest => repeated (count + 1) (fresh + 1) rest
  | Line85 :: rest => (count - fresh) + repeated count 0 rest
  | Line86 :: rest => repeated 0 0 rest
  end.

(** [unread]: the pulses in the counter, at the end, that no thread has
    read. *)
Fixpoint unread (fresh : Z) (sched : list step) : Z :=
  match sched with
  | [] => fresh
  | Pulse :: rest => unread (fresh + 1) rest
  | Line85 :: rest => unread 0 rest
  | Line86 :: rest => unread 0 rest
  end.

(** A schedule that threads can run: every line 86 is run by a thread that
    has run line 85.  [threads] is the number of those at the start. *)
Fixpoint feasible (threads : nat) (sched : list step) : bool :=
  match sched with
  | [] => true
  | Pulse :: rest => feasible threads rest
  | Line85 :: rest => feasible (S threads) rest
  | Line86 :: rest =>
      match threads with
      | O => false
      | S n => feasible n rest
      end
  end.

(** A schedule in which the sampler threads do not overlap: no line 85
    while a thread stands between line 85 and line 86.  [inside] tells
    whether one does at the start. *)
Fixpoint serial (inside : bool) (sched : list step) : bool :=
  match sched with
  | [] => true
  | Pulse :: rest => serial inside rest
  | Line85 :: rest => negb inside && serial true rest
  | Line86 :: rest => inside && serial false rest
  end.

(** Number of pulse events delivered while a sampler thread stands
    between line 85 and line 86 of a serial schedule. *)
Fixpoint gap_pulses (inside : bool) (sched : list step) : Z :=
  match sched with
  | [] => 0
  | Pulse :: rest => (if inside then 1 else 0) + gap_pulses inside rest
  | Line85 :: rest => gap_pulses true rest
  | Line86 :: rest => gap_pulses false rest
  end.

(** Events counted by the sampler but not yet handed to a window. *)
Definition pending (m : machine) : Z :=
  match in_sample m with
  | O => _count (sampler m)
  | S _ => 0
  end.

End ButtonSampler.

(** ** [class WindDirectionSampler(MCP3008Sampler)] *)

Module WindDirectionSampler.

Local Open Scope Q_scope.

(** The class attribute, an insertion-ordered dict: angle to resistance. *)
Definition RESISTANCE_BY_ANGLE : list (Q * Q) :=
  [ (270, 120000);
    (315, 64900);
    (585 # 2, 42120);
    (0, 33000);
    (675 # 2, 21880);
    (225, 16000);
    (495 # 2, 14120);
    (45, 8200);
    (45 # 2, 6570);
    (180, 3900);
    (405 # 2, 3140);
    (135, 2200);
    (315 # 2, 1410);
    (90, 1000);
    (135 # 2, 891);
    (225 # 2, 668) ].

(** [a / b] with Python's exception on a zero divisor. *)
Definition div (a b : Q) : result Q :=
  if Qeq_bool b 0 then Raise ZeroDivisionError else Ok (a / b).

(** [d.update({k: v})] on an insertion-ordered dict. *)
Fixpoint dict_update (d : list (Q * Q)) (k v : Q) : list (Q * Q) :=
  match d with
  | [] => [(k, v)]
  | (k', v') :: rest =>
      if Qeq_bool k' k then (k', v) :: rest
      else (k', v') :: dict_update rest k v
  end.

(** The first loop of [__init__]: [values.append(r / (r + resistance))]. *)
Fixpoint ratios (r : Q) (table : list (Q * Q)) : result (list Q) :=
  match table with
  | [] => Ok []
  | (_, resistance) :: rest =>
      bind (div r (r + resistance)) (fun v =>
      bind (ratios r rest) (fun vs => Ok (v :: vs)))
  end.

(** The second loop of [__init__], over the keys of the table; [n] is
    [len(self.RESISTANCE_BY_ANGLE)]. *)
Fixpoint thresholds_loop (n : nat) (values : list Q) (keys : list Q)
    (i : nat) (acc : list (Q * Q)) : result (list (Q * Q)) :=
  match keys with
  | [] => Ok acc
  | angle :: rest =>
      if Nat.eqb i (n - 1)
      then thresholds_loop n values rest i (dict_update acc angle 1)
      else
        bind (index values i) (fun a =>
        bind (index values (i + 1)) (fun b =>
        thresholds_loop n values rest (i + 1)
          (dict_update acc angle ((a + b) / 2))))
  end.

Record t : Type := Make {
  base : IntervalSampler.t (option Q);
  _thresholds_by_angle : list (Q * Q)
}.

Definition __init__ (r : Q) (interval duration : timedelta)
    (callback : bool) : result t :=
  bind (IntervalSampler.__init__ interval duration callback) (fun b =>
  bind (ratios r RESISTANCE_BY_ANGLE) (fun values =>
  bind (thresholds_loop (length RESISTANCE_BY_ANGLE) values
          (map fst RESISTANCE_BY_ANGLE) 0 []) (fun th =>
  Ok {| base := b; _thresholds_by_angle := th |}))).

(** The body of the [degree] property for an ADC reading [value]; falling
    off the loop returns [None]. *)
Fixpoint first_match (items : list (Q * Q)) (value : Q) : option Q :=
  match items with
  | [] => None
  | (angle, threshold) :: rest =>
      if Qle_bool value threshold then Some angle
      else first_match rest value
  end.

Definition degree (self : t) (value : Q) : option Q :=
  first_match (_thresholds_by_angle self) value.

(** [_sample]: [self._store(self.degree)], for the ADC reading [value]. *)
Definition _sample (self : t) (value : Q) : t * option (list (option Q)) :=
  let (b, cb) := IntervalSampler._store (base self) (degree self value) in
  ({| base := b; _thresholds_by_angle := _thresholds_by_angle self |}, cb).

Definition start (self : t) : t :=
  {| base := IntervalSampler.start (base self);
     _thresholds_by_angle := _thresholds_by_angle self |}.

End WindDirectionSampler.

(** ** [class SensorReading] *)

Module SensorReading.

Record t (V : Type) : Type := Make {
  value : option V;
  timestamp : Z;
  unit : option string
}.
Arguments Make {V}.
Arguments value {V}.
Arguments timestamp {V}.
Arguments unit {V}.

(** [utcnow] is the instant [datetime.datetime.utcnow()] returns when the
    caller passes no timestamp. *)
Definition __init__ {V : Type} (utcnow : Z) (value : option V)
    (timestamp : option Z) (unit : option string) : t V :=
  {| value := value; timestamp := default utcnow timestamp; unit := unit |}.

Definition update {V : Type} (utcnow : Z) (self : t V) (value : option V)
    (timestamp : option Z) : t V :=
  {| value := value; timestamp := default utcnow timestamp;
     unit := unit self |}.

End SensorReading.

(** ** [class WeatherStation] *)

Module WeatherStation.

Local Open Scope R_scope.

(** What a reading's [value] attribute can hold besides [None]. *)
Inductive pyval : Type :=
| Num (x : R)
| Str (s : string).

(** One [bme280.sample(...)] result. *)
Record bme280_reading : Type := Bme280 {
  temperature : R;
  humidity : R;
  pressure : R;
  bme_timestamp : Z
}.

Definition WIND_DIRECTION_RESISTOR : Q := 4700%Q.

Definition AIR_SAMPLE_INTERVAL : timedelta := minutes 1.
Definition AIR_SAMPLE_DURATION : timedelta := hours 3.
Definition RAIN_SAMPLE_INTERVAL : timedelta := minutes 5.
Definition RAIN_SAMPLE_DURATION : timedelta := days 1.
Definition WIND_SPEED_SAMPLE_INTERVAL : timedelta := seconds 3.
Definition WIND_SPEED_SAMPLE_DURATION : timedelta := minutes 10.
Definition WIND_DIRECTION_SAMPLE_INTERVAL : timedelta := seconds 1.
Definition WIND_DIRECTION_SAMPLE_DURATION : timedelta :=
  WIND_SPEED_SAMPLE_INTERVAL.

Definition RAIN_SCALE_FACTOR : R := 0.2794.
Definition WIND_SPEED_SCALE_FACTOR : R :=
  2.4 / Q2R (total_seconds WIND_SPEED_SAMPLE_INTERVAL) / 3.6.

Record t : Type := Make {
  _readings : gmap string (SensorReading.t pyval);
  listener : bool
}.

(** The dict literal of [__init__], in source order; a repeated key keeps
    the later entry.  [SensorReading("hPa/hr")] passes the text as the first
    positional argument, [value]. *)
Definition initial_readings (utcnow : nat -> Z)
    : list (string * SensorReading.t pyval) :=
  let unit_ (i : nat) (u : string) :=
    SensorReading.__init__ (utcnow i) None None (Some u) in
  let value_ (i : nat) (v : string) :=
    SensorReading.__init__ (utcnow i) (Some (Str v)) None None in
  [ ("humidity", unit_ 0%nat "%");
    ("pressure", unit_ 1%nat "hPa");
    ("pressure-trend", value_ 2%nat "hPa/hr");
    ("temperature", unit_ 3%nat "°C");
    ("temperature-trend", value_ 4%nat "°C/hr");
    ("humidity", unit_ 5%nat "%");
    ("dew_point", unit_ 6%nat "°C");
    ("wind_deg", unit_ 7%nat "degrees");
    ("wind_gust", unit_ 8%nat "m/s");
    ("wind_speed", unit_ 9%nat "m/s");
    ("rain_1h", unit_ 10%nat "mm");
    ("rain_6h", unit_ 11%nat "mm");
    ("rain_24h", unit_ 12%nat "mm") ]%string.

Definition __init__ (utcnow : nat -> Z) (listener : bool) : t :=
  {| _readings :=
       fold_left (fun m kv => <[kv.1 := kv.2]> m) (initial_readings utcnow) ∅;
     listener := listener |}.

(** The four samplers [__init__] constructs and starts. *)
Definition air_sampler : result (IntervalSampler.t bme280_reading) :=
  IntervalSampler.__init__ AIR_SAMPLE_INTERVAL AIR_SAMPLE_DURATION true.
Definition wind_direction_sampler : result WindDirectionSampler.t :=
  WindDirectionSampler.__init__ WIND_DIRECTION_RESISTOR
    WIND_DIRECTION_SAMPLE_INTERVAL WIND_DIRECTION_SAMPLE_DURATION true.
Definition wind_speed_sampler : result ButtonSampler.t :=
  ButtonSampler.__init__ WIND_SPEED_SAMPLE_INTERVAL
    WIND_SPEED_SAMPLE_DURATION true.
Definition rain_sampler : result ButtonSampler.t :=
  ButtonSampler.__init__ RAIN_SAMPLE_INTERVAL RAIN_SAMPLE_DURATION true.

(** *** Methods that mutate the reading store

    A method body is a state transformer over the station that may raise:
    the store keeps the updates made before the exception. *)
Definition M (A : Type) : Type := t -> t * result A.

Definition ret {A : Type} (a : A) : M A := fun self => (self, Ok a).

Definition and_then {A B : Type} (k : A -> M B) (m : M A) : M B :=
  fun self =>
    match m self with
    | (self', Ok a) => k a self'
    | (self', Raise e) => (self', Raise e)
    end.

#[local] Instance M_ret : MRet M := @ret.
#[local] Instance M_bind : MBind M := @and_then.

(** [self._readings.get(key).update(value, timestamp)]: the receiver is
    evaluated first ([get] returns [None] for a missing key, on which
    [.update] raises), then the arguments [args], which may raise, then the
    call. *)
Definition update_reading (key : string)
    (args : result (pyval * option Z)) (utcnow : Z) : M unit :=
  fun self =>
    match _readings self !! key with
    | None => (self, Raise AttributeError)
    | Some r =>
        match args with
        | Raise e => (self, Raise e)
        | Ok (value, timestamp) =>
            ({| _readings :=
                  <[key := SensorReading.update utcnow r (Some value)
                             timestamp]> (_readings self);
                listener := listener self |}, Ok tt)
        end
    end.

(** [_publish]: the batch is the store restricted to [keys]; it is handed
    to the listener thread when a listener is configured. *)
Definition _publish (keys : gset string)
    : M (option (gmap string (SensorReading.t pyval))) :=
  fun self =>
    let readings :=
      filter (fun kv => kv.1 ∈ keys) (_readings self) in
    (self, Ok (if listener self then Some readings else None)).

(** Float division: a zero divisor raises. *)
Definition fdiv (a b : R) : result R :=
  if Req_dec_T b 0 then Raise ZeroDivisionError else Ok (a / b).

Definition ltb (a b : R) : bool := if Rlt_dec a b then true else false.
Definition leb (a b : R) : bool := if Rle_dec a b then true else false.
Definition eqb (a b : R) : bool := if Req_dec_T a b then true else false.

(** The accumulation loop of [average_angles]: [(sin_sum, cos_sum)]. *)
Definition sin_cos_sums (angles : list R) : R * R :=
  fold_left
    (fun acc angle =>
       let r := math.radians angle in (acc.1 + sin r, acc.2 + cos r))
    angles (0, 0).

(** [average_angles], with floats idealised as real numbers.  The source
    sums rounded sines and cosines; where the exact mean vector is not the
    zero vector its answer is the one below up to rounding.  Where it is
    the zero vector (opposite directions in the window) the exact means
    are both 0 and the branch below is the one for [c <= 0], while the
    source branches on the rounding residues: the case table of the
    circular mean is stated for windows that have a mean direction. *)
Definition average_angles (angles : list R) : result R :=
  let sin_sum := (sin_cos_sums angles).1 in
  let cos_sum := (sin_cos_sums angles).2 in
  let flen := INR (length angles) in
  s ← fdiv sin_sum flen;
  c ← fdiv cos_sum flen;
  arc ← match fdiv s c with
        | Ok q => Ok (math.degrees (atan q))
        | Raise ZeroDivisionError => Ok 90
        | Raise e => Raise e
        end;
  let average :=
    if ltb 0 s && leb 0 c then arc
    else if leb c 0 then arc + 180
    else if ltb s 0 && ltb 0 c then arc + 360
    else 0 in
  Ok (if eqb average 360 then 0 else average).

Definition dew_point (temperature humidity : R) : result R :=
  let b := 18.678 in
  let c := 257.14 in
  log_ ← (if leb (humidity / 100) 0 then Raise ValueError
          else Ok (ln (humidity / 100)));
  q ← fdiv (b * temperature) (c + temperature);
  let gamma := log_ + q in
  fdiv (c * gamma) (b - gamma).

(** [numpy.mean(data)] on a non-empty list of ints. *)
Definition mean (data : list Z) : R :=
  IZR (builtins.sum data) / INR (length data).

(** The window of the wind-direction sampler holds what [degree] returned;
    [math.radians(None)] raises [TypeError] inside the accumulation loop. *)
Fixpoint floats (data : list (option Q)) : result (list R) :=
  match data with
  | [] => Ok []
  | None :: _ => Raise TypeError
  | Some q :: rest => rs ← floats rest; Ok (Q2R q :: rs)
  end.

Definition _wind_direction_sample (utcnow : Z) (data : list (option Q))
    : M (option (gmap string (SensorReading.t pyval))) :=
  update_reading "wind_deg"
    (angles ← floats data;
     average ← average_angles angles;
     Ok (Num (IZR (builtins.round average)), None))
    utcnow;;
  _publish {[ "wind_deg" ]}.

Definition _rain_sample (utcnow : nat -> Z) (data : list Z)
    : M (option (gmap string (SensorReading.t pyval))) :=
  let per (period : Q) : Z :=
    builtins.int (period / total_seconds RAIN_SAMPLE_INTERVAL)%Q in
  update_reading "rain_1h"
    (Ok (Num (RAIN_SCALE_FACTOR
              * IZR (builtins.sum (slice_from (- per 3600%Q) data))), None))
    (utcnow 0%nat);;
  update_reading "rain_6h"
    (Ok (Num (RAIN_SCALE_FACTOR
              * IZR (builtins.sum (slice_from (- per (6 * 3600)%Q) data))),
         None))
    (utcnow 1%nat);;
  update_reading "rain_24h"
    (Ok (Num (RAIN_SCALE_FACTOR * IZR (builtins.sum data)), None))
    (utcnow 2%nat);;
  _publish {[ "rain_1h"; "rain_6h"; "rain_24" ]}.

Definition _wind_speed_sample (utcnow : nat -> Z) (data : list Z)
    : M (option (gmap string (SensorReading.t pyval))) :=
  update_reading "wind_gust"
    (gust ← builtins.max data;
     Ok (Num (builtins.round1 (IZR gust * WIND_SPEED_SCALE_FACTOR)), None))
    (utcnow 0%nat);;
  update_reading "wind_speed"
    (Ok (Num (builtins.round1 (mean data * WIND_SPEED_SCALE_FACTOR)), None))
    (utcnow 1%nat);;
  _publish {[ "wind_gust"; "wind_speed" ]}.

(** *** [_trend]

    [numpy.polyfit] is an external function: [polyfit x y deg] stands for
    the array of [deg + 1] coefficients it returns, highest power first. *)
Section Trend.

Variable polyfit : list R -> list R -> nat -> list R.

(** [range(0, n)] as abscissas. *)
Definition range (n : nat) : list R := map INR (List.seq 0 n).

Definition _trend (data : list R) : result R :=
  if (length data <=? 1)%nat then Ok 0
  else index (polyfit (range (length data)) data 1) 0.

(** The argument of [round(..., 1)] in the two trend updates of
    [_bme280_sample]: [self._trend(series) * 3600 / interval_seconds]. *)
Definition trend_per_hour (interval : timedelta) (series : list R)
    : result R :=
  m ← _trend series;
  Ok (m * 3600 / Q2R (total_seconds interval)).

(** The timestamp argument of the six updates: [data[-1].timestamp],
    evaluated after the value argument [value]. *)
Definition stamped (data : list bme280_reading) (value : pyval)
    : result (pyval * option Z) :=
  latest ← last_item data;
  Ok (value, Some (bme_timestamp latest)).

Definition _bme280_sample (data : list bme280_reading)
    : M (option (gmap string (SensorReading.t pyval))) :=
  update_reading "humidity"
    (latest ← last_item data;
     stamped data (Num (IZR (builtins.round (humidity latest))))) 0%Z;;
  update_reading "pressure"
    (latest ← last_item data;
     stamped data (Num (IZR (builtins.round (pressure latest))))) 0%Z;;
  update_reading "pressure-trend"
    (trend ← trend_per_hour AIR_SAMPLE_INTERVAL (map pressure data);
     stamped data (Num (builtins.round1 trend))) 0%Z;;
  update_reading "temperature"
    (latest ← last_item data;
     stamped data (Num (IZR (builtins.round (temperature latest * 2)) / 2)))
    0%Z;;
  update_reading "temperature-trend"
    (trend ← trend_per_hour AIR_SAMPLE_INTERVAL (map temperature data);
     stamped data (Num (builtins.round1 trend))) 0%Z;;
  update_reading "dew_point"
    (latest ← last_item data;
     dew ← dew_point (temperature latest) (humidity latest);
     stamped data (Num (IZR (builtins.round (dew * 2)) / 2))) 0%Z;;
  _publish {[ "humidity"; "pressure"; "pressure-trend"; "temperature";
              "temperature-trend"; "dew_point" ]}.

End Trend.

End WeatherStation.

(** ** [mqtt.py]: the module-level [listener] *)

Module mqtt.

Section Listener.

(** The type of reading values and Python's [==] on them. *)
Context {V : Type} (value_eqb : V -> V -> bool).

(** What [client.publish(topic, payload, retain=True)] sends. *)
Inductive payload : Type :=
| Value (v : option V)
| Int (n : Z).

Record message : Type := Publish {
  topic : string;
  body : payload
}.

(** The two module globals. *)
Record globals : Type := Globals {
  data : gmap string (SensorReading.t V);
  timestamp : option Z
}.

Definition initial : globals := {| data := ∅; timestamp := None |}.

(** [reading.value == data[key].value] for a stored value that is not
    [None]. *)
Definition same_value (incoming : option V) (stored_value : V) : bool :=
  match incoming with
  | Some v => value_eqb v stored_value
  | None => false
  end.

(** [int(timestamp.timestamp())]: whole seconds since the epoch. *)
Definition epoch_seconds (t : Z) : Z := Z.quot t 1000000.

(** Lines 26 to 29: publish the stored value of [key], then the clock when
    it is set, and step the clock by one second. *)
Definition forward (key : string) (g : globals) : globals * list message :=
  let stored := from_option SensorReading.value None (data g !! key) in
  let m := Publish ("ws/" +:+ key) (Value stored) in
  match timestamp g with
  | None => (g, [m])
  | Some t =>
      ({| data := data g; timestamp := Some (t + seconds 1) |},
       [m; Publish "ws/dt" (Int (epoch_seconds t))])
  end.

(** Lines 19 to 22: the clock follows the latest reading timestamp. *)
Definition catch_up (t : option Z) (reading_timestamp : Z) : option Z :=
  match t with
  | None => Some reading_timestamp
  | Some t0 =>
      if t0 <? reading_timestamp then Some reading_timestamp else Some t0
  end.

(** One iteration of the [for] loop. *)
Definition listener_body (g : globals) (key : string)
    (reading : SensorReading.t V) : globals * list message :=
  match data g !! key with
  | None =>
      let fresh :=
        SensorReading.__init__ 0 (SensorReading.value reading)
          (Some (SensorReading.timestamp reading))
          (SensorReading.unit reading) in
      forward key {| data := <[key := fresh]> (data g);
                     timestamp := timestamp g |}
  | Some known =>
      match SensorReading.value known with
      | Some stored_value =>
          let t := catch_up (timestamp g) (SensorReading.timestamp reading) in
          if same_value (SensorReading.value reading) stored_value
          then ({| data := data g; timestamp := t |}, [])
          else
            let updated :=
              SensorReading.update 0 known (SensorReading.value reading)
                (Some (SensorReading.timestamp reading)) in
            forward key {| data := <[key := updated]> (data g);
                           timestamp := t |}
      | None => forward key g
      end
  end.

(** [listener(readings)]: [readings.items()] in iteration order; returns the
    new globals and the messages published, in order. *)
Fixpoint listener (g : globals)
    (readings : list (string * SensorReading.t V))
    : globals * list message :=
  match readings with
  | [] => (g, [])
  | (key, reading) :: rest =>
      let (g1, out1) := listener_body g key reading in
      let (g2, out2) := listener g1 rest in
      (g2, out1 ++ out2)
  end.

(** A run of batches, each one a call of [listener]. *)
Fixpoint listen_all (g : globals)
    (batches : list (list (string * SensorReading.t V)))
    : globals * list message :=
  match batches with
  | [] => (g, [])
  | b :: rest =>
      let (g1, out1) := listener g b in
      let (g2, out2) := listen_all g1 rest in
      (g2, out1 ++ out2)
  end.

(** *** Observations on a listener run *)

(** [m] forwards the reading [key]. *)
Definition forwards (key : string) (m : message) : bool :=
  match body m with
  | Value _ => String.eqb (topic m) ("ws/" +:+ key)
  | Int _ => false
  end.

Definition times_forwarded (key : string) (out : list message) : nat :=
  length (List.filter (forwards key) out).

(** The value the listener holds for [key] ([None] also when it holds
    none). *)
Definition stored_value (g : globals) (key : string) : option V :=
  from_option SensorReading.value None (data g !! key).

(** Number of readings forwarded, whatever their key. *)
Definition readings_forwarded (out : list message) : nat :=
  length (List.filter
            (fun m => match body m with Value _ => true | Int _ => false end)
            out).

(** The order on clock states: unset is below every instant. *)
Definition clock_le (a b : option Z) : Prop :=
  match a, b with
  | None, _ => True
  | Some _, None => False
  | Some x, Some y => x <= y
  end.

(** The incoming reading for [key] repeats the value stored for it. *)
Definition unchanged (g : globals) (key : string)
    (reading : SensorReading.t V) : bool :=
  match data g !! key with
  | Some known =>
      match SensorReading.value known with
      | Some stored_value =>
          same_value (SensorReading.value reading) stored_value
      | None => false
      end
  | None => false
  end.

End Listener.

End mqtt.

(** * Definitions used to state the properties *)

(** The last [n] elements of a list. *)
Definition last_n {A : Type} (n : nat) (l : list A) : list A :=
  drop (length l - n) l.

(** A reading with a value, a timestamp and no unit. *)
Definition reading_at (v t : Z) : SensorReading.t Z :=
  SensorReading.Make (Some v) t None.

(** The keys of the reading store. *)
Definition reading_keys : gset string :=
  {[ "humidity"; "pressure"; "pressure-trend"; "temperature";
     "temperature-trend"; "dew_point"; "wind_deg"; "wind_gust"; "wind_speed";
     "rain_1h"; "rain_6h"; "rain_24h" ]}.

(** *** The wind-direction thresholds in the spec's words *)

(** The voltage ratio of the divider, in the spec's words. *)
Definition spec_ratio (r resistance : Q) : Q := (r / (r + resistance))%Q.

(** The thresholds in the spec's words: the midpoint of consecutive ratios,
    and exactly 1 for the last entry. *)
Fixpoint spec_thresholds (r : Q) (table : list (Q * Q)) : list (Q * Q) :=
  match table with
  | [] => []
  | (angle, resistance) :: rest =>
      match rest with
      | [] => [(angle, 1%Q)]
      | (_, next) :: _ =>
          (angle, ((spec_ratio r resistance + spec_ratio r next) / 2)%Q)
          :: spec_thresholds r rest
      end
  end.

(** *** The circular mean in the spec's words *)

Definition sum_R (l : list R) : R := fold_right Rplus 0%R l.

(** The mean sine and the mean cosine of a list of angles in degrees. *)
Definition mean_sin (angles : list R) : R :=
  (sum_R (map (fun a => sin (math.radians a)) angles)
   / INR (length angles))%R.
Definition mean_cos (angles : list R) : R :=
  (sum_R (map (fun a => cos (math.radians a)) angles)
   / INR (length angles))%R.

(** [arc = atan(s / c)] in degrees, and 90 when [c = 0]. *)
Definition arc_of (s c : R) : R :=
  if Req_dec_T c 0 then 90%R else math.degrees (atan (s / c)).

(** The case table of the spec: [c > 0 /\ s >= 0 -> arc],
    [c <= 0 -> arc + 180], [c > 0 /\ s < 0 -> arc + 360], and a result of
    exactly 360 folded to 0. *)
Definition spec_circular_mean (angles : list R) : R :=
  let s := mean_sin angles in
  let c := mean_cos angles in
  let arc := arc_of s c in
  let r :=
    if WeatherStation.ltb 0 c && WeatherStation.leb 0 s then arc
    else if WeatherStation.leb c 0 then (arc + 180)%R
    else (arc + 360)%R in
  if WeatherStation.eqb r 360 then 0%R else r.

(** The value [average_angles] computes from the two means. *)
Definition selected (s c : R) : R :=
  let arc := arc_of s c in
  let average :=
    if WeatherStation.ltb 0 s && WeatherStation.leb 0 c then arc
    else if WeatherStation.leb c 0 then (arc + 180)%R
    else if WeatherStation.ltb s 0 && WeatherStation.ltb 0 c
    then (arc + 360)%R
    else 0%R in
  if WeatherStation.eqb average 360 then 0%R else average.


(** *** Least squares in the spec's words

    The straight line [y = m * x + b] fitted to the points [(x_i, y_i)]:
    the closed form of the slope and of the intercept, and the sum of
    squared residuals they minimise. *)

Definition dot (xs ys : list R) : R := sum_R (zip_with Rmult xs ys).

Definition lsq_slope (xs ys : list R) : R :=
  let n := INR (length xs) in
  ((n * dot xs ys - sum_R xs * sum_R ys)
   / (n * dot xs xs - sum_R xs * sum_R xs))%R.

Definition lsq_intercept (xs ys : list R) : R :=
  ((sum_R ys - lsq_slope xs ys * sum_R xs) / INR (length xs))%R.

Definition sse (xs ys : list R) (m b : R) : R :=
  sum_R
    (zip_with (fun x y => (y - (m * x + b)) * (y - (m * x + b)))%R xs ys).

(** A [polyfit] that returns the closed form, to instantiate the parameter
    of [_trend]. *)
Definition exact_polyfit (xs ys : list R) (deg : nat) : list R :=
  [lsq_slope xs ys; lsq_intercept xs ys].


(** * Definitions used to state further properties *)

(** A schedule without interference: for each count [n] of [ns], [n]
    pulses, then the two statements of [_sample]. *)
Definition rounds (ns : list nat) : list ButtonSampler.step :=
  concat (map (fun n => repeat ButtonSampler.Pulse n
                        ++ [ButtonSampler.Line85; ButtonSampler.Line86]) ns).

(** [x] is at least as near to [v] as [y]. *)
Definition near (v x y : Q) : Prop := (Qabs (v - x) <= Qabs (v - y))%Q.

(** Two station states with the same schema: the same keys with the same
    units, and the same listener. *)
Definition same_schema (a b : WeatherStation.t) : Prop :=
  (forall k : string,
     SensorReading.unit <$> (WeatherStation._readings a !! k)
     = SensorReading.unit <$> (WeatherStation._readings b !! k))
  /\ WeatherStation.listener a = WeatherStation.listener b.

(** A method body that keeps the schema, whatever its outcome. *)
Definition keeps {A : Type} (m : WeatherStation.M A) : Prop :=
  forall st : WeatherStation.t, same_schema st (m st).1.

(** The station after [self._readings.get(key).update(value, timestamp)]
    on a key of the store. *)
Definition written (key : string) (value : WeatherStation.pyval)
    (timestamp : option Z) (utcnow : Z) (st : WeatherStation.t)
    : WeatherStation.t :=
  {| WeatherStation._readings :=
       alter (fun r => SensorReading.update utcnow r (Some value) timestamp)
         key (WeatherStation._readings st);
     WeatherStation.listener := WeatherStation.listener st |}.

(** The reading of [key] in a store or batch has this value and this
    timestamp. *)
Definition holds (m : gmap string (SensorReading.t WeatherStation.pyval))
    (key : string) (value : WeatherStation.pyval) (timestamp : Z) : Prop :=
  exists r : SensorReading.t WeatherStation.pyval,
    m !! key = Some r
    /\ SensorReading.value r = Some value
    /\ SensorReading.timestamp r = timestamp.


(** The keys [_bme280_sample] writes and publishes. *)
Definition air_keys : gset string :=
  {[ "humidity"; "pressure"; "pressure-trend"; "temperature";
     "temperature-trend"; "dew_point" ]}.

(** The payloads of the clock messages ([ws/dt]) of a run, in order. *)
Definition clock_payloads {V : Type} (out : list (@mqtt.message V))
    : list Z :=
  omap (fun m => match mqtt.body m with
                 | mqtt.Int n => Some n
                 | mqtt.Value _ => None
                 end) out.

(** The message that forwards a reading of a batch when its key is new. *)
Definition announce {V : Type} (kr : string * SensorReading.t V)
    : @mqtt.message V :=
  mqtt.Publish ("ws/" +:+ kr.1) (mqtt.Value (SensorReading.value kr.2)).

(** The entry the listener stores for a key it sees for the first time. *)
Definition adopted {V : Type} (r : SensorReading.t V) : SensorReading.t V :=
  SensorReading.Make (SensorReading.value r) (SensorReading.timestamp r)
    (SensorReading.unit r).

(** A clock payload [p] published on the way from [g] to [g']: the whole
    seconds of an instant [t] after the epoch that the clock had reached
    from [g], one second before the clock of [g']. *)
Definition published_between {V : Type} (g g' : @mqtt.globals V) (p : Z)
    : Prop :=
  exists t : Z,
    0 <= t
    /\ p = mqtt.epoch_seconds t
    /\ mqtt.clock_le (mqtt.timestamp g) (Some t)
    /\ mqtt.clock_le (Some (t + seconds 1)) (mqtt.timestamp g').

(** ** [class IntervalTimer(threading.Thread)]

    Times are seconds as exact rationals.  The [finished] event is shared
    with the thread that calls [cancel], and the clock is the system's: one
    turn of the loop of [run] takes from its environment the value of
    [time.time()] in the loop condition, whether [finished.wait] returned
    [True], and the value of [finished.is_set()] on line 34. *)

Module IntervalTimer.

Record t : Type := Make {
  interval : Q;
  finished : bool
}.

Definition __init__ (interval : Q) : t :=
  {| interval := interval; finished := false |}.

(** [cancel]: [self.finished.set()]. *)
Definition cancel (self : t) : t :=
  {| interval := interval self; finished := true |}.

Record turn : Type := Turn {
  now : Q;
  woken : bool;
  is_set : bool
}.

(** What the thread does: [Wait timeout] is [self.finished.wait(timeout)],
    [Call] starts a thread on [self.function]. *)
Inductive action : Type :=
| Wait (timeout : Q)
| Call.

(** The [while] loop of [run], for as many turns as the environment
    describes. *)
Fixpoint loop (interval next_run : Q) (turns : list turn) : list action :=
  match turns with
  | [] => []
  | r :: rest =>
      Wait (next_run - now r)
      :: (if woken r then []
          else if is_set r then []
          else Call :: loop interval (next_run + interval) rest)
  end.

(** [run]; [started] is [time.time()] on line 32. *)
Definition run (self : t) (started : Q) (turns : list turn) : list action :=
  loop (interval self) (started + interval self) turns.

Definition timeouts (acts : list action) : list Q :=
  omap (fun a => match a with Wait q => Some q | Call => None end) acts.

Fixpoint calls (acts : list action) : nat :=
  match acts with
  | [] => O
  | Call :: rest => S (calls rest)
  | Wait _ :: rest => calls rest
  end.

(** The turns before the first one that sees the event set. *)
Fixpoint live (turns : list turn) : list turn :=
  match turns with
  | [] => []
  | r :: rest => if woken r || is_set r then [] else r :: live rest
  end.

End IntervalTimer.

(** ** The attributes of a [ButtonSampler] over its life

    An attribute assigned only by [start] is missing before the first
    [start]: [None] below is a missing attribute, and reading it raises
    [AttributeError].  [when_pressed] tells whether the button's handler is
    [self._tick] (it is [None] otherwise).  [Thread.start()] returns
    [None], so that is what line 71 stores in [self._timer]. *)

Module Lifecycle.

Inductive pyobj : Type :=
| PyNone
| Timer (i : nat).      (* the i-th [IntervalTimer] created *)

Record t : Type := Make {
  _interval : Q;
  _size : Z;
  _callback : bool;
  when_pressed : bool;
  _count : option Z;
  _data : option (list Z);
  _timer : option pyobj
}.

(** The sampler with the timer threads started so far, the number of
    [_sample] threads started and not yet run, and the arguments of the
    callback threads started so far. *)
Record world : Type := World {
  self : t;
  timers : list IntervalTimer.t;
  spawned : nat;
  handed : list (list Z)
}.

(** [ButtonSampler.__init__]: the attributes of [IntervalSampler.__init__],
    and the handler attached to the button. *)
Definition __init__ (interval duration : timedelta) (callback : bool)
    : result t :=
  bind (@IntervalSampler.__init__ Z interval duration callback)
       (fun b => Ok {| _interval := IntervalSampler._interval b;
                       _size := IntervalSampler._size b;
                       _callback := IntervalSampler._callback b;
                       when_pressed := true;
                       _count := None;
                       _data := None;
                       _timer := None |}).

Definition boot (s : t) : world :=
  {| self := s; timers := []; spawned := 0; handed := [] |}.

(** The sampler as [IntervalSampler._store] sees it, its window being
    [d]. *)
Definition as_base (s : t) (d : list Z) : IntervalSampler.t Z :=
  {| IntervalSampler._interval := _interval s;
     IntervalSampler._size := _size s;
     IntervalSampler._callback := _callback s;
     IntervalSampler._data := d |}.

Definition with_count (s : t) (c : option Z) : t :=
  {| _interval := _interval s; _size := _size s; _callback := _callback s;
     when_pressed := when_pressed s; _count := c; _data := _data s;
     _timer := _timer s |}.

Definition with_data (s : t) (d : option (list Z)) : t :=
  {| _interval := _interval s; _size := _size s; _callback := _callback s;
     when_pressed := when_pressed s; _count := _count s; _data := d;
     _timer := _timer s |}.

Definition with_handler (s : t) (h : bool) : t :=
  {| _interval := _interval s; _size := _size s; _callback := _callback s;
     when_pressed := h; _count := _count s; _data := _data s;
     _timer := _timer s |}.

Definition with_self (w : world) (s : t) : world :=
  {| self := s; timers := timers w; spawned := spawned w;
     handed := handed w |}.

(** [_tick]: [self._count += 1]. *)
Definition _tick (w : world) : world * result unit :=
  match _count (self w) with
  | None => (w, Raise AttributeError)
  | Some c => (with_self w (with_count (self w) (Some (c + 1))), Ok tt)
  end.

(** [_store]: [self._data.append(sample)] needs the attribute. *)
Definition _store (w : world) (sample : Z) : world * result unit :=
  match _data (self w) with
  | None => (w, Raise AttributeError)
  | Some d =>
      let (b, cb) := IntervalSampler._store (as_base (self w) d) sample in
      ({| self := with_data (self w) (Some (IntervalSampler._data b));
          timers := timers w;
          spawned := spawned w;
          handed := handed w ++ option_list cb |}, Ok tt)
  end.

(** [_sample]: [self._store(self._count)], then [self._count = 0]. *)
Definition _sample (w : world) : world * result unit :=
  match _count (self w) with
  | None => (w, Raise AttributeError)
  | Some c =>
      match _store w c with
      | (w', Ok _) => (with_self w' (with_count (self w') (Some 0)), Ok tt)
      | (w', Raise e) => (w', Raise e)
      end
  end.

(** [ButtonSampler.start], then [IntervalSampler.start]: lines 97, 98, 69,
    70 and 71. *)
Definition start (w : world) : world :=
  {| self := {| _interval := _interval (self w);
                _size := _size (self w);
                _callback := _callback (self w);
                when_pressed := true;
                _count := Some 0;
                _data := Some [];
                _timer := Some PyNone |};
     timers := timers w ++ [IntervalTimer.__init__ (_interval (self w))];
     spawned := S (spawned w);
     handed := handed w |}.

(** [ButtonSampler.cancel]: the handler is detached, then
    [IntervalSampler.cancel] runs [self._timer.cancel()]. *)
Definition cancel (w : world) : world * result unit :=
  let w1 := with_self w (with_handler (self w) false) in
  match _timer (self w1) with
  | None => (w1, Raise AttributeError)
  | Some PyNone => (w1, Raise AttributeError)
  | Some (Timer i) =>
      ({| self := self w1;
          timers := alter IntervalTimer.cancel i (timers w1);
          spawned := spawned w1;
          handed := handed w1 |}, Ok tt)
  end.

(** What happens to a sampler: its owner calls [start] or [cancel], the
    button is pressed, the wait of the [i]-th timer runs out, or a started
    [_sample] thread runs.  Each is one step. *)
Inductive event : Type :=
| Start
| Cancel
| Press
| Elapse (i : nat)
| Sample.

Definition exec (w : world) (e : event) : world * result unit :=
  match e with
  | Start => (start w, Ok tt)
  | Cancel => cancel w
  | Press => if when_pressed (self w) then _tick w else (w, Ok tt)
  | Elapse i =>
      match timers w !! i with
      | Some tm =>
          if IntervalTimer.finished tm then (w, Ok tt)
          else ({| self := self w; timers := timers w;
                   spawned := S (spawned w); handed := handed w |}, Ok tt)
      | None => (w, Ok tt)
      end
  | Sample =>
      match spawned w with
      | O => (w, Ok tt)
      | S n => _sample {| self := self w; timers := timers w;
                          spawned := n; handed := handed w |}
      end
  end.

(** The world after a run of events, with the outcome of each. *)
Fixpoint run (w : world) (events : list event)
    : world * list (result unit) :=
  match events with
  | [] => (w, [])
  | e :: rest =>
      let (w1, o) := exec w e in
      let (w2, os) := run w1 rest in
      (w2, o :: os)
  end.

Definition is_start (e : event) : bool :=
  match e with Start => true | _ => false end.

Definition is_cancel (e : event) : bool :=
  match e with Cancel => true | _ => false end.

(** The timer attribute never refers to a timer, and no timer has been
    told to finish. *)
Definition unstoppable (w : world) : Prop :=
  (forall i : nat, _timer (self w) <> Some (Timer i))
  /\ Forall (fun tm => IntervalTimer.finished tm = false) (timers w).

(** Before the first [start]: no count, the handler attached, no thread
    and no timer. *)
Definition unstarted (w : world) : Prop :=
  _count (self w) = None /\ when_pressed (self w) = true
  /\ spawned w = O /\ timers w = [].

(** After a [start]: the count and the window exist. *)
Definition started (w : world) : Prop :=
  is_Some (_count (self w)) /\ is_Some (_data (self w)).

End Lifecycle.

(** ** The list objects of [IntervalSampler._store]

    [append] changes a list in place and a slice is a new list, so the
    list a callback thread was handed is the object the next [_store]
    appends to.  [heap] holds the list objects by reference. *)

Module Aliasing.

Section Heap.
Context {T : Type}.

Record t : Type := Make {
  _size : Z;
  _callback : bool;
  _data : nat;
  heap : list (list T);
  handed : list nat
}.

Definition deref (self : t) (r : nat) : list T :=
  default [] (heap self !! r).

(** [start]: [self._data = []]. *)
Definition start (self : t) : t :=
  {| _size := _size self; _callback := _callback self;
     _data := length (heap self); heap := heap self ++ [[]];
     handed := handed self |}.

(** [_store]: the append, the slice, and the callback thread. *)
Definition _store (self : t) (sample : T) : t :=
  let heap1 := alter (fun l => l ++ [sample]) (_data self) (heap self) in
  let new := slice_from (- _size self)
               (default [] (heap1 !! _data self)) in
  {| _size := _size self; _callback := _callback self;
     _data := length heap1; heap := heap1 ++ [new];
     handed := if _callback self then handed self ++ [length heap1]
               else handed self |}.

Definition store_all (self : t) (samples : list T) : t :=
  fold_left _store samples self.

(** The sampler of the value model with the same window. *)
Definition window (self : t) (interval : Q) : IntervalSampler.t T :=
  {| IntervalSampler._interval := interval;
     IntervalSampler._size := _size self;
     IntervalSampler._callback := _callback self;
     IntervalSampler._data := deref self (_data self) |}.

(** The current window is a list of the heap. *)
Definition bound (self : t) : Prop :=
  (_data self < length (heap self))%nat.

End Heap.

Arguments t : clear implicits.

End Aliasing.

(** ** [WeatherStation.__getattr__] and the callbacks over time *)

(** [__getattr__]: the outer [None] is the [Exception] of line 245, the
    inner option the result of [dict.get]. *)
Definition __getattr__ (self : WeatherStation.t) (name : string)
    : option (option (SensorReading.t WeatherStation.pyval)) :=
  if bool_decide (name ∈ dom (WeatherStation._readings self))
  then Some (WeatherStation._readings self !! name)
  else None.

(** One run of a sampler's callback, with the window it is handed and the
    clock readings it takes. *)
Inductive callback : Type :=
| Air (data : list WeatherStation.bme280_reading)
| WindDirection (utcnow : Z) (data : list (option Q))
| WindSpeed (utcnow : nat -> Z) (data : list Z)
| Rain (utcnow : nat -> Z) (data : list Z).

(** The station after a callback, whatever its outcome. *)
Definition fire (polyfit : list R -> list R -> nat -> list R)
    (st : WeatherStation.t) (c : callback) : WeatherStation.t :=
  match c with
  | Air data => (WeatherStation._bme280_sample polyfit data st).1
  | WindDirection utcnow data =>
      (WeatherStation._wind_direction_sample utcnow data st).1
  | WindSpeed utcnow data =>
      (WeatherStation._wind_speed_sample utcnow data st).1
  | Rain utcnow data => (WeatherStation._rain_sample utcnow data st).1
  end.

Definition fire_all (polyfit : list R -> list R -> nat -> list R)
    (st : WeatherStation.t) (cs : list callback) : WeatherStation.t :=
  fold_left (fire polyfit) cs st.

(** The keys constructed with [SensorReading("...")], the string being
    the first positional argument. *)
Definition trend_keys : gset string :=
  {[ "pressure-trend"; "temperature-trend" ]}.

(** * Properties *)

(** ** Binary64 rounding *)

Module Binary64Facts.
Import binary64.
Local Open Scope Q_scope.

Lemma two_nonzero : ~ (2 : Q) == 0.
Proof. discriminate. Qed.

Lemma pow2_pos (e : Z) : 0 < 2 ^ e.
Proof. apply Qpower_0_lt. reflexivity. Qed.

Lemma pow2_succ (e : Z) : 2 ^ (e + 1) == 2 * 2 ^ e.
Proof. rewrite Qpower_plus by exact two_nonzero. simpl. ring. Qed.

Lemma pow2_le (a b : Z) : (a <= b)%Z -> 2 ^ a <= 2 ^ b.
Proof. intros H. apply Qpower_le_compat_l; [exact H|discriminate]. Qed.

Lemma inject_pos (z : Z) : (0 < z)%Z -> 0 < inject_Z z.
Proof. intros H. change 0 with (inject_Z 0). rewrite <- Zlt_Qlt. exact H. Qed.

Lemma div_le_div (A B N D : Z) :
  (0 < B)%Z -> (0 < D)%Z -> (A * D <= N * B)%Z ->
  inject_Z A / inject_Z B <= inject_Z N / inject_Z D.
Proof.
  intros HB HD H. apply Qle_shift_div_r; [apply inject_pos; exact HB|].
  assert (E : inject_Z N / inject_Z D * inject_Z B
              == inject_Z (N * B) / inject_Z D).
  { rewrite inject_Z_mult. field. intros E0.
    pose proof (inject_pos D HD) as P. rewrite E0 in P. discriminate P. }
  rewrite E. apply Qle_shift_div_l; [apply inject_pos; exact HD|].
  rewrite <- inject_Z_mult, <- Zle_Qle. exact H.
Qed.

Lemma div_lt_div (A B N D : Z) :
  (0 < B)%Z -> (0 < D)%Z -> (A * D < N * B)%Z ->
  inject_Z A / inject_Z B < inject_Z N / inject_Z D.
Proof.
  intros HB HD H. apply Qlt_shift_div_r; [apply inject_pos; exact HB|].
  assert (E : inject_Z N / inject_Z D * inject_Z B
              == inject_Z (N * B) / inject_Z D).
  { rewrite inject_Z_mult. field. intros E0.
    pose proof (inject_pos D HD) as P. rewrite E0 in P. discriminate P. }
  rewrite E. apply Qlt_shift_div_l; [apply inject_pos; exact HD|].
  rewrite <- inject_Z_mult, <- Zlt_Qlt. exact H.
Qed.

(** The integer logarithm brackets its argument. *)
Lemma ilog2_spec (x : Q) :
  0 < x -> 2 ^ ilog2 x <= x /\ x < 2 ^ (ilog2 x + 1).
Proof.
  intros Hx. destruct x as [n d].
  assert (Hn : (0 < n)%Z).
  { unfold Qlt in Hx. simpl in Hx. lia. }
  unfold ilog2. cbn [Qnum Qden].
  destruct (Z.log2_spec n Hn) as [Ha1 Ha2].
  destruct (Z.log2_spec (Z.pos d) eq_refl) as [Hb1 Hb2].
  pose proof (Z.log2_nonneg n) as Ha0.
  pose proof (Z.log2_nonneg (Z.pos d)) as Hb0.
  set (a := Z.log2 n) in *. set (b := Z.log2 (Z.pos d)) in *.
  replace (Z.succ a) with (a + 1)%Z in Ha2 by lia.
  replace (Z.succ b) with (b + 1)%Z in Hb2 by lia.
  assert (Hx' : n # d == inject_Z n / inject_Z (Z.pos d))
    by apply Qmake_Qdiv.
  assert (Pa : inject_Z (2 ^ a) == 2 ^ a) by (apply Zpower_Qpower; exact Ha0).
  assert (Pb : inject_Z (2 ^ b) == 2 ^ b) by (apply Zpower_Qpower; exact Hb0).
  assert (Pa1 : inject_Z (2 ^ (a + 1)) == 2 ^ (a + 1))
    by (apply Zpower_Qpower; lia).
  assert (Pb1 : inject_Z (2 ^ (b + 1)) == 2 ^ (b + 1))
    by (apply Zpower_Qpower; lia).
  assert (Za : (0 < 2 ^ a)%Z) by (apply Z.pow_pos_nonneg; lia).
  assert (Zb : (0 < 2 ^ b)%Z) by (apply Z.pow_pos_nonneg; lia).
  assert (Hlow : 2 ^ (a - b - 1) <= n # d).
  { replace (a - b - 1)%Z with (a - (b + 1))%Z by lia.
    rewrite Qpower_minus by exact two_nonzero. rewrite Hx', <- Pa, <- Pb1.
    apply div_le_div; [lia|reflexivity|nia]. }
  assert (Hhigh : n # d < 2 ^ (a - b + 1)).
  { replace (a - b + 1)%Z with (a + 1 - b)%Z by lia.
    rewrite Qpower_minus by exact two_nonzero. rewrite Hx', <- Pa1, <- Pb.
    apply div_lt_div; [reflexivity|lia|nia]. }
  destruct (Qle_bool (2 ^ (a - b)) (n # d)) eqn:E.
  - apply Qle_bool_iff in E. split; [exact E|exact Hhigh].
  - split; [exact Hlow|].
    replace (a - b - 1 + 1)%Z with (a - b)%Z by lia.
    apply Qnot_le_lt. intros H. apply Qle_bool_iff in H. congruence.
Qed.

Lemma ilog2_unique (x : Q) (k : Z) :
  2 ^ k <= x -> x < 2 ^ (k + 1) -> ilog2 x = k.
Proof.
  intros H1 H2.
  assert (Hx : 0 < x) by (eapply Qlt_le_trans; [apply (pow2_pos k)|exact H1]).
  destruct (ilog2_spec x Hx) as [L1 L2].
  assert (A : (ilog2 x < k + 1)%Z).
  { apply (Qpower_lt_compat_l_inv 2); [|reflexivity].
    eapply Qle_lt_trans; [exact L1|exact H2]. }
  assert (B : (k < ilog2 x + 1)%Z).
  { apply (Qpower_lt_compat_l_inv 2); [|reflexivity].
    eapply Qle_lt_trans; [exact H1|exact L2]. }
  lia.
Qed.

Lemma ilog2_comp (x y : Q) : 0 < x -> x == y -> ilog2 x = ilog2 y.
Proof.
  intros Hx E. destruct (ilog2_spec x Hx) as [L1 L2].
  symmetry. apply ilog2_unique; rewrite <- E; assumption.
Qed.

Lemma ilog2_mono (x y : Q) : 0 < x -> x <= y -> (ilog2 x <= ilog2 y)%Z.
Proof.
  intros Hx Hxy.
  assert (Hy : 0 < y) by (eapply Qlt_le_trans; eassumption).
  destruct (ilog2_spec x Hx) as [L1 _]. destruct (ilog2_spec y Hy) as [_ L2].
  assert (A : (ilog2 x < ilog2 y + 1)%Z).
  { apply (Qpower_lt_compat_l_inv 2); [|reflexivity].
    eapply Qle_lt_trans; [exact L1|].
    eapply Qle_lt_trans; [exact Hxy|exact L2]. }
  lia.
Qed.

(** Rounding to the nearest integer. *)
Lemma rint_cases (x : Q) :
  let f := Qfloor x in
  let r := x - inject_Z f in
  0 <= r /\ r < 1
  /\ ((rint x = f /\ r <= 1 # 2) \/ (rint x = (f + 1)%Z /\ 1 # 2 <= r)).
Proof.
  intros f r.
  pose proof (Qfloor_le x) as H1. pose proof (Qlt_floor x) as H2.
  fold f in H1, H2. rewrite inject_Z_plus in H2.
  change (inject_Z 1) with 1 in H2.
  assert (R0 : 0 <= r) by (unfold r; Lqa.lra).
  assert (R1 : r < 1) by (unfold r; Lqa.lra).
  split; [exact R0|]. split; [exact R1|].
  unfold rint. fold f. fold r.
  destruct (Qcompare_spec r (1 # 2)) as [E|E|E].
  - destruct (Z.even f); [left|right]; split; try reflexivity;
      rewrite E; Lqa.lra.
  - left. split; [reflexivity|Lqa.lra].
  - right. split; [reflexivity|Lqa.lra].
Qed.

Lemma rint_bounds (x : Q) :
  inject_Z (rint x) - (1 # 2) <= x /\ x <= inject_Z (rint x) + (1 # 2).
Proof.
  destruct (rint_cases x) as (R0 & R1 & [[-> H]|[-> H]]);
    rewrite ?inject_Z_plus; change (inject_Z 1) with 1; split; Lqa.lra.
Qed.

Lemma rint_comp (x y : Q) : x == y -> rint x = rint y.
Proof.
  intros E. unfold rint. rewrite (Qfloor_comp _ _ E).
  assert (E' : x - inject_Z (Qfloor y) == y - inject_Z (Qfloor y))
    by (rewrite E; reflexivity).
  rewrite (Qcompare_comp _ _ E' (1 # 2) (1 # 2) (Qeq_refl _)). reflexivity.
Qed.

Lemma rint_Z (z : Z) : rint (inject_Z z) = z.
Proof.
  unfold rint. rewrite Qfloor_Z.
  assert (E : inject_Z z - inject_Z z == 0) by ring.
  rewrite (Qcompare_comp _ _ E (1 # 2) (1 # 2) (Qeq_refl _)). reflexivity.
Qed.

Lemma rint_mono (x y : Q) : x <= y -> (rint x <= rint y)%Z.
Proof.
  intros Hxy. pose proof (Qfloor_resp_le x y Hxy) as Hf.
  unfold rint.
  destruct (Z.eq_dec (Qfloor x) (Qfloor y)) as [E|Hne].
  - rewrite E.
    destruct (Qcompare_spec (x - inject_Z (Qfloor y)) (1 # 2)) as [A|A|A];
      destruct (Qcompare_spec (y - inject_Z (Qfloor y)) (1 # 2)) as [B|B|B];
      try destruct (Z.even (Qfloor y)); try lia; exfalso; Lqa.lra.
  - assert (Qfloor x + 1 <= Qfloor y)%Z by lia.
    destruct (Qcompare (x - inject_Z (Qfloor x)) (1 # 2));
      destruct (Qcompare (y - inject_Z (Qfloor y)) (1 # 2));
      try destruct (Z.even (Qfloor x)); try destruct (Z.even (Qfloor y));
      lia.
Qed.

Lemma pow52 : 2 ^ 52 == 4503599627370496.
Proof. reflexivity. Qed.

Lemma pow53 : 2 ^ 53 == 9007199254740992.
Proof. reflexivity. Qed.

(** The significand of a positive number. *)
Lemma scaled (x : Q) :
  0 < x ->
  2 ^ 52 <= x / 2 ^ (ilog2 x - 52) /\ x / 2 ^ (ilog2 x - 52) < 2 ^ 53.
Proof.
  intros Hx. destruct (ilog2_spec x Hx) as [L1 L2].
  pose proof (pow2_pos (ilog2 x - 52)) as He.
  split.
  - apply Qle_shift_div_l; [exact He|].
    rewrite <- Qpower_plus by exact two_nonzero.
    replace (52 + (ilog2 x - 52))%Z with (ilog2 x) by lia. exact L1.
  - apply Qlt_shift_div_r; [exact He|].
    rewrite <- Qpower_plus by exact two_nonzero.
    replace (53 + (ilog2 x - 52))%Z with (ilog2 x + 1)%Z by lia. exact L2.
Qed.

Lemma significand (x : Q) :
  0 < x ->
  (2 ^ 52 <= rint (x / 2 ^ (ilog2 x - 52)) <= 2 ^ 53)%Z.
Proof.
  intros Hx. destruct (scaled x Hx) as [S1 S2].
  rewrite pow52 in S1. rewrite pow53 in S2. split.
  - change (2 ^ 52)%Z with (rint (inject_Z 4503599627370496)).
    apply rint_mono. exact S1.
  - change (2 ^ 53)%Z with (rint (inject_Z 9007199254740992)).
    apply rint_mono. apply Qlt_le_weak. exact S2.
Qed.

Lemma nearest_error (x : Q) :
  0 < x -> x * (1 - u) <= nearest x /\ nearest x <= x * (1 + u).
Proof.
  intros Hx. destruct (scaled x Hx) as [S1 _]. rewrite pow52 in S1.
  unfold nearest.
  pose proof (pow2_pos (ilog2 x - 52)) as He.
  set (p := 2 ^ (ilog2 x - 52)) in *.
  set (y := x / p) in *.
  destruct (rint_bounds y) as [B1 B2].
  set (m := inject_Z (rint y)) in *.
  assert (Ex : x == y * p).
  { unfold y. field. intros E. rewrite E in He. discriminate He. }
  assert (Hhalf : (1 # 2) <= y * u) by (unfold u; Lqa.lra).
  split.
  - setoid_replace (x * (1 - u)) with ((y - y * u) * p)
      using relation Qeq by (rewrite Ex; ring).
    apply Qmult_le_compat_r; [Lqa.lra|apply Qlt_le_weak; exact He].
  - setoid_replace (x * (1 + u)) with ((y + y * u) * p)
      using relation Qeq by (rewrite Ex; ring).
    apply Qmult_le_compat_r; [Lqa.lra|apply Qlt_le_weak; exact He].
Qed.

Lemma nearest_range (x : Q) :
  0 < x -> 2 ^ ilog2 x <= nearest x /\ nearest x <= 2 ^ (ilog2 x + 1).
Proof.
  intros Hx. destruct (significand x Hx) as [M1 M2].
  unfold nearest.
  pose proof (pow2_pos (ilog2 x - 52)) as He.
  set (p := 2 ^ (ilog2 x - 52)) in *.
  split.
  - replace (ilog2 x) with (52 + (ilog2 x - 52))%Z at 1 by lia.
    rewrite Qpower_plus by exact two_nonzero. fold p.
    apply Qmult_le_compat_r; [|apply Qlt_le_weak; exact He].
    rewrite pow52. change 4503599627370496 with (inject_Z (2 ^ 52)).
    rewrite <- Zle_Qle. exact M1.
  - replace (ilog2 x + 1)%Z with (53 + (ilog2 x - 52))%Z by lia.
    rewrite Qpower_plus by exact two_nonzero. fold p.
    apply Qmult_le_compat_r; [|apply Qlt_le_weak; exact He].
    rewrite pow53. change 9007199254740992 with (inject_Z (2 ^ 53)).
    rewrite <- Zle_Qle. exact M2.
Qed.

Lemma nearest_pos (x : Q) : 0 < x -> 0 < nearest x.
Proof.
  intros Hx. destruct (nearest_range x Hx) as [H _].
  eapply Qlt_le_trans; [apply pow2_pos|exact H].
Qed.

Lemma nearest_mono (x y : Q) : 0 < x -> x <= y -> nearest x <= nearest y.
Proof.
  intros Hx Hxy.
  assert (Hy : 0 < y) by (eapply Qlt_le_trans; eassumption).
  pose proof (ilog2_mono x y Hx Hxy) as Hl.
  destruct (Z.eq_dec (ilog2 x) (ilog2 y)) as [E|Hne].
  - unfold nearest. rewrite E.
    pose proof (pow2_pos (ilog2 y - 52)) as He.
    apply Qmult_le_compat_r; [|apply Qlt_le_weak; exact He].
    rewrite <- Zle_Qle. apply rint_mono.
    apply Qmult_le_compat_r; [exact Hxy|].
    apply Qlt_le_weak, Qinv_lt_0_compat, He.
  - destruct (nearest_range x Hx) as [_ H1].
    destruct (nearest_range y Hy) as [H2 _].
    eapply Qle_trans; [exact H1|]. eapply Qle_trans; [|exact H2].
    apply pow2_le. lia.
Qed.

Lemma nearest_comp (x y : Q) : 0 < x -> x == y -> nearest x == nearest y.
Proof.
  intros Hx E. unfold nearest. rewrite (ilog2_comp x y Hx E).
  assert (E' : x / 2 ^ (ilog2 y - 52) == y / 2 ^ (ilog2 y - 52))
    by (rewrite E; reflexivity).
  rewrite (rint_comp _ _ E'). reflexivity.
Qed.

(** [rnd] by the sign of its argument. *)
Lemma rnd_pos (x : Q) : 0 < x -> rnd x = nearest x.
Proof.
  intros Hx. unfold rnd. destruct x as [[|n|n] d]; try reflexivity;
    discriminate Hx.
Qed.

Lemma rnd_zero (x : Q) : x == 0 -> rnd x = 0.
Proof.
  intros E. unfold rnd. destruct x as [[|n|n] d]; try reflexivity;
    discriminate E.
Qed.

Lemma rnd_neg (x : Q) : x < 0 -> rnd x = - nearest (- x).
Proof.
  intros Hx. unfold rnd. destruct x as [[|n|n] d]; try reflexivity;
    discriminate Hx.
Qed.

Lemma rnd_zero_iff (x : Q) : rnd x == 0 <-> x == 0.
Proof.
  split.
  - intros H. destruct (Q_dec x 0) as [[Hlt|Hgt]|E]; [| |exact E]; exfalso.
    + rewrite (rnd_neg x Hlt) in H.
      assert (P : 0 < - x) by Lqa.lra.
      pose proof (nearest_pos (- x) P). Lqa.lra.
    + rewrite (rnd_pos x Hgt) in H.
      pose proof (nearest_pos x Hgt). Lqa.lra.
  - intros E. rewrite (rnd_zero x E). reflexivity.
Qed.

Lemma rnd_error (x : Q) :
  0 < x -> x * (1 - u) <= rnd x /\ rnd x <= x * (1 + u).
Proof. intros Hx. rewrite (rnd_pos x Hx). apply nearest_error. exact Hx. Qed.

Lemma rnd_positive (x : Q) : 0 < x -> 0 < rnd x.
Proof. intros Hx. rewrite (rnd_pos x Hx). apply nearest_pos. exact Hx. Qed.

Lemma rnd_mono (x y : Q) : 0 <= x -> x <= y -> rnd x <= rnd y.
Proof.
  intros Hx Hxy. destruct (Qlt_le_dec 0 x) as [Px|Zx].
  - assert (Py : 0 < y) by (eapply Qlt_le_trans; eassumption).
    rewrite (rnd_pos x Px), (rnd_pos y Py). apply nearest_mono; assumption.
  - assert (E : x == 0) by Lqa.lra. rewrite (rnd_zero x E).
    destruct (Qlt_le_dec 0 y) as [Py|Zy].
    + apply Qlt_le_weak, rnd_positive, Py.
    + assert (E' : y == 0) by Lqa.lra. rewrite (rnd_zero y E'). Lqa.lra.
Qed.

Lemma rnd_one : rnd 1 == 1.
Proof. reflexivity. Qed.

Lemma mult_le (p q r t : Q) :
  0 <= p -> 0 <= r -> p <= q -> r <= t -> p * r <= q * t.
Proof.
  intros Hp Hr Hpq Hrt.
  apply Qle_trans with (q * r).
  - apply Qmult_le_compat_r; assumption.
  - rewrite (Qmult_comm q r), (Qmult_comm q t).
    apply Qmult_le_compat_r; [exact Hrt|Lqa.lra].
Qed.

(** The quotient of two rounded positive numbers, rounded. *)
Lemma div_error (a b : Q) :
  0 < a -> 0 < b ->
  a * (1 - 4 * u) <= rnd (rnd a / rnd b) * b
  /\ rnd (rnd a / rnd b) * b <= a * (1 + 4 * u).
Proof.
  intros Ha Hb.
  destruct (rnd_error a Ha) as [A1 A2]. destruct (rnd_error b Hb) as [B1 B2].
  pose proof (rnd_positive a Ha) as PA. pose proof (rnd_positive b Hb) as PB.
  set (A := rnd a) in *. set (B := rnd b) in *.
  assert (Py : 0 < A / B).
  { apply Qlt_shift_div_l; [exact PB|]. Lqa.lra. }
  destruct (rnd_error (A / B) Py) as [Y1 Y2].
  pose proof (rnd_positive (A / B) Py) as PY.
  set (Y := rnd (A / B)) in *.
  assert (EA : A / B * B == A).
  { field. intros E. rewrite E in PB. discriminate PB. }
  set (y := A / B) in *.
  assert (U0 : 0 < u) by reflexivity.
  assert (U1 : u <= 1 # 8) by (unfold u; discriminate).
  split.
  - (* a (1-4u)(1+u) <= a (1-u)^2 <= A (1-u) = y B (1-u) <= Y B <= Y b (1+u) *)
    apply (Qmult_le_r _ _ (1 + u)); [Lqa.lra|].
    apply Qle_trans with (a * ((1 - u) * (1 - u))).
    { rewrite <- Qmult_assoc. apply mult_le; try Lqa.lra.
      - Lqa.nra.
      - Lqa.nra. }
    apply Qle_trans with (A * (1 - u)).
    { rewrite Qmult_assoc. apply Qmult_le_compat_r; Lqa.lra. }
    apply Qle_trans with (Y * B).
    { rewrite <- EA.
      setoid_replace (y * B * (1 - u)) with (y * (1 - u) * B)
        using relation Qeq by ring.
      apply Qmult_le_compat_r; Lqa.lra. }
    rewrite <- Qmult_assoc. apply mult_le; Lqa.lra.
  - (* Y b (1-u) <= y (1+u) B = A (1+u) <= a (1+u)^2 <= a (1+4u)(1-u) *)
    apply (Qmult_le_r _ _ (1 - u)); [Lqa.lra|].
    apply Qle_trans with (y * (1 + u) * B).
    { rewrite <- Qmult_assoc.
      assert (0 <= b * (1 - u)) by (apply Qmult_le_0_compat; Lqa.lra).
      apply mult_le; Lqa.lra. }
    apply Qle_trans with (A * (1 + u)).
    { rewrite <- EA. Lqa.lra. }
    apply Qle_trans with (a * ((1 + u) * (1 + u))).
    { rewrite Qmult_assoc. apply Qmult_le_compat_r; Lqa.lra. }
    rewrite <- Qmult_assoc. apply mult_le; try Lqa.lra.
    + Lqa.nra.
    + Lqa.nra.
Qed.

Lemma rnd_comp (x y : Q) : x == y -> rnd x == rnd y.
Proof.
  intros E. destruct (Q_dec x 0) as [[Hlt|Hgt]|E0].
  - assert (Hy : y < 0) by (rewrite <- E; exact Hlt).
    rewrite (rnd_neg x Hlt), (rnd_neg y Hy).
    apply Qopp_comp, nearest_comp; [Lqa.lra|rewrite E; reflexivity].
  - assert (Hy : 0 < y) by (rewrite <- E; exact Hgt).
    rewrite (rnd_pos x Hgt), (rnd_pos y Hy).
    apply nearest_comp; assumption.
  - assert (Hy : y == 0) by (rewrite <- E; exact E0).
    rewrite (rnd_zero x E0), (rnd_zero y Hy). reflexivity.
Qed.

(** An integer of up to 53 bits is a float. *)
Lemma rnd_integer (n : Z) :
  (0 <= n < 2 ^ 53)%Z -> rnd (inject_Z n) == inject_Z n.
Proof.
  intros [H0 H53]. destruct (Z.eq_dec n 0%Z) as [->|Hne]; [reflexivity|].
  assert (Hn : (0 < n)%Z) by lia.
  pose proof (inject_pos n Hn) as Px.
  rewrite (rnd_pos _ Px). unfold nearest.
  destruct (ilog2_spec _ Px) as [L1 L2].
  set (l := ilog2 (inject_Z n)) in *.
  assert (Hl53 : (l < 53)%Z).
  { apply (Qpower_lt_compat_l_inv 2); [|reflexivity].
    eapply Qle_lt_trans; [exact L1|]. rewrite pow53.
    change 9007199254740992 with (inject_Z (2 ^ 53)).
    rewrite <- Zlt_Qlt. exact H53. }
  assert (Hl0 : (0 < l + 1)%Z).
  { apply (Qpower_lt_compat_l_inv 2); [|reflexivity].
    eapply Qle_lt_trans; [|exact L2].
    change (2 ^ 0) with (inject_Z 1). rewrite <- Zle_Qle. lia. }
  set (k := (52 - l)%Z).
  assert (Hk : (0 <= k)%Z) by (unfold k; lia).
  replace (l - 52)%Z with (- k)%Z by (unfold k; lia).
  assert (Pk : 2 ^ k == inject_Z (2 ^ k))
    by (symmetry; apply Zpower_Qpower; exact Hk).
  pose proof (pow2_pos k) as Pk0.
  assert (Ey : inject_Z n / 2 ^ (- k) == inject_Z (n * 2 ^ k)).
  { rewrite Qpower_opp, inject_Z_mult, <- Pk. field.
    intros E. rewrite E in Pk0. discriminate Pk0. }
  rewrite (rint_comp _ _ Ey), rint_Z.
  rewrite Qpower_opp, inject_Z_mult, <- Pk. field.
  intros E. rewrite E in Pk0. discriminate Pk0.
Qed.

End Binary64Facts.

(** ** The capacity of a window *)

Module CapacityFacts.

Lemma total_seconds_pos (d : timedelta) : 0 < d -> (0 < total_seconds d)%Q.
Proof. intros H. unfold total_seconds, Qlt. simpl. lia. Qed.

Lemma total_seconds_zero (d : timedelta) :
  (total_seconds d == 0)%Q <-> d = 0.
Proof. unfold total_seconds, Qeq. simpl. lia. Qed.

Lemma total_seconds_le (d i : timedelta) :
  d <= i -> (total_seconds d <= total_seconds i)%Q.
Proof. intros H. unfold total_seconds, Qle. simpl. lia. Qed.

Lemma float_seconds_zero (d : timedelta) :
  (float_seconds d == 0)%Q <-> d = 0.
Proof.
  unfold float_seconds. rewrite Binary64Facts.rnd_zero_iff.
  apply total_seconds_zero.
Qed.

Lemma floor_le (y : Q) (n : Z) : (y < inject_Z (n + 1))%Q -> Qfloor y <= n.
Proof.
  intros H. pose proof (Qfloor_le y) as F.
  assert (L : (inject_Z (Qfloor y) < inject_Z (n + 1))%Q)
    by (eapply Qle_lt_trans; eassumption).
  rewrite <- Zlt_Qlt in L. lia.
Qed.

Lemma floor_ge (y : Q) (n : Z) : (inject_Z n <= y)%Q -> n <= Qfloor y.
Proof.
  intros H. rewrite <- (Qfloor_Z n). apply Qfloor_resp_le. exact H.
Qed.

Lemma int_nonneg (y : Q) : (0 <= y)%Q -> builtins.int y = Qfloor y.
Proof.
  intros H. unfold builtins.int.
  destruct (Qle_bool 0 y) eqn:E; [reflexivity|].
  apply Qle_bool_iff in H. congruence.
Qed.

(** The float quotient of the two durations, against the exact one. *)
Lemma quotient_error (i d : timedelta) :
  0 < i -> 0 < d -> d < 2 ^ 51 ->
  let y := binary64.rnd (float_seconds d / float_seconds i) in
  (0 < y)%Q
  /\ (inject_Z (d - 1) < y * inject_Z i)%Q
  /\ (y * inject_Z i < inject_Z (d + 1))%Q.
Proof.
  intros Hi Hd Hbig y.
  pose proof (total_seconds_pos i Hi) as Pi.
  pose proof (total_seconds_pos d Hd) as Pd.
  destruct (Binary64Facts.div_error (total_seconds d) (total_seconds i) Pd Pi)
    as [E1 E2].
  fold (float_seconds d) in E1, E2. fold (float_seconds i) in E1, E2.
  fold y in E1, E2.
  assert (Py : (0 < y)%Q).
  { unfold y. apply Binary64Facts.rnd_positive.
    apply Qlt_shift_div_l.
    - apply Binary64Facts.rnd_positive. exact Pi.
    - rewrite Qmult_0_l. apply Binary64Facts.rnd_positive. exact Pd. }
  assert (Ti : (total_seconds i == inject_Z i * (1 # 1000000))%Q)
    by (unfold total_seconds, Qeq; simpl; lia).
  assert (Td : (total_seconds d == inject_Z d * (1 # 1000000))%Q)
    by (unfold total_seconds, Qeq; simpl; lia).
  rewrite Ti, Td in E1, E2.
  assert (Hd' : (0 < inject_Z d)%Q)
    by (apply Binary64Facts.inject_pos; exact Hd).
  assert (Hbig' : (inject_Z d < 2251799813685248)%Q).
  { change 2251799813685248%Q with (inject_Z (2 ^ 51)).
    rewrite <- Zlt_Qlt. exact Hbig. }
  split; [exact Py|].
  unfold Z.sub. rewrite !inject_Z_plus.
  change (inject_Z (- (1))) with (-1)%Q. change (inject_Z 1) with 1%Q.
  unfold binary64.u in E1, E2. clearbody y.
  assert (Ey : (y * (inject_Z i * (1 # 1000000))
                == y * inject_Z i * (1 # 1000000))%Q) by ring.
  rewrite Ey in E1, E2.
  set (P := (y * inject_Z i)%Q) in *. set (D := inject_Z d) in *.
  split; Lqa.lra.
Qed.

(** The capacity against [floor(duration / interval)]. *)
Lemma capacity_bounds (i d : timedelta) :
  0 < i -> 0 <= d < 2 ^ 51 ->
  d / i - 1 <= IntervalSampler.capacity i d <= d / i
  /\ (d mod i <> 0 -> IntervalSampler.capacity i d = d / i)
  /\ 0 <= IntervalSampler.capacity i d.
Proof.
  intros Hi [Hd Hbig]. unfold IntervalSampler.capacity.
  destruct (Z.eq_dec d 0) as [->|Hne].
  - assert (E : (float_seconds 0%Z / float_seconds i == 0)%Q) by reflexivity.
    rewrite (Binary64Facts.rnd_zero _ E). rewrite Z.div_0_l by lia.
    rewrite Zmod_0_l. vm_compute builtins.int. repeat split; lia.
  - assert (Hd' : 0 < d) by lia.
    destruct (quotient_error i d Hi Hd' Hbig) as (Py & L & U).
    set (y := binary64.rnd (float_seconds d / float_seconds i)) in *.
    rewrite (int_nonneg y) by (apply Qlt_le_weak; exact Py).
    pose proof (Z.div_mod d i ltac:(lia)) as Hdm.
    pose proof (Z.mod_pos_bound d i Hi) as Hr.
    pose proof (Binary64Facts.inject_pos i Hi) as Pi.
    assert (Up : Qfloor y <= d / i).
    { apply floor_le. apply (Qmult_lt_r _ _ (inject_Z i)); [exact Pi|].
      eapply Qlt_le_trans; [exact U|].
      rewrite <- inject_Z_mult, <- Zle_Qle. nia. }
    assert (Low : d mod i <> 0 -> d / i <= Qfloor y).
    { intros Hm. apply floor_ge.
      apply (Qmult_le_r _ _ (inject_Z i)); [exact Pi|].
      apply Qlt_le_weak. eapply Qle_lt_trans; [|exact L].
      rewrite <- inject_Z_mult, <- Zle_Qle. nia. }
    assert (Low1 : d / i - 1 <= Qfloor y).
    { apply floor_ge. apply (Qmult_le_r _ _ (inject_Z i)); [exact Pi|].
      apply Qlt_le_weak. eapply Qle_lt_trans; [|exact L].
      rewrite <- inject_Z_mult, <- Zle_Qle. nia. }
    split; [split; assumption|]. split.
    + intros Hm. specialize (Low Hm). lia.
    + apply floor_ge. apply Qlt_le_weak. exact Py.
Qed.

(** A retention of at least one interval gives a capacity of at least
    one, whatever the durations. *)
Lemma capacity_positive (i d : timedelta) :
  0 < i -> i <= d -> 1 <= IntervalSampler.capacity i d.
Proof.
  intros Hi Hid. unfold IntervalSampler.capacity.
  pose proof (total_seconds_pos i Hi) as Pi.
  pose proof (Binary64Facts.rnd_positive _ Pi) as Fi.
  fold (float_seconds i) in Fi.
  assert (Hm : (float_seconds i <= float_seconds d)%Q).
  { unfold float_seconds. apply Binary64Facts.rnd_mono.
    - apply Qlt_le_weak. exact Pi.
    - apply total_seconds_le. exact Hid. }
  assert (H1 : (1 <= float_seconds d / float_seconds i)%Q).
  { apply Qle_shift_div_l; [exact Fi|]. rewrite Qmult_1_l. exact Hm. }
  assert (H2 : (1 <= binary64.rnd (float_seconds d / float_seconds i))%Q).
  { rewrite <- Binary64Facts.rnd_one at 1.
    apply Binary64Facts.rnd_mono; [discriminate|exact H1]. }
  rewrite int_nonneg by Lqa.lra.
  apply (floor_ge _ 1). exact H2.
Qed.

End CapacityFacts.

(** ** Sliding windows: construction and eviction *)

Module IntervalSamplerFacts.
Import IntervalSampler.

Lemma slice_from_neg {A : Type} (n : Z) (l : list A) :
  1 <= n -> slice_from (- n) l = last_n (Z.to_nat n) l.
Proof.
  intros Hn. unfold slice_from, last_n.
  destruct (Z.ltb_spec (- n) 0) as [_|H]; [|lia].
  f_equal. lia.
Qed.

Lemma slice_from_zero {A : Type} (l : list A) : slice_from (- 0) l = l.
Proof.
  unfold slice_from. simpl. rewrite Z.min_l by lia. reflexivity.
Qed.

Lemma last_n_app {A : Type} (n : nat) (a b : list A) :
  last_n n (last_n n a ++ b) = last_n n (a ++ b).
Proof.
  unfold last_n. rewrite !length_app, length_drop.
  destruct (Nat.le_gt_cases (length a) n) as [Hle|Hgt].
  - replace (length a - n)%nat with 0%nat by lia. simpl.
    f_equal. lia.
  - replace (length a - (length a - n) + length b - n)%nat
      with (length b) by lia.
    replace (length a + length b - n)%nat
      with ((length a - n) + length b)%nat by lia.
    rewrite <- drop_drop.
    rewrite (drop_app_le a b (length a - n)) by lia.
    reflexivity.
Qed.

Lemma init_ok {T : Type} (i d : timedelta) (cb : bool) :
  i <> 0 ->
  IntervalSampler.__init__ (T:=T) i d cb =
  Ok (IntervalSampler.Make (float_seconds i) (capacity i d) cb []).
Proof.
  intros Hi. unfold IntervalSampler.__init__.
  destruct (Qeq_bool (float_seconds i) 0) eqn:E; [|reflexivity].
  exfalso. apply Hi. apply CapacityFacts.float_seconds_zero.
  apply Qeq_bool_iff. exact E.
Qed.

Lemma init_rejected_iff {T : Type} (i d : timedelta) (cb : bool) :
  rejected (IntervalSampler.__init__ (T:=T) i d cb) <-> i = 0.
Proof.
  unfold IntervalSampler.__init__.
  destruct (Qeq_bool (float_seconds i) 0) eqn:E; simpl.
  - split; [intros _|trivial].
    apply CapacityFacts.float_seconds_zero. apply Qeq_bool_iff. exact E.
  - split; [tauto|]. intros ->. discriminate E.
Qed.

Lemma last_n_length {A : Type} (n : nat) (l : list A) :
  length (last_n n l) = Nat.min n (length l).
Proof. unfold last_n. rewrite length_drop. lia. Qed.

Lemma last_n_short {A : Type} (n : nat) (l : list A) :
  (length l <= n)%nat -> last_n n l = l.
Proof.
  intros H. unfold last_n. replace (length l - n)%nat with 0%nat by lia.
  reflexivity.
Qed.

Lemma store_all_data {T : Type} (xs : list T) (s : IntervalSampler.t T) :
  1 <= IntervalSampler._size s ->
  (length (IntervalSampler._data s)
   <= Z.to_nat (IntervalSampler._size s))%nat ->
  IntervalSampler._data (IntervalSampler.store_all s xs) =
  last_n (Z.to_nat (IntervalSampler._size s)) (IntervalSampler._data s ++ xs).
Proof.
  revert s. induction xs as [|x xs IH]; intros s Hs Hlen.
  - simpl. rewrite app_nil_r. symmetry. apply last_n_short. exact Hlen.
  - unfold IntervalSampler.store_all in *. simpl.
    rewrite IH; simpl; rewrite ?slice_from_neg by assumption; try assumption.
    + rewrite last_n_app, <- app_assoc. reflexivity.
    + rewrite last_n_length. lia.
Qed.

End IntervalSamplerFacts.

(** C5, as stated, fails: a two-second interval with a one-second
    retention is accepted. *)
Lemma small_retention_is_accepted :
  seconds 1 < seconds 2
  /\ ~ rejected (IntervalSampler.__init__ (T:=Z) (seconds 2) (seconds 1) true)
  /\ ~ rejected (ButtonSampler.__init__ (seconds 2) (seconds 1) true)
  /\ ~ rejected (WindDirectionSampler.__init__ 4700 (seconds 2) (seconds 1)
                   true).
Proof.
  split; [reflexivity|]. vm_compute. tauto.
Qed.

(** C5 (amended): [IntervalSampler.__init__] validates nothing.  For every
    positive interval and every retention from zero up to, but excluding,
    the interval, and below [2 ^ 51] microseconds (some 71 years),
    construction succeeds, with capacity 0; the subclass constructors
    succeed on top of it.  Construction of the base sampler fails exactly
    when the interval is zero, whatever the durations. *)
Theorem init_accepts_small_retention (i d : timedelta) (cb : bool) :
  0 < i -> 0 <= d < i -> d < 2 ^ 51 ->
  (forall T : Type,
     IntervalSampler.__init__ (T:=T) i d cb =
     Ok (IntervalSampler.Make (float_seconds i) 0 cb []))
  /\ ButtonSampler.__init__ i d cb =
     Ok (ButtonSampler.Make (IntervalSampler.Make (float_seconds i) 0 cb []) 0)
  /\ (exists w, WindDirectionSampler.__init__ 4700 i d cb = Ok w
                /\ IntervalSampler._size (WindDirectionSampler.base w) = 0)
  /\ (forall (T : Type) (i' d' : timedelta),
        (rejected (IntervalSampler.__init__ (T:=T) i' d' cb) <-> i' = 0)
        /\ (i' = 0 ->
            IntervalSampler.__init__ (T:=T) i' d' cb
            = Raise ZeroDivisionError)).
Proof.
  intros Hi Hd Hbig.
  assert (Hq : IntervalSampler.capacity i d = 0).
  { destruct (CapacityFacts.capacity_bounds i d Hi ltac:(lia))
      as ([_ Hup] & _ & Hlow).
    rewrite Z.div_small in Hup by lia. lia. }
  assert (H0 : forall T : Type,
     IntervalSampler.__init__ (T:=T) i d cb =
     Ok (IntervalSampler.Make (float_seconds i) 0 cb [])).
  { intros T. rewrite IntervalSamplerFacts.init_ok by lia.
    rewrite Hq. reflexivity. }
  split; [exact H0|]. split; [|split].
  - unfold ButtonSampler.__init__. rewrite H0. reflexivity.
  - unfold WindDirectionSampler.__init__. rewrite H0.
    cbn [bind].
    destruct (WindDirectionSampler.ratios 4700
                WindDirectionSampler.RESISTANCE_BY_ANGLE) as [vs|e] eqn:Er;
      [|vm_compute in Er; discriminate Er].
    cbn [bind].
    destruct (WindDirectionSampler.thresholds_loop _ vs _ _ _) as [th|e] eqn:Et.
    + eexists. split; [reflexivity|reflexivity].
    + exfalso. vm_compute in Er. injection Er as <-.
      vm_compute in Et. discriminate Et.
  - intros T i' d'. split; [apply IntervalSamplerFacts.init_rejected_iff|].
    intros ->. reflexivity.
Qed.

Lemma init_accepts_small_retention_witness :
  IntervalSampler.__init__ (T:=Z) (seconds 2) (seconds 1) false =
  Ok (IntervalSampler.Make (float_seconds (seconds 2)) 0 false []).
Proof.
  apply (init_accepts_small_retention (seconds 2) (seconds 1) false).
  - reflexivity.
  - split; [discriminate | reflexivity].
  - reflexivity.
Defined.

(** Beyond that range the capacity of a retention below the interval need
    not be 0: the two durations, one microsecond apart at some 272 years,
    are the same float. *)
Example capacity_of_a_retention_below_a_huge_interval :
  8589954486681842 < 8589954486681843
  /\ IntervalSampler.capacity 8589954486681843 8589954486681842 = 1
  /\ ~ rejected (IntervalSampler.__init__ (T:=Z) 8589954486681843
                   8589954486681842 true).
Proof.
  split; [reflexivity|]. split; [vm_compute; reflexivity|].
  vm_compute. tauto.
Qed.

(** C6, as stated, fails: with a capacity of zero the slice
    [self._data[-0:]] is the whole list, and the window outgrows its
    capacity at the first append. *)
Lemma window_outgrows_zero_capacity :
  exists s : IntervalSampler.t Z,
    IntervalSampler.__init__ (seconds 2) (seconds 1) false = Ok s
    /\ IntervalSampler._size s = seconds 1 / seconds 2
    /\ IntervalSampler._size s
       < Z.of_nat (length (IntervalSampler._data
                             (IntervalSampler.store_all
                                (IntervalSampler.start s) [7; 8; 9]))).
Proof.
  eexists. split; [reflexivity|]. split; vm_compute; reflexivity.
Qed.

(** The capacity is cut out of a float quotient: 300 ms kept at 100 ms
    is [int(0.3 / 0.1)], which is 2, and the window holds two samples. *)
Example capacity_below_the_exact_quotient :
  exists s : IntervalSampler.t Z,
    IntervalSampler.__init__ (microseconds 100000) (microseconds 300000)
      true = Ok s
    /\ microseconds 300000 / microseconds 100000 = 3
    /\ IntervalSampler._size s = 2
    /\ IntervalSampler._data
         (IntervalSampler.store_all (IntervalSampler.start s) [1; 2; 3; 4])
       = [3; 4].
Proof.
  eexists. split; [reflexivity|]. repeat split; vm_compute; reflexivity.
Qed.

(** C6 (amended): for a positive interval and a retention of at least one
    interval and below [2 ^ 51] microseconds (some 71 years), the capacity
    is [int] of the float quotient of the two durations in seconds: it is
    [floor(retention / interval)] when the interval does not divide the
    retention, that or one less when it does, and at least 1.  After any
    sequence of appends the window is the run of the most recent
    [capacity] samples in acquisition order: its length never exceeds the
    capacity, and after [capacity + 1] appends the oldest sample is gone
    and the [capacity] most recent ones remain. *)
Theorem window_keeps_most_recent {T : Type} (i d : timedelta) (cb : bool)
    (samples : list T) :
  0 < i -> i <= d -> d < 2 ^ 51 ->
  exists s : IntervalSampler.t T,
    IntervalSampler.__init__ i d cb = Ok s
    /\ IntervalSampler._size s = IntervalSampler.capacity i d
    /\ d / i - 1 <= IntervalSampler._size s <= d / i
    /\ (d mod i <> 0 -> IntervalSampler._size s = d / i)
    /\ 1 <= IntervalSampler._size s
    /\ (let w := IntervalSampler._data
                   (IntervalSampler.store_all (IntervalSampler.start s)
                      samples) in
        w = last_n (Z.to_nat (IntervalSampler._size s)) samples
        /\ Z.of_nat (length w) <= IntervalSampler._size s
        /\ exists evicted, samples = evicted ++ w)
    /\ (forall (oldest : T) (recent : list T),
          Z.of_nat (length recent) = IntervalSampler._size s ->
          IntervalSampler._data
            (IntervalSampler.store_all (IntervalSampler.start s)
               (oldest :: recent)) = recent).
Proof.
  intros Hi Hd Hbig. eexists.
  split; [apply IntervalSamplerFacts.init_ok; lia|].
  cbn [IntervalSampler._size].
  destruct (CapacityFacts.capacity_bounds i d Hi ltac:(lia))
    as (Hb & Hexact & _).
  pose proof (CapacityFacts.capacity_positive i d Hi Hd) as H1.
  set (c := IntervalSampler.capacity i d) in *.
  split; [reflexivity|]. split; [exact Hb|]. split; [exact Hexact|].
  split; [exact H1|].
  assert (Hall : forall xs : list T,
    IntervalSampler._data
      (IntervalSampler.store_all
         (IntervalSampler.start
            (IntervalSampler.Make (float_seconds i) c cb [])) xs)
    = last_n (Z.to_nat c) xs).
  { intros xs. rewrite IntervalSamplerFacts.store_all_data; simpl;
      [reflexivity|exact H1|lia]. }
  split.
  - cbv zeta. rewrite Hall. split; [reflexivity|]. split.
    + rewrite IntervalSamplerFacts.last_n_length. lia.
    + exists (take (length samples - Z.to_nat c) samples).
      unfold last_n. symmetry. apply take_drop.
  - intros oldest recent Hlen. rewrite Hall. unfold last_n. simpl length.
    replace (S (length recent) - Z.to_nat c)%nat with 1%nat by lia.
    reflexivity.
Qed.

Lemma window_keeps_most_recent_witness :
  exists s : IntervalSampler.t Z,
    IntervalSampler.__init__ (seconds 2) (seconds 7) true = Ok s
    /\ IntervalSampler._size s = 3
    /\ IntervalSampler._data
         (IntervalSampler.store_all (IntervalSampler.start s) [1; 2; 3; 4])
       = [2; 3; 4].
Proof.
  destruct (@window_keeps_most_recent Z (seconds 2) (seconds 7) true
              [1; 2; 3; 4])
    as (s & Hs & _ & _ & Hsize & _ & (Hw & _) & _).
  - reflexivity.
  - discriminate.
  - reflexivity.
  - exists s. split; [exact Hs|].
    assert (E : IntervalSampler._size s = 3) by (apply Hsize; discriminate).
    split; [exact E|]. rewrite Hw, E. reflexivity.
Defined.

(** The capacities of the four windows of the station: 3 hours of
    one-minute samples, 3 seconds of one-second samples, 10 minutes of
    three-second samples, 24 hours of five-minute samples. *)
Example station_capacities :
  (exists s, WeatherStation.air_sampler = Ok s
             /\ IntervalSampler._size s = 180)
  /\ (exists s, WeatherStation.wind_direction_sampler = Ok s
                /\ IntervalSampler._size (WindDirectionSampler.base s) = 3)
  /\ (exists s, WeatherStation.wind_speed_sampler = Ok s
                /\ IntervalSampler._size (ButtonSampler.base s) = 200)
  /\ (exists s, WeatherStation.rain_sampler = Ok s
                /\ IntervalSampler._size (ButtonSampler.base s) = 288).
Proof.
  repeat split; eexists; (split; [vm_compute; reflexivity|reflexivity]).
Qed.

(** ** The pulse counter under interleaving *)

Module ButtonSamplerFacts.
Import ButtonSampler.

Lemma total_app (a : list Z) (x : Z) : total (a ++ [x]) = total a + x.
Proof.
  unfold total. induction a as [|y a IH]; simpl; [lia|]. rewrite IH. lia.
Qed.

Lemma gap_pulses_nonneg (sched : list step) (inside : bool) :
  0 <= gap_pulses inside sched.
Proof.
  revert inside. induction sched as [|[| |] sched IH]; intros inside; simpl;
    try apply IH; [lia|].
  specialize (IH inside). destruct inside; lia.
Qed.

Lemma books_nonneg (sched : list step) (count fresh : Z) :
  0 <= fresh <= count ->
  0 <= lost fresh sched /\ 0 <= repeated count fresh sched
  /\ 0 <= unread fresh sched.
Proof.
  revert count fresh. induction sched as [|[| |] sched IH];
    intros count fresh H; simpl.
  - lia.
  - apply IH. lia.
  - destruct (IH count 0 ltac:(lia)) as (H1 & H2 & H3). lia.
  - destruct (IH 0 0 ltac:(lia)) as (H1 & H2 & H3). lia.
Qed.

(** Every step keeps the books balanced, whatever the interleaving. *)
Lemma run_books (sched : list step) (m m' : machine) (fresh : Z) :
  run m sched = Some m' ->
  total (stored m') + unread fresh sched + lost fresh sched
  = total (stored m) + fresh + pulses sched
    + repeated (_count (sampler m)) fresh sched.
Proof.
  revert m fresh. induction sched as [|e sched IH]; intros m fresh Hrun;
    simpl in *.
  - injection Hrun as <-. lia.
  - destruct (exec m e) as [m1|] eqn:He; [|discriminate].
    destruct e; simpl in He.
    + injection He as <-. specialize (IH _ (fresh + 1) Hrun).
      simpl in IH. lia.
    + injection He as <-. specialize (IH _ 0 Hrun). simpl in IH.
      rewrite total_app in IH. lia.
    + destruct (in_sample m) as [|n]; [discriminate|].
      injection He as <-. specialize (IH _ 0 Hrun). simpl in IH. lia.
Qed.

(** A serial schedule runs, and its books are those of the gaps. *)
Lemma run_serial (sched : list step) (m : machine) :
  serial (match in_sample m with O => false | S _ => true end) sched = true ->
  (in_sample m <= 1)%nat ->
  exists m',
    run m sched = Some m'
    /\ total (stored m') + pending m'
         + gap_pulses (match in_sample m with O => false | S _ => true end)
             sched
       = total (stored m) + pending m + pulses sched.
Proof.
  revert m. induction sched as [|e sched IH]; intros m Hs Hin; simpl in *.
  - exists m. split; [reflexivity|lia].
  - destruct e; simpl.
    + destruct (IH {| sampler := _tick (sampler m);
                      in_sample := in_sample m; stored := stored m |})
        as (m' & Hrun & Hb); [exact Hs|exact Hin|].
      exists m'. split; [exact Hrun|].
      unfold pending in *. simpl in *. destruct (in_sample m); lia.
    + destruct (in_sample m) as [|n] eqn:Ein; [|discriminate Hs].
      simpl in Hs.
      destruct (IH {| sampler := fst (_sample_store (sampler m));
                      in_sample := 1; stored := stored m
                                                ++ [_count (sampler m)] |})
        as (m' & Hrun & Hb); [exact Hs|simpl; lia|].
      exists m'. split; [exact Hrun|].
      unfold pending in *. simpl in *. rewrite Ein.
      rewrite total_app in Hb. lia.
    + destruct (in_sample m) as [|[|n]] eqn:Ein;
        [discriminate Hs| |simpl in Hin; lia].
      simpl in Hs.
      destruct (IH {| sampler := _sample_reset (sampler m);
                      in_sample := 0; stored := stored m |})
        as (m' & Hrun & Hb); [exact Hs|simpl; lia|].
      exists m'. split; [exact Hrun|].
      unfold pending in *. simpl in *. rewrite Ein. lia.
Qed.

Lemma serial_not_repeated (sched : list step) (inside : bool)
    (count fresh : Z) :
  serial inside sched = true -> (inside = false -> fresh = count) ->
  repeated count fresh sched = 0.
Proof.
  revert inside count fresh. induction sched as [|e sched IH];
    intros inside count fresh Hs Hf; simpl in *; [reflexivity|].
  destruct e.
  - apply (IH inside); [exact Hs|]. intros E. rewrite (Hf E). reflexivity.
  - destruct inside; [discriminate Hs|]. simpl in Hs.
    rewrite (Hf eq_refl), (IH true count 0 Hs) by discriminate. lia.
  - destruct inside; [|discriminate Hs]. simpl in Hs.
    apply (IH false); [exact Hs|reflexivity].
Qed.

Lemma run_feasible (sched : list step) (m : machine) :
  feasible (in_sample m) sched = true -> exists m', run m sched = Some m'.
Proof.
  revert m. induction sched as [|e sched IH]; intros m Hf; simpl in *.
  - exists m. reflexivity.
  - destruct e; simpl.
    + apply IH. exact Hf.
    + apply IH. exact Hf.
    + destruct (in_sample m) as [|n] eqn:E; [discriminate Hf|].
      apply IH. exact Hf.
Qed.

End ButtonSamplerFacts.


(** An event can also be counted twice.  The timer starts a thread per
    tick and joins none; when a second sampler thread reads the counter
    before the first has reset it, the one pulse delivered is stored by
    both. *)
Example pulse_stored_twice_by_overlapping_threads :
  exists (b : ButtonSampler.t) (m : ButtonSampler.machine),
    WeatherStation.rain_sampler = Ok b
    /\ ButtonSampler.run (ButtonSampler.boot b)
         [ButtonSampler.Pulse; ButtonSampler.Line85; ButtonSampler.Line85;
          ButtonSampler.Line86; ButtonSampler.Line86]
       = Some m
    /\ ButtonSampler.stored m = [1; 1]
    /\ ButtonSampler.pulses
         [ButtonSampler.Pulse; ButtonSampler.Line85; ButtonSampler.Line85;
          ButtonSampler.Line86; ButtonSampler.Line86]
       = 1
    /\ ButtonSampler.total (ButtonSampler.stored m) = 2.
Proof.
  eexists. eexists. split; [vm_compute; reflexivity|].
  split; [vm_compute; reflexivity|].
  repeat split; reflexivity.
Qed.



(** ** Wind-direction classification *)

Module WindDirectionFacts.
Import WindDirectionSampler.

Lemma first_match_find (items : list (Q * Q)) (value : Q) :
  first_match items value =
  option_map fst (List.find (fun e => Qle_bool value e.2) items).
Proof.
  induction items as [|[a t] items IH]; simpl; [reflexivity|].
  destruct (Qle_bool value t); [reflexivity|exact IH].
Qed.

(** The catch-all: a last threshold at or above the value makes [degree]
    return an angle. *)
Lemma first_match_last (items : list (Q * Q)) (value angle threshold : Q) :
  last items = Some (angle, threshold) ->
  Qle_bool value threshold = true ->
  first_match items value <> None.
Proof.
  induction items as [|[a t] items IH]; intros Hlast Hle; [discriminate|].
  simpl. destruct (Qle_bool value t) eqn:E; [discriminate|].
  apply IH; [|exact Hle].
  destruct items as [|e items].
  - simpl in Hlast. injection Hlast as -> ->. congruence.
  - exact Hlast.
Qed.

End WindDirectionFacts.

(** C9: with the pull-up of 4700 ohm the station's wind-direction sampler
    is constructed; its thresholds are the midpoints of consecutive ratios
    [r / (r + resistance)] in table order, and 1 for the last entry; the
    table is sorted by decreasing resistance; [degree] returns the angle of
    the first entry, in table order, whose threshold is at least the sampled
    ratio; the ratio of every table entry classifies to the angle of that
    entry, and a ratio of 1 classifies to the last angle, 112.5. *)
Theorem wind_direction_classification :
  exists w : WindDirectionSampler.t,
    WeatherStation.wind_direction_sampler = Ok w
    /\ WindDirectionSampler._thresholds_by_angle w
       = spec_thresholds 4700 WindDirectionSampler.RESISTANCE_BY_ANGLE
    /\ length WindDirectionSampler.RESISTANCE_BY_ANGLE = 16%nat
    /\ (forall i a b, 
          map snd WindDirectionSampler.RESISTANCE_BY_ANGLE !! i = Some a ->
          map snd WindDirectionSampler.RESISTANCE_BY_ANGLE !! S i = Some b ->
          (b < a)%Q)
    /\ (forall value : Q,
          WindDirectionSampler.degree w value
          = option_map fst
              (List.find (fun e => Qle_bool value e.2)
                 (WindDirectionSampler._thresholds_by_angle w)))
    /\ Forall (fun e => WindDirectionSampler.degree w (spec_ratio 4700 e.2)
                        = Some e.1)
         WindDirectionSampler.RESISTANCE_BY_ANGLE
    /\ WindDirectionSampler.degree w 1 = Some (225 # 2)%Q
    /\ last (map fst WindDirectionSampler.RESISTANCE_BY_ANGLE)
       = Some (225 # 2)%Q.
Proof.
  eexists. split; [vm_compute; reflexivity|].
  split; [vm_compute; reflexivity|].
  split; [reflexivity|].
  split.
  { intros i a b Ha Hb.
    do 16 (destruct i as [|i];
      [vm_compute in Ha, Hb;
       first [discriminate Hb
             | injection Ha as <-; injection Hb as <-; reflexivity]|]).
    destruct i; discriminate Hb. }
  split; [intros value; apply WindDirectionFacts.first_match_find|].
  split; [|split; vm_compute; reflexivity].
  unfold WindDirectionSampler.RESISTANCE_BY_ANGLE.
  repeat (apply Forall_cons; split; [vm_compute; reflexivity|]).
  apply Forall_nil. exact I.
Qed.

(** Every ADC reading up to 1 is classified by the station's sampler. *)
Lemma degree_defined (value : Q) :
  (value <= 1)%Q ->
  exists (w : WindDirectionSampler.t) (angle : Q),
    WeatherStation.wind_direction_sampler = Ok w
    /\ WindDirectionSampler.degree w value = Some angle.
Proof.
  intros Hv.
  destruct WeatherStation.wind_direction_sampler as [w|e] eqn:Ew;
    [|vm_compute in Ew; discriminate Ew].
  exists w.
  destruct (WindDirectionSampler.degree w value) as [angle|] eqn:Ed.
  - exists angle. split; reflexivity.
  - exfalso. vm_compute in Ew. injection Ew as <-.
    revert Ed. apply (WindDirectionFacts.first_match_last _ value (225 # 2) 1).
    + reflexivity.
    + apply Qle_bool_iff. exact Hv.
Qed.


(** ** The listener: forwarding and the observation clock *)

Module ListenerFacts.
Import mqtt.

Section Facts.
Context {V : Type} (value_eqb : V -> V -> bool).

Local Abbreviation reading := (SensorReading.t V).

Lemma topic_inj (k k' : string) : "ws/" +:+ k = "ws/" +:+ k' -> k = k'.
Proof. simpl. intros H. injection H as H. exact H. Qed.

Lemma times_forwarded_app (key : string) (a b : list (@message V)) :
  times_forwarded key (a ++ b)
  = (times_forwarded key a + times_forwarded key b)%nat.
Proof.
  unfold times_forwarded. rewrite List.filter_app, length_app. reflexivity.
Qed.

Lemma readings_forwarded_app (a b : list (@message V)) :
  readings_forwarded (a ++ b)
  = (readings_forwarded a + readings_forwarded b)%nat.
Proof.
  unfold readings_forwarded. rewrite List.filter_app, length_app.
  reflexivity.
Qed.

Lemma forward_own (key : string) (g : @globals V) :
  times_forwarded key (forward key g).2 = 1%nat.
Proof.
  unfold forward, times_forwarded.
  destruct (timestamp g); cbn -[String.eqb String.append];
    rewrite String.eqb_refl; reflexivity.
Qed.

Lemma forward_other (key k : string) (g : @globals V) :
  k <> key -> times_forwarded key (forward k g).2 = 0%nat.
Proof.
  intros Hne. unfold forward, times_forwarded.
  assert (E : String.eqb ("ws/" +:+ k) ("ws/" +:+ key) = false).
  { apply String.eqb_neq. intros H. apply Hne, topic_inj, H. }
  destruct (timestamp g); cbn -[String.eqb String.append]; rewrite E;
    reflexivity.
Qed.

Lemma forward_data (k : string) (g : @globals V) :
  data (forward k g).1 = data g.
Proof. unfold forward. destruct (timestamp g); reflexivity. Qed.

Lemma forward_count (k : string) (g : @globals V) :
  readings_forwarded (forward k g).2 = 1%nat.
Proof. unfold forward. destruct (timestamp g); reflexivity. Qed.

Lemma forward_clock (k : string) (g : @globals V) :
  timestamp (forward k g).1 = (fun t => t + seconds 1) <$> timestamp g.
Proof.
  unfold forward. destruct (timestamp g) eqn:E; simpl; rewrite ?E; reflexivity.
Qed.

Lemma body_own (g : @globals V) (key : string) (r : reading) :
  times_forwarded key (listener_body value_eqb g key r).2
  = if unchanged value_eqb g key r then 0%nat else 1%nat.
Proof.
  unfold listener_body, unchanged.
  destruct (data g !! key) as [known|]; [|apply forward_own].
  destruct (SensorReading.value known) as [v|]; [|apply forward_own].
  destruct (same_value value_eqb (SensorReading.value r) v);
    [reflexivity|apply forward_own].
Qed.

Lemma body_other (g : @globals V) (key k : string) (r : reading) :
  k <> key ->
  times_forwarded key (listener_body value_eqb g k r).2 = 0%nat
  /\ data (listener_body value_eqb g k r).1 !! key = data g !! key.
Proof.
  intros Hne. unfold listener_body.
  destruct (data g !! k) as [known|].
  - destruct (SensorReading.value known) as [v|].
    + destruct (same_value value_eqb (SensorReading.value r) v).
      * split; reflexivity.
      * rewrite forward_other, forward_data by exact Hne. simpl.
        rewrite lookup_insert_ne by exact Hne. split; reflexivity.
    + rewrite forward_other, forward_data by exact Hne. split; reflexivity.
  - rewrite forward_other, forward_data by exact Hne. simpl.
    rewrite lookup_insert_ne by exact Hne. split; reflexivity.
Qed.

Lemma listener_cons (g : @globals V) (k : string) (r : reading)
    (rest : list (string * reading)) :
  listener value_eqb g ((k, r) :: rest)
  = ((listener value_eqb (listener_body value_eqb g k r).1 rest).1,
     (listener_body value_eqb g k r).2
     ++ (listener value_eqb (listener_body value_eqb g k r).1 rest).2).
Proof.
  simpl. destruct (listener_body value_eqb g k r) as [g1 out1]. simpl.
  destruct (listener value_eqb g1 rest) as [g2 out2]. reflexivity.
Qed.

Lemma listener_absent (key : string) (rs : list (string * reading))
    (g : @globals V) :
  key ∉ map fst rs ->
  times_forwarded key (listener value_eqb g rs).2 = 0%nat.
Proof.
  revert g. induction rs as [|[k r] rs IH]; intros g Hnot; [reflexivity|].
  rewrite listener_cons. simpl snd. rewrite times_forwarded_app.
  simpl in Hnot. apply not_elem_of_cons in Hnot as [Hne Hrest].
  rewrite (proj1 (body_other g key k r (not_eq_sym Hne))).
  rewrite IH by exact Hrest. reflexivity.
Qed.

Lemma listener_data_absent (rs : list (string * reading)) (g : @globals V)
    (key : string) :
  key ∉ map fst rs ->
  data (listener value_eqb g rs).1 !! key = data g !! key.
Proof.
  revert g. induction rs as [|[k r] rs IH]; intros g Hnot; [reflexivity|].
  rewrite listener_cons. simpl fst.
  simpl in Hnot. apply not_elem_of_cons in Hnot as [Hne Hrest].
  rewrite IH by exact Hrest.
  apply (body_other g key k r (not_eq_sym Hne)).
Qed.

Lemma not_forwarded (key : string) (out : list (@message V)) :
  times_forwarded key out = 0%nat -> List.filter (forwards key) out = [].
Proof. unfold times_forwarded. apply length_zero_iff_nil. Qed.

(** The message of [forward] for its key carries the value held. *)
Lemma forward_message (key : string) (g : @globals V) :
  List.filter (forwards key) (forward key g).2
  = [Publish ("ws/" +:+ key) (Value (stored_value (forward key g).1 key))].
Proof.
  unfold stored_value. rewrite forward_data. unfold forward.
  destruct (timestamp g); cbn -[String.eqb String.append];
    unfold forwards; cbn -[String.eqb String.append];
    rewrite String.eqb_refl; reflexivity.
Qed.

Lemma body_message (g : @globals V) (key : string) (r : reading) :
  List.filter (forwards key) (listener_body value_eqb g key r).2
  = if unchanged value_eqb g key r then []
    else [Publish ("ws/" +:+ key)
            (Value (stored_value (listener_body value_eqb g key r).1 key))].
Proof.
  unfold listener_body, unchanged.
  destruct (data g !! key) as [known|]; [|apply forward_message].
  destruct (SensorReading.value known) as [v|]; [|apply forward_message].
  destruct (same_value value_eqb (SensorReading.value r) v);
    [reflexivity|apply forward_message].
Qed.

(** The value held for [key] after an iteration on [key] that forwards. *)
Lemma body_value (g : @globals V) (key : string) (r : reading) :
  unchanged value_eqb g key r = false ->
  stored_value (listener_body value_eqb g key r).1 key
  = match data g !! key with
    | Some known =>
        match SensorReading.value known with
        | Some _ => SensorReading.value r
        | None => None
        end
    | None => SensorReading.value r
    end.
Proof.
  unfold listener_body, unchanged, stored_value.
  destruct (data g !! key) as [known|] eqn:E.
  - destruct (SensorReading.value known) as [v|] eqn:Ev.
    + intros ->. rewrite forward_data. simpl.
      rewrite lookup_insert_eq. reflexivity.
    + intros _. rewrite forward_data, E. simpl. exact Ev.
  - intros _. rewrite forward_data. simpl.
    rewrite lookup_insert_eq. reflexivity.
Qed.

Lemma listener_message (rs : list (string * reading)) (g : @globals V)
    (key : string) (r : reading) :
  NoDup (map fst rs) -> (key, r) ∈ rs ->
  List.filter (forwards key) (listener value_eqb g rs).2
  = (if unchanged value_eqb g key r then []
     else [Publish ("ws/" +:+ key)
             (Value (stored_value (listener value_eqb g rs).1 key))])
  /\ (unchanged value_eqb g key r = false ->
      stored_value (listener value_eqb g rs).1 key
      = match data g !! key with
        | Some known =>
            match SensorReading.value known with
            | Some _ => SensorReading.value r
            | None => None
            end
        | None => SensorReading.value r
        end).
Proof.
  revert g. induction rs as [|[k r0] rs IH]; intros g Hnd Hin.
  - apply elem_of_nil in Hin. contradiction.
  - simpl in Hnd. apply NoDup_cons in Hnd as [Hk Hnd].
    rewrite listener_cons. simpl fst. simpl snd. rewrite List.filter_app.
    apply elem_of_cons in Hin as [Heq|Hin].
    + injection Heq as -> ->.
      rewrite (not_forwarded _ _ (listener_absent k rs _ Hk)), app_nil_r.
      assert (Es : stored_value
                     (listener value_eqb (listener_body value_eqb g k r0).1
                        rs).1 k
                   = stored_value (listener_body value_eqb g k r0).1 k).
      { unfold stored_value. rewrite listener_data_absent by exact Hk.
        reflexivity. }
      rewrite Es. split; [apply body_message|apply body_value].
    + assert (Hne : k <> key).
      { intros ->. apply Hk. apply list_elem_of_fmap. exists (key, r).
        split; [reflexivity|exact Hin]. }
      destruct (body_other g key k r0 Hne) as [H0 Hd].
      rewrite (not_forwarded _ _ H0). cbn [app].
      destruct (IH (listener_body value_eqb g k r0).1 Hnd Hin) as [I1 I2].
      unfold unchanged in *. rewrite Hd in I1, I2. split; assumption.
Qed.

Lemma listener_forwards (rs : list (string * reading)) (g : @globals V)
    (key : string) (r : reading) :
  NoDup (map fst rs) -> (key, r) ∈ rs ->
  times_forwarded key (listener value_eqb g rs).2
  = if unchanged value_eqb g key r then 0%nat else 1%nat.
Proof.
  revert g. induction rs as [|[k r0] rs IH]; intros g Hnd Hin.
  - apply elem_of_nil in Hin. contradiction.
  - simpl in Hnd. apply NoDup_cons in Hnd as [Hk Hnd].
    rewrite listener_cons. simpl snd. rewrite times_forwarded_app.
    apply elem_of_cons in Hin as [Heq|Hin].
    + injection Heq as -> ->.
      rewrite body_own, listener_absent by exact Hk. lia.
    + assert (Hne : k <> key).
      { intros ->. apply Hk. apply list_elem_of_fmap. exists (key, r).
        split; [reflexivity|exact Hin]. }
      destruct (body_other g key k r0 Hne) as [H0 Hd].
      rewrite H0, (IH _ Hnd Hin). unfold unchanged. rewrite Hd. reflexivity.
Qed.

End Facts.
End ListenerFacts.

Module ClockFacts.
Import mqtt.

Section Facts.
Context {V : Type} (value_eqb : V -> V -> bool).

Local Abbreviation reading := (SensorReading.t V).

Lemma clock_le_refl (a : option Z) : clock_le a a.
Proof. destruct a; simpl; [lia|exact I]. Qed.

Lemma clock_le_trans (a b c : option Z) :
  clock_le a b -> clock_le b c -> clock_le a c.
Proof. destruct a, b, c; simpl; try tauto; lia. Qed.

Lemma catch_up_le (t : option Z) (ts : Z) : clock_le t (catch_up t ts).
Proof.
  destruct t as [t0|]; simpl; [|exact I].
  destruct (Z.ltb_spec t0 ts); simpl; lia.
Qed.

Lemma forward_le (k : string) (g : @globals V) :
  clock_le (timestamp g) (timestamp (forward k g).1).
Proof.
  rewrite ListenerFacts.forward_clock.
  destruct (timestamp g); simpl; [unfold seconds; lia|exact I].
Qed.

Lemma body_le (g : @globals V) (k : string) (r : reading) :
  clock_le (timestamp g) (timestamp (listener_body value_eqb g k r).1).
Proof.
  unfold listener_body.
  destruct (data g !! k) as [known|].
  - destruct (SensorReading.value known) as [v|]; [|apply forward_le].
    destruct (same_value value_eqb (SensorReading.value r) v).
    + apply catch_up_le.
    + eapply clock_le_trans; [|apply forward_le]. apply catch_up_le.
  - apply (forward_le k {| data := _; timestamp := timestamp g |}).
Qed.

Lemma listener_le (rs : list (string * reading)) (g : @globals V) :
  clock_le (timestamp g) (timestamp (listener value_eqb g rs).1).
Proof.
  revert g. induction rs as [|[k r] rs IH]; intros g.
  - apply clock_le_refl.
  - rewrite ListenerFacts.listener_cons. simpl fst.
    eapply clock_le_trans; [apply body_le|apply IH].
Qed.

Lemma listen_all_le (bs : list (list (string * reading))) (g : @globals V) :
  clock_le (timestamp g) (timestamp (listen_all value_eqb g bs).1).
Proof.
  revert g. induction bs as [|b bs IH]; intros g.
  - apply clock_le_refl.
  - simpl. pose proof (listener_le b g) as H1.
    destruct (listener value_eqb g b) as [g1 out1]. specialize (IH g1).
    destruct (listen_all value_eqb g1 bs) as [g2 out2]. simpl in *.
    eapply clock_le_trans; eassumption.
Qed.

Lemma body_steps (g : @globals V) (k : string) (r : reading) (t : Z) :
  timestamp g = Some t -> SensorReading.timestamp r <= t ->
  timestamp (listener_body value_eqb g k r).1
  = Some (t + seconds (Z.of_nat
       (readings_forwarded (listener_body value_eqb g k r).2))).
Proof.
  intros Ht Hr. unfold listener_body.
  assert (Hc : catch_up (timestamp g) (SensorReading.timestamp r) = Some t).
  { rewrite Ht. simpl. destruct (Z.ltb_spec t (SensorReading.timestamp r));
      [lia|reflexivity]. }
  destruct (data g !! k) as [known|].
  - destruct (SensorReading.value known) as [v|].
    + destruct (same_value value_eqb (SensorReading.value r) v).
      * simpl. rewrite Hc. apply (f_equal Some).
        unfold readings_forwarded, seconds. simpl. lia.
      * rewrite ListenerFacts.forward_clock, ListenerFacts.forward_count.
        simpl. rewrite Hc. reflexivity.
    + rewrite ListenerFacts.forward_clock, ListenerFacts.forward_count.
      rewrite Ht. reflexivity.
  - rewrite ListenerFacts.forward_clock, ListenerFacts.forward_count.
    simpl. rewrite Ht. reflexivity.
Qed.

Lemma listener_steps (rs : list (string * reading)) (g : @globals V)
    (t : Z) :
  timestamp g = Some t ->
  Forall (fun kr => SensorReading.timestamp kr.2 <= t) rs ->
  timestamp (listener value_eqb g rs).1
  = Some (t + seconds (Z.of_nat
       (readings_forwarded (listener value_eqb g rs).2))).
Proof.
  revert g t. induction rs as [|[k r] rs IH]; intros g t Ht Hall.
  - simpl. rewrite Ht. apply (f_equal Some).
    unfold readings_forwarded, seconds. simpl. lia.
  - apply Forall_cons in Hall as [Hr Hall]. simpl in Hr.
    rewrite ListenerFacts.listener_cons. simpl fst. simpl snd.
    rewrite ListenerFacts.readings_forwarded_app.
    pose proof (body_steps g k r t Ht Hr) as Hb.
    rewrite (IH _ _ Hb).
    + apply (f_equal Some). unfold seconds. lia.
    + eapply Forall_impl; [exact Hall|]. intros kr H. simpl in *.
      unfold seconds. lia.
Qed.

End Facts.
End ClockFacts.

(** C2, as stated, fails: a batch that repeats the value last forwarded
    for a known key forwards nothing for that key. *)
Lemma unchanged_value_is_not_forwarded :
  let first := mqtt.listener Z.eqb mqtt.initial
                 [("humidity"%string, reading_at 50 0)] in
  let second := mqtt.listener Z.eqb first.1
                  [("humidity"%string, reading_at 50 (seconds 60))] in
  mqtt.times_forwarded "humidity" first.2 = 1%nat
  /\ mqtt.times_forwarded "humidity" second.2 = 0%nat
  /\ second.2 = [].
Proof. vm_compute. repeat split; reflexivity. Qed.

(** C2 (amended): for every batch, every key of the batch is forwarded at
    most once: not at all when the key is known, its stored value is not
    [None] and the incoming value equals it, and exactly once otherwise.
    The one message then sent for the key is on topic [ws/<key>] and
    carries the value the listener holds for the key after the batch: the
    incoming value, or [None] when the value it held was [None]. *)
Theorem every_changed_key_forwarded_once {V : Type}
    (value_eqb : V -> V -> bool) (g : mqtt.globals)
    (readings : list (string * SensorReading.t V)) (key : string)
    (reading : SensorReading.t V) :
  NoDup (map fst readings) -> (key, reading) ∈ readings ->
  mqtt.times_forwarded key (mqtt.listener value_eqb g readings).2
  = (if mqtt.unchanged value_eqb g key reading then 0%nat else 1%nat)
  /\ List.filter (mqtt.forwards key) (mqtt.listener value_eqb g readings).2
     = (if mqtt.unchanged value_eqb g key reading then []
        else [mqtt.Publish ("ws/" +:+ key)
                (mqtt.Value
                   (mqtt.stored_value
                      (mqtt.listener value_eqb g readings).1 key))])
  /\ (mqtt.unchanged value_eqb g key reading = false ->
      mqtt.stored_value (mqtt.listener value_eqb g readings).1 key
      = match mqtt.data g !! key with
        | Some known =>
            match SensorReading.value known with
            | Some _ => SensorReading.value reading
            | None => None
            end
        | None => SensorReading.value reading
        end).
Proof.
  intros Hnd Hin.
  split; [apply ListenerFacts.listener_forwards; assumption|].
  apply ListenerFacts.listener_message; assumption.
Qed.

Lemma every_changed_key_forwarded_once_witness :
  List.filter (mqtt.forwards "rain_1h")
    (mqtt.listener Z.eqb mqtt.initial
       [("rain_1h"%string, reading_at 3 0);
        ("rain_6h"%string, reading_at 5 0)]).2
  = [mqtt.Publish "ws/rain_1h" (mqtt.Value (Some 3))].
Proof.
  apply (every_changed_key_forwarded_once Z.eqb mqtt.initial
           [("rain_1h"%string, reading_at 3 0);
            ("rain_6h"%string, reading_at 5 0)] "rain_1h" (reading_at 3 0)).
  - apply (bool_decide_unpack _). vm_compute. exact I.
  - apply elem_of_cons. left. reflexivity.
Defined.

(** C4, as stated, fails: one batch with two new keys steps the clock by
    two seconds. *)
Lemma clock_steps_once_per_forwarded_key :
  let before := (mqtt.listen_all Z.eqb mqtt.initial
                   [[("a"%string, reading_at 1 0)];
                    [("a"%string, reading_at 2 (seconds 10))]]).1 in
  let after := (mqtt.listener Z.eqb before
                  [("b"%string, reading_at 1 (seconds 5));
                   ("c"%string, reading_at 1 (seconds 5))]).1 in
  mqtt.timestamp before = Some (seconds 11)
  /\ mqtt.timestamp after = Some (seconds 13).
Proof. vm_compute. split; reflexivity. Qed.

(** C4 (amended): across every sequence of batches the clock never
    decreases (unset, then set, then non-decreasing); within a batch it
    advances by exactly one second per forwarded key, not per batch: when
    the clock is set and no incoming timestamp is later than it, its value
    after the batch is its value before plus one second for every reading
    forwarded. *)
Theorem clock_never_decreases_and_steps_per_key {V : Type}
    (value_eqb : V -> V -> bool) (g : mqtt.globals) :
  (forall batches : list (list (string * SensorReading.t V)),
     mqtt.clock_le (mqtt.timestamp g)
       (mqtt.timestamp (mqtt.listen_all value_eqb g batches).1))
  /\ (forall (readings : list (string * SensorReading.t V)) (t : Z),
        mqtt.timestamp g = Some t ->
        Forall (fun kr => SensorReading.timestamp kr.2 <= t) readings ->
        mqtt.timestamp (mqtt.listener value_eqb g readings).1
        = Some (t + seconds (Z.of_nat
             (mqtt.readings_forwarded
                (mqtt.listener value_eqb g readings).2)))).
Proof.
  split.
  - intros batches. apply ClockFacts.listen_all_le.
  - intros readings t Ht Hall. apply ClockFacts.listener_steps; assumption.
Qed.

Lemma clock_never_decreases_and_steps_per_key_witness :
  let g := {| mqtt.data := ∅; mqtt.timestamp := Some (seconds 11) |} in
  let batch := [("b"%string, reading_at 1 (seconds 5));
                ("c"%string, reading_at 1 (seconds 5))] in
  mqtt.timestamp (mqtt.listener Z.eqb g batch).1
  = Some (seconds 11 + seconds (Z.of_nat
       (mqtt.readings_forwarded (mqtt.listener Z.eqb g batch).2))).
Proof.
  intros g batch.
  apply (proj2 (clock_never_decreases_and_steps_per_key Z.eqb g) batch
           (seconds 11)).
  - reflexivity.
  - repeat constructor; vm_compute; discriminate.
Defined.

(** ** The circular mean *)

Module CircularMeanFacts.
Import WeatherStation.
Local Open Scope R_scope.

Lemma sums_from (angles : list R) (a b : R) :
  fold_left
    (fun acc angle =>
       let r := math.radians angle in (acc.1 + sin r, acc.2 + cos r))
    angles (a, b)
  = (a + sum_R (map (fun x => sin (math.radians x)) angles),
     b + sum_R (map (fun x => cos (math.radians x)) angles)).
Proof.
  revert a b. induction angles as [|x l IH]; intros a b; simpl.
  - f_equal; lra.
  - rewrite IH. f_equal; lra.
Qed.

Lemma sin_cos_sums_eq (angles : list R) :
  sin_cos_sums angles
  = (sum_R (map (fun x => sin (math.radians x)) angles),
     sum_R (map (fun x => cos (math.radians x)) angles)).
Proof. unfold sin_cos_sums. rewrite sums_from. f_equal; lra. Qed.

Lemma length_pos (angles : list R) : angles <> [] -> 0 < INR (length angles).
Proof.
  intros H. destruct angles as [|x l]; [contradiction|].
  apply lt_0_INR. simpl. lia.
Qed.

Lemma average_angles_nonempty (angles : list R) :
  angles <> [] ->
  average_angles angles = Ok (selected (mean_sin angles) (mean_cos angles)).
Proof.
  intros Hne. pose proof (length_pos angles Hne) as Hlen.
  assert (F : forall x, fdiv x (INR (length angles))
                       = Ok (x / INR (length angles))).
  { intros x. unfold fdiv.
    destruct (Req_dec_T (INR (length angles)) 0); [lra|reflexivity]. }
  unfold average_angles. rewrite sin_cos_sums_eq. simpl fst. simpl snd.
  rewrite !F. unfold mbind, result_bind. cbn [bind].
  fold (mean_sin angles). fold (mean_cos angles).
  unfold selected, arc_of, fdiv.
  destruct (Req_dec_T (mean_cos angles) 0); reflexivity.
Qed.

Lemma average_angles_empty : average_angles [] = Raise ZeroDivisionError.
Proof.
  unfold average_angles, fdiv. simpl.
  destruct (Req_dec_T 0 0) as [_|H]; [reflexivity|lra].
Qed.

Lemma degrees_atan_bounds (q : R) : -90 < math.degrees (atan q) < 90.
Proof.
  pose proof (atan_bound q) as [Hl Hu]. pose proof PI_RGT_0 as Hpi.
  unfold math.degrees.
  assert (E : forall x, x * (180 / PI) = x / PI * 180) by (intros; field; lra).
  rewrite E.
  assert (- (1/2) < atan q / PI < 1/2).
  { split.
    - apply (Rmult_lt_reg_r PI); [lra|]. unfold Rdiv at 2.
      rewrite Rmult_assoc, Rinv_l by lra. lra.
    - apply (Rmult_lt_reg_r PI); [lra|]. unfold Rdiv at 1.
      rewrite Rmult_assoc, Rinv_l by lra. lra. }
  lra.
Qed.

Lemma degrees_sign (x : R) :
  (0 < x -> 0 < math.degrees x) /\ (x < 0 -> math.degrees x < 0).
Proof.
  pose proof PI_RGT_0 as Hpi. unfold math.degrees.
  assert (0 < 180 / PI) by (apply Rdiv_lt_0_compat; lra).
  split; intros; nra.
Qed.

Lemma atan_sign (q : R) : (0 < q -> 0 < atan q) /\ (q < 0 -> atan q < 0).
Proof.
  split; intros H.
  - rewrite <- atan_0. apply atan_increasing. exact H.
  - rewrite <- atan_0. apply atan_increasing. exact H.
Qed.

Lemma selected_cases (s c : R) :
  0 <= selected s c < 360
  /\ (0 < s -> 0 <= c -> selected s c = arc_of s c)
  /\ (c <= 0 -> ~ (0 < s /\ c = 0) -> selected s c = arc_of s c + 180)
  /\ (0 < c -> s < 0 -> selected s c = arc_of s c + 360)
  /\ (0 < c -> s = 0 -> selected s c = 0 /\ arc_of s c = 0).
Proof.
  unfold selected, arc_of, ltb, leb, eqb.
  destruct (Req_dec_T c 0) as [Ec|Ec].
  - subst c.
    destruct (Rlt_dec 0 s), (Rle_dec 0 0), (Rle_dec 0 0), (Rlt_dec s 0),
      (Rlt_dec 0 0); simpl; try lra;
      repeat match goal with
             | |- context [Req_dec_T ?a ?b] => destruct (Req_dec_T a b)
             end; try lra; repeat split; intros; try lra; tauto.
  - pose proof (degrees_atan_bounds (s / c)) as Hb.
    pose proof (atan_sign (s / c)) as [Hp Hn].
    pose proof (degrees_sign (atan (s / c))) as [Dp Dn].
    assert (Hq1 : 0 < c -> 0 < s -> 0 < s / c)
      by (intros; apply Rdiv_lt_0_compat; lra).
    assert (Hq2 : 0 < c -> s < 0 -> s / c < 0).
    { intros. unfold Rdiv. assert (0 < / c) by (apply Rinv_0_lt_compat; lra).
      nra. }
    assert (Hq3 : s = 0 -> math.degrees (atan (s / c)) = 0).
    { intros ->. unfold Rdiv. rewrite Rmult_0_l, atan_0. unfold math.degrees.
      lra. }
    destruct (Rlt_dec 0 s), (Rle_dec 0 c), (Rle_dec c 0), (Rlt_dec s 0),
      (Rlt_dec 0 c); simpl; try lra;
      repeat match goal with
             | |- context [Req_dec_T ?a ?b] => destruct (Req_dec_T a b)
             end; try lra;
      repeat split; intros; try lra;
      try (specialize (Hq1 ltac:(lra) ltac:(lra)); specialize (Hp Hq1);
           specialize (Dp Hp); lra);
      try (specialize (Hq2 ltac:(lra) ltac:(lra)); specialize (Hn Hq2);
           specialize (Dn Hn); lra);
      try (rewrite Hq3 in *; lra); try tauto.
Qed.

End CircularMeanFacts.

Module TrigValues.
Local Open Scope R_scope.

Lemma radians_0 : math.radians 0 = 0.
Proof. unfold math.radians. lra. Qed.

Lemma radians_90 : math.radians 90 = PI / 2.
Proof. unfold math.radians. pose proof PI_RGT_0. field. Qed.

Lemma radians_180 : math.radians 180 = PI.
Proof. unfold math.radians. field. Qed.

Lemma radians_350 : math.radians 350 = 2 * PI - math.radians 10.
Proof. unfold math.radians. field. Qed.

Lemma sin_350 : sin (math.radians 350) = - sin (math.radians 10).
Proof.
  rewrite radians_350, sin_minus, sin_2PI, cos_2PI. lra.
Qed.

Lemma cos_350 : cos (math.radians 350) = cos (math.radians 10).
Proof.
  rewrite radians_350, cos_minus, sin_2PI, cos_2PI. lra.
Qed.

Lemma cos_10_pos : 0 < cos (math.radians 10).
Proof.
  pose proof PI_RGT_0. apply cos_gt_0; unfold math.radians; lra.
Qed.

End TrigValues.

(** C8, as stated, fails where the mean vector points straight up: for
    [[90, 0, 180]] the mean cosine is 0 and the mean sine is positive; the
    code answers 90, the case table of the claim ([c <= 0 -> arc + 180])
    answers 270. *)
Lemma circular_mean_of_vertical_vector :
  WeatherStation.average_angles [90; 0; 180]%R = Ok 90%R
  /\ spec_circular_mean [90; 0; 180]%R = 270%R
  /\ (90 <> 270)%R.
Proof.
  assert (Hs : mean_sin [90; 0; 180]%R = (1 / 3)%R).
  { unfold mean_sin. simpl.
    rewrite TrigValues.radians_0, TrigValues.radians_90,
      TrigValues.radians_180, sin_0, sin_PI2, sin_PI. lra. }
  assert (Hc : mean_cos [90; 0; 180]%R = 0%R).
  { unfold mean_cos. simpl.
    rewrite TrigValues.radians_0, TrigValues.radians_90,
      TrigValues.radians_180, cos_0, cos_PI2, cos_PI. lra. }
  split; [|split; [|lra]].
  - rewrite CircularMeanFacts.average_angles_nonempty by discriminate.
    f_equal.
    destruct (CircularMeanFacts.selected_cases (mean_sin [90; 0; 180]%R)
                (mean_cos [90; 0; 180]%R)) as (_ & H & _).
    rewrite H by (rewrite ?Hs, ?Hc; lra).
    rewrite Hc. unfold arc_of. destruct (Req_dec_T 0 0); [reflexivity|lra].
  - unfold spec_circular_mean. rewrite Hs, Hc.
    unfold arc_of, WeatherStation.ltb, WeatherStation.leb, WeatherStation.eqb.
    destruct (Req_dec_T 0 0); [|lra].
    destruct (Rlt_dec 0 0); [lra|]. simpl.
    destruct (Rle_dec 0 0); [|lra].
    destruct (Req_dec_T (90 + 180) 360); lra.
Qed.

(** C8 (amended), over the real numbers: for every non-empty list of
    angles whose mean vector is not the zero vector, with [s] the mean
    sine, [c] the mean cosine and [arc = atan(s / c)] in degrees ([arc = 90]
    when [c = 0]), [average_angles] returns [arc] when [s > 0 /\ c >= 0],
    [arc + 180] when [c <= 0] except for [s > 0 /\ c = 0], [arc + 360] when
    [c > 0 /\ s < 0], and 0 (which is [arc]) when [c > 0 /\ s = 0]; the
    result lies in [[0, 360)]; the circular mean of [[0, 90]] is 45 and that
    of [[350, 10]] is 0.  A window whose mean vector is the zero vector
    (two opposite directions) has no mean direction: there the branch the
    source takes is decided by the rounding residues of its sines and
    cosines, and the statement leaves it out. *)
Theorem circular_mean_cases :
  (forall angles : list R,
     angles <> [] ->
     (mean_sin angles <> 0 \/ mean_cos angles <> 0)%R ->
     exists v : R,
       WeatherStation.average_angles angles = Ok v
       /\ (0 <= v < 360)%R
       /\ (let s := mean_sin angles in
           let c := mean_cos angles in
           let arc := arc_of s c in
           ((0 < s)%R -> (0 <= c)%R -> v = arc)
           /\ ((c <= 0)%R -> ~ ((0 < s)%R /\ c = 0%R) -> v = (arc + 180)%R)
           /\ ((0 < c)%R -> (s < 0)%R -> v = (arc + 360)%R)
           /\ ((0 < c)%R -> s = 0%R -> v = 0%R /\ arc = 0%R)))
  /\ WeatherStation.average_angles [0; 90]%R = Ok 45%R
  /\ WeatherStation.average_angles [350; 10]%R = Ok 0%R.
Proof.
  split; [|split].
  - intros angles Hne _. eexists.
    split; [apply CircularMeanFacts.average_angles_nonempty; exact Hne|].
    pose proof (CircularMeanFacts.selected_cases (mean_sin angles)
                  (mean_cos angles)) as (Hr & H1 & H2 & H3 & H4).
    split; [exact Hr|]. cbv zeta. repeat split; try assumption;
      apply H4; assumption.
  - rewrite CircularMeanFacts.average_angles_nonempty by discriminate.
    f_equal.
    assert (Hs : mean_sin [0; 90]%R = (1 / 2)%R).
    { unfold mean_sin. simpl.
      rewrite TrigValues.radians_0, TrigValues.radians_90, sin_0, sin_PI2.
      lra. }
    assert (Hc : mean_cos [0; 90]%R = (1 / 2)%R).
    { unfold mean_cos. simpl.
      rewrite TrigValues.radians_0, TrigValues.radians_90, cos_0, cos_PI2.
      lra. }
    destruct (CircularMeanFacts.selected_cases (mean_sin [0; 90]%R)
                (mean_cos [0; 90]%R)) as (_ & H & _).
    rewrite H by (rewrite ?Hs, ?Hc; lra).
    rewrite Hs, Hc. unfold arc_of.
    destruct (Req_dec_T (1 / 2) 0) as [E|_]; [lra|].
    replace (1 / 2 / (1 / 2))%R with 1%R by lra.
    rewrite atan_1. unfold math.degrees. pose proof PI_RGT_0. field. lra.
  - rewrite CircularMeanFacts.average_angles_nonempty by discriminate.
    f_equal.
    assert (Hs : mean_sin [350; 10]%R = 0%R).
    { unfold mean_sin. simpl. rewrite TrigValues.sin_350. lra. }
    assert (Hc : (0 < mean_cos [350; 10]%R)%R).
    { unfold mean_cos. simpl. rewrite TrigValues.cos_350.
      pose proof TrigValues.cos_10_pos. lra. }
    destruct (CircularMeanFacts.selected_cases (mean_sin [350; 10]%R)
                (mean_cos [350; 10]%R)) as (_ & _ & _ & _ & H).
    apply H; assumption.
Qed.

Lemma circular_mean_cases_witness :
  exists v : R,
    WeatherStation.average_angles [90]%R = Ok v /\ (0 <= v < 360)%R.
Proof.
  destruct (proj1 circular_mean_cases [90%R]) as (v & Hv & Hr & _).
  - discriminate.
  - left. unfold mean_sin. simpl. rewrite TrigValues.radians_90, sin_PI2.
    lra.
  - exists v. split; assumption.
Defined.

Module SnapshotFacts.

Lemma slice_from_nonempty {A : Type} (n : Z) (l : list A) (x : A) :
  0 <= n -> slice_from (- n) (l ++ [x]) <> [].
Proof.
  intros Hn Hnil. apply (f_equal length) in Hnil. simpl in Hnil.
  destruct (Z.eq_dec n 0) as [->|Hne].
  - rewrite IntervalSamplerFacts.slice_from_zero, length_app in Hnil.
    simpl in Hnil. lia.
  - rewrite IntervalSamplerFacts.slice_from_neg in Hnil by lia.
    rewrite IntervalSamplerFacts.last_n_length, length_app in Hnil.
    simpl in Hnil. lia.
Qed.

Lemma floats_length (data : list (option Q)) (angles : list R) :
  WeatherStation.floats data = Ok angles -> length angles = length data.
Proof.
  revert angles. induction data as [|[q|] data IH]; intros angles H;
    simpl in H.
  - injection H as <-. reflexivity.
  - destruct (WeatherStation.floats data) as [rs|e]; simpl in H;
      [|discriminate H].
    injection H as <-. simpl. f_equal. apply IH. reflexivity.
  - discriminate H.
Qed.

Lemma floats_outcome (data : list (option Q)) :
  (exists angles, WeatherStation.floats data = Ok angles)
  \/ WeatherStation.floats data = Raise TypeError.
Proof.
  induction data as [|[q|] data IH]; simpl.
  - left. eexists. reflexivity.
  - destruct IH as [[rs Hrs]|Hrs]; rewrite Hrs; simpl.
    + left. eexists. reflexivity.
    + right. reflexivity.
  - right. reflexivity.
Qed.

End SnapshotFacts.

(** C10: [average_angles] returns a value on every non-empty list (a zero
    mean cosine takes the guarded branch) and raises [ZeroDivisionError] on
    the empty list; a wind-direction acquisition appends its sample before
    the callback is dispatched, so for every sampler with a non-negative
    capacity the snapshot handed to the callback is non-empty and the
    callback does not raise [ZeroDivisionError]; the station's
    wind-direction sampler has capacity 3 and a callback. *)
Theorem average_angles_precondition :
  (forall angles : list R,
     angles <> [] -> exists v : R, WeatherStation.average_angles angles = Ok v)
  /\ WeatherStation.average_angles [] = Raise ZeroDivisionError
  /\ (forall (w : WindDirectionSampler.t) (value : Q),
        0 <= IntervalSampler._size (WindDirectionSampler.base w) ->
        IntervalSampler._callback (WindDirectionSampler.base w) = true ->
        exists snapshot : list (option Q),
          (WindDirectionSampler._sample w value).2 = Some snapshot
          /\ snapshot <> []
          /\ forall (utcnow : Z) (station : WeatherStation.t),
               (WeatherStation._wind_direction_sample utcnow snapshot
                  station).2 <> Raise ZeroDivisionError)
  /\ (exists w0 : WindDirectionSampler.t,
        WeatherStation.wind_direction_sampler = Ok w0
        /\ IntervalSampler._size (WindDirectionSampler.base w0) = 3
        /\ IntervalSampler._callback (WindDirectionSampler.base w0) = true).
Proof.
  split; [|split; [|split]].
  - intros angles Hne. eexists.
    apply CircularMeanFacts.average_angles_nonempty. exact Hne.
  - apply CircularMeanFacts.average_angles_empty.
  - intros w value Hsize Hcb.
    unfold WindDirectionSampler._sample, IntervalSampler._store.
    rewrite Hcb. simpl. eexists. split; [reflexivity|].
    pose proof (SnapshotFacts.slice_from_nonempty
                  (IntervalSampler._size (WindDirectionSampler.base w))
                  (IntervalSampler._data (WindDirectionSampler.base w))
                  (WindDirectionSampler.degree w value) Hsize) as Hne.
    split; [exact Hne|].
    intros utcnow station.
    unfold WeatherStation._wind_direction_sample, mbind,
      WeatherStation.M_bind, WeatherStation.and_then,
      WeatherStation.update_reading, WeatherStation._publish.
    destruct (WeatherStation._readings station !! "wind_deg");
      [|simpl; discriminate].
    destruct (SnapshotFacts.floats_outcome
      (slice_from (- IntervalSampler._size (WindDirectionSampler.base w))
         (IntervalSampler._data (WindDirectionSampler.base w)
          ++ [WindDirectionSampler.degree w value])))
      as [[angles Ha]|Ha]; [|rewrite Ha; simpl; discriminate].
    rewrite Ha. cbn [result_bind bind].
    assert (Hang : angles <> []).
    { intros ->. apply SnapshotFacts.floats_length in Ha.
      apply Hne. apply length_zero_iff_nil. simpl in Ha. lia. }
    rewrite (CircularMeanFacts.average_angles_nonempty angles Hang).
    simpl. discriminate.
  - eexists. split; [vm_compute; reflexivity|]. split; reflexivity.
Qed.

Lemma average_angles_precondition_witness :
  exists v : R, WeatherStation.average_angles [0; 180]%R = Ok v.
Proof.
  apply (proj1 average_angles_precondition [0; 180]%R). discriminate.
Defined.


(** ** The batches the station emits *)

Module StationFacts.
Import WeatherStation.

Lemma init_keys (utcnow : nat -> Z) (l : bool) :
  dom (_readings (__init__ utcnow l)) = reading_keys.
Proof.
  unfold __init__, initial_readings, reading_keys. simpl.
  rewrite !dom_insert_L, dom_empty_L. set_solver.
Qed.

Lemma filter_keys (keys : gset string)
    (m : gmap string (SensorReading.t pyval)) :
  dom (filter (fun kv => kv.1 ∈ keys) m) = dom m ∩ keys.
Proof.
  apply dom_filter_L. intros k. rewrite elem_of_intersection, elem_of_dom.
  split.
  - intros [[x Hx] Hk]. exists x. split; [exact Hx|exact Hk].
  - intros (x & Hx & Hk). split; [exists x; exact Hx|exact Hk].
Qed.

Lemma update_reading_run (key : string) (v : pyval) (ts : option Z)
    (now : Z) (w : t) :
  key ∈ dom (_readings w) ->
  exists w', update_reading key (Ok (v, ts)) now w = (w', Ok tt)
    /\ dom (_readings w') = dom (_readings w)
    /\ listener w' = listener w
    /\ (SensorReading.value <$> _readings w' !! key) = Some (Some v)
    /\ forall k, k <> key -> _readings w' !! k = _readings w !! k.
Proof.
  intros Hin. apply elem_of_dom in Hin as [r Hr].
  unfold update_reading. rewrite Hr. eexists. split; [reflexivity|].
  simpl. split; [|split; [reflexivity|split]].
  - rewrite dom_insert_L. apply elem_of_dom_2 in Hr.
    apply subseteq_union_1_L, singleton_subseteq_l. exact Hr.
  - rewrite lookup_insert_eq. reflexivity.
  - intros k Hk. rewrite lookup_insert_ne by congruence. reflexivity.
Qed.

End StationFacts.

(** C3 (the code at the failing input): on a freshly constructed station
    with a listener, for every rain window, [_rain_sample] updates
    [rain_1h], [rain_6h] and [rain_24h] and emits a batch whose keys are
    [rain_1h] and [rain_6h] only: the key set passed to [_publish] names
    [rain_24], which is not a key of the store. *)
Theorem rain_batch_omits_rain_24h (utcnow now : nat -> Z) (data : list Z) :
  exists (w' : WeatherStation.t)
         (batch : gmap string (SensorReading.t WeatherStation.pyval)),
    WeatherStation._rain_sample now data (WeatherStation.__init__ utcnow true)
    = (w', Ok (Some batch))
    /\ dom batch = {[ "rain_1h"; "rain_6h" ]}
    /\ batch !! "rain_24h" = None
    /\ (SensorReading.value <$> WeatherStation._readings w' !! "rain_24h")
       = Some (Some (WeatherStation.Num
            (WeatherStation.RAIN_SCALE_FACTOR * IZR (builtins.sum data)))).
Proof.
  unfold WeatherStation._rain_sample, mbind, WeatherStation.M_bind,
    WeatherStation.and_then.
  pose proof (StationFacts.init_keys utcnow true) as H0.
  set (w0 := WeatherStation.__init__ utcnow true) in *.
  destruct (StationFacts.update_reading_run "rain_1h"
    (WeatherStation.Num (WeatherStation.RAIN_SCALE_FACTOR
       * IZR (builtins.sum (slice_from
           (- builtins.int
                (3600 / total_seconds WeatherStation.RAIN_SAMPLE_INTERVAL))
           data)))) None (now 0%nat) w0)
    as (w1 & E1 & D1 & L1 & _ & _).
  { rewrite H0. unfold reading_keys. set_solver. }
  rewrite E1.
  destruct (StationFacts.update_reading_run "rain_6h"
    (WeatherStation.Num (WeatherStation.RAIN_SCALE_FACTOR
       * IZR (builtins.sum (slice_from
           (- builtins.int (6 * 3600 / total_seconds
                     WeatherStation.RAIN_SAMPLE_INTERVAL))
           data)))) None (now 1%nat) w1)
    as (w2 & E2 & D2 & L2 & _ & _).
  { rewrite D1, H0. unfold reading_keys. set_solver. }
  rewrite E2.
  destruct (StationFacts.update_reading_run "rain_24h"
    (WeatherStation.Num
       (WeatherStation.RAIN_SCALE_FACTOR * IZR (builtins.sum data)))
    None (now 2%nat) w2)
    as (w3 & E3 & D3 & L3 & V3 & _).
  { rewrite D2, D1, H0. unfold reading_keys. set_solver. }
  rewrite E3. unfold WeatherStation._publish.
  rewrite L3, L2, L1. simpl WeatherStation.listener.
  eexists. eexists. split; [reflexivity|].
  assert (Hd : dom (filter
      (fun kv : string * SensorReading.t WeatherStation.pyval =>
         kv.1 ∈ ({[ "rain_1h"; "rain_6h"; "rain_24" ]} : gset string))
      (WeatherStation._readings w3)) = {[ "rain_1h"; "rain_6h" ]}).
  { rewrite StationFacts.filter_keys, D3, D2, D1, H0.
    apply (bool_decide_unpack _). vm_compute. exact I. }
  split; [exact Hd|]. split; [|exact V3].
  apply not_elem_of_dom. rewrite Hd.
  apply (bool_decide_unpack _). vm_compute. exact I.
Qed.


(** The sibling callbacks pass [_publish] exactly the keys they update. *)
Lemma wind_speed_batch_has_updated_keys (utcnow now : nat -> Z)
    (data : list Z) :
  data <> [] ->
  exists (w' : WeatherStation.t)
         (batch : gmap string (SensorReading.t WeatherStation.pyval)),
    WeatherStation._wind_speed_sample now data
      (WeatherStation.__init__ utcnow true)
    = (w', Ok (Some batch))
    /\ dom batch = {[ "wind_gust"; "wind_speed" ]}.
Proof.
  intros Hne. destruct data as [|x data]; [contradiction|].
  unfold WeatherStation._wind_speed_sample, mbind, WeatherStation.M_bind,
    WeatherStation.and_then.
  cbn [builtins.max result_bind bind].
  pose proof (StationFacts.init_keys utcnow true) as H0.
  set (w0 := WeatherStation.__init__ utcnow true) in *.
  set (gust := fold_left Z.max data x).
  destruct (StationFacts.update_reading_run "wind_gust"
    (WeatherStation.Num (builtins.round1
       (IZR gust * WeatherStation.WIND_SPEED_SCALE_FACTOR)))
    None (now 0%nat) w0) as (w1 & E1 & D1 & L1 & _ & _).
  { rewrite H0. unfold reading_keys. set_solver. }
  rewrite E1.
  destruct (StationFacts.update_reading_run "wind_speed"
    (WeatherStation.Num (builtins.round1
       (WeatherStation.mean (x :: data)
        * WeatherStation.WIND_SPEED_SCALE_FACTOR)))
    None (now 1%nat) w1) as (w2 & E2 & D2 & L2 & _ & _).
  { rewrite D1, H0. unfold reading_keys. set_solver. }
  rewrite E2. unfold WeatherStation._publish.
  rewrite L2, L1. simpl WeatherStation.listener.
  eexists. eexists. split; [reflexivity|].
  rewrite StationFacts.filter_keys, D2, D1, H0.
  apply (bool_decide_unpack _). vm_compute. exact I.
Qed.

Lemma wind_direction_batch_has_updated_key (utcnow : nat -> Z) (now : Z)
    (data : list (option Q)) (angles : list R) :
  WeatherStation.floats data = Ok angles -> angles <> [] ->
  exists (w' : WeatherStation.t)
         (batch : gmap string (SensorReading.t WeatherStation.pyval)),
    WeatherStation._wind_direction_sample now data
      (WeatherStation.__init__ utcnow true)
    = (w', Ok (Some batch))
    /\ dom batch = {[ "wind_deg" ]}.
Proof.
  intros Hf Hne.
  unfold WeatherStation._wind_direction_sample, mbind, WeatherStation.M_bind,
    WeatherStation.and_then.
  rewrite Hf. cbn [result_bind bind].
  rewrite (CircularMeanFacts.average_angles_nonempty angles Hne).
  unfold result_bind. cbn [bind].
  pose proof (StationFacts.init_keys utcnow true) as H0.
  set (w0 := WeatherStation.__init__ utcnow true) in *.
  destruct (StationFacts.update_reading_run "wind_deg"
    (WeatherStation.Num (IZR (builtins.round
       (selected (mean_sin angles) (mean_cos angles)))))
    None now w0) as (w1 & E1 & D1 & L1 & _ & _).
  { rewrite H0. unfold reading_keys. set_solver. }
  rewrite E1. unfold WeatherStation._publish.
  rewrite L1. simpl WeatherStation.listener.
  eexists. eexists. split; [reflexivity|].
  rewrite StationFacts.filter_keys, D1, H0.
  apply (bool_decide_unpack _). vm_compute. exact I.
Qed.

(** ** The trend *)

Module LeastSquaresFacts.
Local Open Scope R_scope.

Lemma sum_R_app (a b : list R) : sum_R (a ++ b) = sum_R a + sum_R b.
Proof.
  unfold sum_R. induction a as [|x a IH]; simpl; [lra|]. rewrite IH. lra.
Qed.

Lemma range_S (n : nat) :
  WeatherStation.range (S n) = WeatherStation.range n ++ [INR n].
Proof.
  unfold WeatherStation.range. rewrite seq_S, map_app. reflexivity.
Qed.

Lemma range_length (n : nat) : length (WeatherStation.range n) = n.
Proof.
  unfold WeatherStation.range. rewrite length_map, length_seq. reflexivity.
Qed.

Lemma dot_self_app (a b : list R) :
  dot (a ++ b) (a ++ b) = dot a a + dot b b.
Proof.
  unfold dot. induction a as [|x a IH]; simpl; [unfold sum_R; simpl; lra|].
  unfold sum_R in *. simpl. rewrite IH. lra.
Qed.

(** The sums of the abscissas [0, 1, ..., n - 1] and of their squares. *)
Lemma range_sums (n : nat) :
  2 * sum_R (WeatherStation.range n) = INR n * (INR n - 1)
  /\ 6 * dot (WeatherStation.range n) (WeatherStation.range n)
     = (INR n - 1) * INR n * (2 * INR n - 1).
Proof.
  induction n as [|n [IH1 IH2]].
  - unfold WeatherStation.range, dot, sum_R. simpl. split; lra.
  - rewrite range_S, sum_R_app, dot_self_app, S_INR.
    unfold dot at 2. unfold sum_R at 2 3. simpl. split; nra.
Qed.

Lemma range_det_pos (n : nat) :
  (2 <= n)%nat ->
  0 < INR n * dot (WeatherStation.range n) (WeatherStation.range n)
      - sum_R (WeatherStation.range n) * sum_R (WeatherStation.range n).
Proof.
  intros Hn. destruct (range_sums n) as [H1 H2].
  assert (Hn' : 2 <= INR n) by (apply (le_INR 2); exact Hn).
  set (s := sum_R (WeatherStation.range n)) in *.
  set (q := dot (WeatherStation.range n) (WeatherStation.range n)) in *.
  assert (E : 12 * (INR n * q - s * s)
              = INR n * INR n * (INR n - 1) * (INR n + 1)).
  { replace (12 * (INR n * q - s * s))
      with (2 * INR n * (6 * q) - 3 * ((2 * s) * (2 * s))) by ring.
    rewrite H1, H2. ring. }
  assert (0 < INR n * INR n * (INR n - 1) * (INR n + 1)).
  { repeat apply Rmult_lt_0_compat; lra. }
  lra.
Qed.

Lemma sse_expand (xs ys : list R) (m b : R) :
  length xs = length ys ->
  sse xs ys m b
  = dot ys ys - 2 * m * dot xs ys - 2 * b * sum_R ys
    + m * m * dot xs xs + 2 * m * b * sum_R xs
    + INR (length xs) * b * b.
Proof.
  revert ys. induction xs as [|x xs IH]; intros [|y ys] Hlen;
    try discriminate Hlen.
  - unfold sse, dot, sum_R. simpl. lra.
  - injection Hlen as Hlen. specialize (IH ys Hlen).
    unfold sse, dot, sum_R in *. cbn [zip_with fold_right length].
    rewrite S_INR, IH. ring.
Qed.

(** The closed form minimises the sum of squared residuals whenever the
    determinant of the normal equations is positive. *)
Lemma lsq_minimises (xs ys : list R) (m b : R) :
  length xs = length ys ->
  0 < INR (length xs) ->
  0 < INR (length xs) * dot xs xs - sum_R xs * sum_R xs ->
  sse xs ys (lsq_slope xs ys) (lsq_intercept xs ys) <= sse xs ys m b.
Proof.
  intros Hlen Hn Hd. rewrite !sse_expand by exact Hlen.
  assert (Hm : lsq_slope xs ys
               * (INR (length xs) * dot xs xs - sum_R xs * sum_R xs)
               = INR (length xs) * dot xs ys - sum_R xs * sum_R ys).
  { unfold lsq_slope. field. lra. }
  assert (Hb : lsq_intercept xs ys * INR (length xs)
               = sum_R ys - lsq_slope xs ys * sum_R xs).
  { unfold lsq_intercept. field. lra. }
  set (m0 := lsq_slope xs ys) in *. set (b0 := lsq_intercept xs ys) in *.
  set (n := INR (length xs)) in *. set (sx := sum_R xs) in *.
  set (sy := sum_R ys) in *. set (sxx := dot xs xs) in *.
  set (sxy := dot xs ys) in *. set (syy := dot ys ys) in *.
  assert (Hy : sy = b0 * n + m0 * sx) by lra.
  assert (Hxy : sxy = m0 * sxx + b0 * sx).
  { apply (Rmult_eq_reg_l n); [|lra]. rewrite Hy in Hm. lra. }
  rewrite Hy, Hxy.
  assert (Hq : 0 <= n * (sxx * ((m - m0) * (m - m0))
                         + 2 * sx * (m - m0) * (b - b0)
                         + n * ((b - b0) * (b - b0)))).
  { replace (n * (sxx * ((m - m0) * (m - m0))
                  + 2 * sx * (m - m0) * (b - b0)
                  + n * ((b - b0) * (b - b0))))
      with ((n * (b - b0) + sx * (m - m0)) * (n * (b - b0) + sx * (m - m0))
            + (n * sxx - sx * sx) * ((m - m0) * (m - m0))) by ring.
    pose proof (Rle_0_sqr (n * (b - b0) + sx * (m - m0))) as H1.
    pose proof (Rle_0_sqr (m - m0)) as H2. unfold Rsqr in *. nra. }
  assert (Hq' : 0 <= sxx * ((m - m0) * (m - m0))
                     + 2 * sx * (m - m0) * (b - b0)
                     + n * ((b - b0) * (b - b0))).
  { apply (Rmult_le_reg_l n); [exact Hn|]. lra. }
  lra.
Qed.

End LeastSquaresFacts.

(** C7: with [numpy.polyfit] returning the least-squares line, the trend
    reduction (the argument of [round(..., 1)] in [_bme280_sample]) is, for
    every series, the least-squares slope of the series against the sample
    indices 0, 1, 2, ..., times [3600 / interval_seconds]; that slope, with
    its intercept, minimises the sum of squared residuals; every series of
    length at most 1 has trend 0; the trend of [[1, 2, 3]] sampled every 60
    seconds is 60. *)
Theorem trend_is_scaled_least_squares_slope
    (polyfit : list R -> list R -> nat -> list R) :
  (forall xs ys : list R,
     length xs = length ys -> (2 <= length xs)%nat ->
     polyfit xs ys 1%nat = [lsq_slope xs ys; lsq_intercept xs ys]) ->
  (forall (interval : timedelta) (series : list R),
     (2 <= length series)%nat ->
     WeatherStation.trend_per_hour polyfit interval series
     = Ok (lsq_slope (WeatherStation.range (length series)) series
           * 3600 / Q2R (total_seconds interval))%R)
  /\ (forall (series : list R) (m b : R),
        (2 <= length series)%nat ->
        (sse (WeatherStation.range (length series)) series
           (lsq_slope (WeatherStation.range (length series)) series)
           (lsq_intercept (WeatherStation.range (length series)) series)
         <= sse (WeatherStation.range (length series)) series m b)%R)
  /\ (forall (interval : timedelta) (series : list R),
        (length series <= 1)%nat ->
        WeatherStation._trend polyfit series = Ok 0%R
        /\ WeatherStation.trend_per_hour polyfit interval series
           = Ok (0 * 3600 / Q2R (total_seconds interval))%R)
  /\ WeatherStation.trend_per_hour polyfit (seconds 60) [1; 2; 3]%R
     = Ok 60%R.
Proof.
  intros Hfit.
  assert (Hlong : forall (interval : timedelta) (series : list R),
     (2 <= length series)%nat ->
     WeatherStation.trend_per_hour polyfit interval series
     = Ok (lsq_slope (WeatherStation.range (length series)) series
           * 3600 / Q2R (total_seconds interval))%R).
  { intros interval series Hlen.
    unfold WeatherStation.trend_per_hour, WeatherStation._trend.
    destruct (Nat.leb_spec (length series) 1) as [H|_]; [lia|].
    rewrite Hfit;
      rewrite ?LeastSquaresFacts.range_length; try reflexivity; exact Hlen. }
  split; [exact Hlong|]. split; [|split].
  - intros series m b Hlen. apply LeastSquaresFacts.lsq_minimises.
    + apply LeastSquaresFacts.range_length.
    + rewrite LeastSquaresFacts.range_length. apply lt_0_INR. lia.
    + rewrite LeastSquaresFacts.range_length.
      apply LeastSquaresFacts.range_det_pos. exact Hlen.
  - intros interval series Hlen.
    unfold WeatherStation.trend_per_hour, WeatherStation._trend.
    destruct (Nat.leb_spec (length series) 1) as [_|H]; [|lia].
    split; reflexivity.
  - rewrite Hlong by (simpl; lia). f_equal.
    unfold lsq_slope, dot, sum_R, WeatherStation.range, total_seconds,
      seconds, Q2R. simpl. rewrite mult_IZR. field.
Qed.

Lemma trend_is_scaled_least_squares_slope_witness :
  WeatherStation.trend_per_hour exact_polyfit (seconds 60) [1; 2; 3]%R
  = Ok 60%R.
Proof.
  apply (trend_is_scaled_least_squares_slope exact_polyfit).
  intros xs ys _ _. reflexivity.
Defined.

(** * Further properties of the code *)

Module RetentionFacts.

Lemma slice_from_last {A : Type} (n : Z) (l : list A) (x : A) :
  0 <= n -> last (slice_from (- n) (l ++ [x])) = Some x.
Proof.
  intros Hn. unfold slice_from.
  set (k := Z.to_nat _).
  assert (Hk : (k <= length l)%nat).
  { subst k. rewrite length_app. simpl.
    destruct (Z.ltb_spec (- n) 0); lia. }
  rewrite (drop_app_le l [x] k) by exact Hk.
  apply last_snoc.
Qed.

End RetentionFacts.

Module WholeSecondFacts.

Lemma float_seconds_whole (k : Z) :
  0 <= k < 2 ^ 53 -> (float_seconds (seconds k) == inject_Z k)%Q.
Proof.
  intros Hk. unfold float_seconds.
  assert (E : (total_seconds (seconds k) == inject_Z k)%Q).
  { unfold total_seconds, seconds, Qeq. simpl. lia. }
  rewrite (Binary64Facts.rnd_comp _ _ E).
  apply Binary64Facts.rnd_integer. exact Hk.
Qed.

(** The float quotient of two whole numbers of seconds, truncated, is
    their integer quotient. *)
Lemma capacity_whole (I D : Z) :
  0 < I < 2 ^ 53 -> 0 <= D < 2 ^ 53 ->
  IntervalSampler.capacity (seconds I) (seconds D) = D / I.
Proof.
  intros HI HD. unfold IntervalSampler.capacity.
  pose proof (float_seconds_whole I ltac:(lia)) as EI.
  pose proof (float_seconds_whole D HD) as ED.
  assert (Ey : (float_seconds (seconds D) / float_seconds (seconds I)
                == inject_Z D / inject_Z I)%Q)
    by (rewrite EI, ED; reflexivity).
  pose proof (Binary64Facts.rnd_comp _ _ Ey) as EY.
  set (Y := binary64.rnd
              (float_seconds (seconds D) / float_seconds (seconds I))) in *.
  pose proof (Binary64Facts.inject_pos I ltac:(lia)) as PI.
  pose proof (Z.div_mod D I ltac:(lia)) as Hdm.
  pose proof (Z.mod_pos_bound D I ltac:(lia)) as Hr.
  assert (Hn : 0 <= D / I) by (apply Z.div_pos; lia).
  assert (Hn53 : D / I < 2 ^ 53).
  { apply Z.le_lt_trans with D; [|lia].
    apply Z.div_le_upper_bound; [lia|]. nia. }
  assert (Hy : (inject_Z (D / I) <= inject_Z D / inject_Z I)%Q).
  { apply Qle_shift_div_l; [exact PI|].
    rewrite <- inject_Z_mult, <- Zle_Qle. nia. }
  assert (Low : (inject_Z (D / I) <= Y)%Q).
  { rewrite EY, <- (Binary64Facts.rnd_integer (D / I)) by lia.
    apply Binary64Facts.rnd_mono; [|exact Hy].
    change 0%Q with (inject_Z 0). rewrite <- Zle_Qle. exact Hn. }
  assert (Up : (Y < inject_Z (D / I + 1))%Q).
  { destruct (Z.eq_dec D 0) as [E0|Hne].
    - rewrite EY. subst D.
      assert (E : (inject_Z 0 / inject_Z I == 0)%Q) by reflexivity.
      rewrite (Binary64Facts.rnd_zero _ E). reflexivity.
    - assert (PD : (0 < inject_Z D)%Q)
        by (apply Binary64Facts.inject_pos; lia).
      assert (Py : (0 < inject_Z D / inject_Z I)%Q).
      { apply Qlt_shift_div_l; [exact PI|]. rewrite Qmult_0_l. exact PD. }
      destruct (Binary64Facts.rnd_error _ Py) as [_ E2].
      rewrite EY. eapply Qle_lt_trans; [exact E2|].
      apply (Qmult_lt_r _ _ (inject_Z I)); [exact PI|].
      assert (E : (inject_Z D / inject_Z I * (1 + binary64.u) * inject_Z I
                   == inject_Z D * (1 + binary64.u))%Q).
      { field. intros E. rewrite E in PI. discriminate PI. }
      rewrite E, <- inject_Z_mult.
      assert (HD' : (inject_Z D < 9007199254740992)%Q).
      { change 9007199254740992%Q with (inject_Z (2 ^ 53)).
        rewrite <- Zlt_Qlt. lia. }
      assert (Hm : (inject_Z D + 1 <= inject_Z ((D / I + 1) * I))%Q).
      { change 1%Q with (inject_Z 1).
        rewrite <- inject_Z_plus, <- Zle_Qle. nia. }
      unfold binary64.u. Lqa.lra. }
  rewrite CapacityFacts.int_nonneg.
  - apply Z.le_antisymm.
    + apply CapacityFacts.floor_le. exact Up.
    + apply CapacityFacts.floor_ge. exact Low.
  - eapply Qle_trans; [|exact Low].
    change 0%Q with (inject_Z 0). rewrite <- Zle_Qle. exact Hn.
Qed.

End WholeSecondFacts.

(** X1: windows configured in whole seconds, as the four of the station
    are.  For an interval and a retention of whole numbers of seconds
    (below [2 ^ 53], which every [timedelta] is) the float arithmetic of
    the constructor is exact: [interval] is the number of seconds, [size]
    is [floor(retention / interval)], and [duration], the retention really
    kept, is their exact product: it never exceeds the configured
    retention and falls short of it by less than one interval. *)
Theorem effective_retention_bounds {T : Type} (I D : Z) (cb : bool) :
  0 < I < 2 ^ 53 -> 0 <= D < 2 ^ 53 ->
  exists s : IntervalSampler.t T,
    IntervalSampler.__init__ (seconds I) (seconds D) cb = Ok s
    /\ (IntervalSampler.interval s == inject_Z I)%Q
    /\ IntervalSampler.size s = D / I
    /\ (IntervalSampler.duration s == inject_Z (I * (D / I)))%Q
    /\ D - I < I * (D / I) <= D.
Proof.
  intros HI HD. eexists.
  split; [apply IntervalSamplerFacts.init_ok; unfold seconds; lia|].
  unfold IntervalSampler.interval, IntervalSampler.size,
    IntervalSampler.duration. cbn [IntervalSampler._interval
    IntervalSampler._size].
  rewrite (WholeSecondFacts.capacity_whole I D HI HD).
  pose proof (WholeSecondFacts.float_seconds_whole I ltac:(lia)) as EI.
  pose proof (Z.mul_div_le D I ltac:(lia)) as Hle.
  pose proof (Z.mod_pos_bound D I ltac:(lia)) as Hmod.
  pose proof (Z.div_mod D I ltac:(lia)) as Hdm.
  assert (Hn : 0 <= D / I) by (apply Z.div_pos; lia).
  split; [exact EI|]. split; [reflexivity|]. split; [|lia].
  assert (E1 : (binary64.rnd (inject_Z (D / I)) == inject_Z (D / I))%Q)
    by (apply Binary64Facts.rnd_integer; nia).
  assert (E2 : (float_seconds (seconds I) * binary64.rnd (inject_Z (D / I))
                == inject_Z (I * (D / I)))%Q)
    by (rewrite EI, E1, inject_Z_mult; reflexivity).
  rewrite (Binary64Facts.rnd_comp _ _ E2).
  apply Binary64Facts.rnd_integer. nia.
Qed.

Lemma effective_retention_bounds_witness :
  exists s : IntervalSampler.t Z,
    IntervalSampler.__init__ (seconds 7) (seconds 60) true = Ok s
    /\ IntervalSampler.size s = 8
    /\ (IntervalSampler.duration s == 56)%Q.
Proof.
  destruct (@effective_retention_bounds Z 7 60 true)
    as (s & Hs & _ & Hsize & Hd & _).
  - split; reflexivity.
  - split; [discriminate|reflexivity].
  - exists s. split; [exact Hs|]. split; [exact Hsize|exact Hd].
Defined.

(** X2: for every sampler with a non-negative capacity, the sample just
    acquired is the last element of the window after [_store], and when a
    callback is configured the list handed to it is that window: a callback
    reading [data[-1]] reads the newest sample. *)
Theorem newest_sample_is_last {T : Type} (s : IntervalSampler.t T)
    (sample : T) :
  0 <= IntervalSampler._size s ->
  last (IntervalSampler._data (IntervalSampler._store s sample).1)
  = Some sample
  /\ (IntervalSampler._callback s = true ->
      exists snapshot,
        (IntervalSampler._store s sample).2 = Some snapshot
        /\ snapshot = IntervalSampler._data (IntervalSampler._store s sample).1
        /\ last_item snapshot = Ok sample).
Proof.
  intros Hsize.
  pose proof (RetentionFacts.slice_from_last (IntervalSampler._size s)
                (IntervalSampler._data s) sample Hsize) as Hlast.
  unfold IntervalSampler._store. cbn [fst snd IntervalSampler._data].
  split; [exact Hlast|].
  intros Hcb. rewrite Hcb. eexists. split; [reflexivity|].
  split; [reflexivity|]. unfold last_item. rewrite Hlast. reflexivity.
Qed.

Lemma newest_sample_is_last_witness :
  last (IntervalSampler._data
          (IntervalSampler._store
             (IntervalSampler.Make (total_seconds (seconds 1)) 3 true
                [1; 2; 3]) 4).1)
  = Some 4.
Proof.
  apply (@newest_sample_is_last Z). discriminate.
Defined.

Module RoundFacts.
Import ButtonSampler.

Lemma run_app (a b : list step) (m : machine) :
  run m (a ++ b) = match run m a with Some m' => run m' b | None => None end.
Proof.
  revert m. induction a as [|e a IH]; intros m; simpl; [reflexivity|].
  destruct (exec m e); [apply IH|reflexivity].
Qed.

Lemma run_pulses (n : nat) (m : machine) :
  run m (repeat Pulse n)
  = Some {| sampler := {| base := base (sampler m);
                           _count := _count (sampler m) + Z.of_nat n |};
            in_sample := in_sample m; stored := stored m |}.
Proof.
  revert m. induction n as [|n IH]; intros m.
  - simpl. destruct m as [[b c] i st]. simpl. rewrite Z.add_0_r. reflexivity.
  - cbn [repeat run exec]. rewrite IH. cbn. do 3 f_equal. lia.
Qed.

Lemma run_round (n : nat) (m : machine) :
  in_sample m = O ->
  run m (repeat Pulse n ++ [Line85; Line86])
  = Some {| sampler :=
              {| base := (IntervalSampler._store (base (sampler m))
                            (_count (sampler m) + Z.of_nat n)).1;
                 _count := 0 |};
            in_sample := O;
            stored := stored m ++ [_count (sampler m) + Z.of_nat n] |}.
Proof.
  intros Hin. rewrite run_app, run_pulses. cbn. rewrite Hin. cbn.
  reflexivity.
Qed.

Lemma run_rounds (ns : list nat) (m : machine) :
  in_sample m = O -> _count (sampler m) = 0 ->
  exists m', run m (rounds ns) = Some m'
    /\ in_sample m' = O
    /\ _count (sampler m') = 0
    /\ stored m' = stored m ++ map Z.of_nat ns
    /\ base (sampler m')
       = IntervalSampler.store_all (base (sampler m)) (map Z.of_nat ns).
Proof.
  revert m. induction ns as [|n ns IH]; intros m Hin Hc.
  - exists m. simpl. rewrite app_nil_r. repeat split; assumption.
  - unfold rounds in *. cbn [map concat]. rewrite run_app.
    rewrite (run_round n m Hin).
    edestruct IH as (m' & Hrun & Hin' & Hc' & Hst & Hb);
      [| |rewrite Hrun; exists m'; repeat split; try assumption].
    + reflexivity.
    + reflexivity.
    + rewrite Hst. cbn. rewrite Hc, <- app_assoc. reflexivity.
    + rewrite Hb. cbn. rewrite Hc. reflexivity.
Qed.

End RoundFacts.

(** X3: without interference, each window holds exactly the pulses of its
    own interval.  For every button sampler of capacity at least 1 started
    by [start], and every sequence of rounds ([n] pulses, then [_sample]),
    the samples stored are the pulse counts of the rounds in order, the
    counter is back to 0, and the window holds the most recent [capacity]
    counts. *)
Theorem rounds_store_their_pulse_counts (self : ButtonSampler.t)
    (ns : list nat) :
  1 <= IntervalSampler._size (ButtonSampler.base self) ->
  exists m : ButtonSampler.machine,
    ButtonSampler.run (ButtonSampler.boot self) (rounds ns) = Some m
    /\ ButtonSampler.stored m = map Z.of_nat ns
    /\ ButtonSampler._count (ButtonSampler.sampler m) = 0
    /\ ButtonSampler.in_sample m = O
    /\ IntervalSampler._data (ButtonSampler.base (ButtonSampler.sampler m))
       = last_n (Z.to_nat (IntervalSampler._size (ButtonSampler.base self)))
           (map Z.of_nat ns).
Proof.
  intros Hsize.
  destruct (RoundFacts.run_rounds ns (ButtonSampler.boot self))
    as (m & Hrun & Hin & Hc & Hst & Hb); [reflexivity|reflexivity|].
  exists m. split; [exact Hrun|]. split; [exact Hst|].
  split; [exact Hc|]. split; [exact Hin|].
  rewrite Hb. cbn [ButtonSampler.boot ButtonSampler.sampler
    ButtonSampler.start ButtonSampler.base].
  rewrite IntervalSamplerFacts.store_all_data; cbn; [reflexivity|exact Hsize|lia].
Qed.

Lemma rounds_store_their_pulse_counts_witness :
  exists m : ButtonSampler.machine,
    ButtonSampler.run
      (ButtonSampler.boot
         (ButtonSampler.Make
            (IntervalSampler.Make (float_seconds (seconds 3)) 2 true []) 0))
      (rounds [2; 0; 5]%nat) = Some m
    /\ ButtonSampler.stored m = [2; 0; 5]
    /\ IntervalSampler._data (ButtonSampler.base (ButtonSampler.sampler m))
       = [0; 5].
Proof.
  destruct (rounds_store_their_pulse_counts
              (ButtonSampler.Make
                 (IntervalSampler.Make (float_seconds (seconds 3)) 2 true [])
                 0) [2; 0; 5]%nat)
    as (m & Hrun & Hst & _ & _ & Hd).
  - cbn. lia.
  - exists m. split; [exact Hrun|]. split; [exact Hst|exact Hd].
Defined.

Module PullUpFacts.
Import WindDirectionSampler.
Local Open Scope Q_scope.

Lemma ratios_ok (r : Q) (table : list (Q * Q)) :
  Forall (fun e => ~ r + e.2 == 0) table ->
  ratios r table = Ok (map (fun e => spec_ratio r e.2) table).
Proof.
  induction table as [|[a res] table IH]; intros H; [reflexivity|].
  apply Forall_cons in H as [H1 H2]. simpl in *.
  unfold div. destruct (Qeq_bool (r + res) 0) eqn:E.
  - apply Qeq_bool_iff in E. contradiction.
  - cbn [bind]. rewrite (IH H2). reflexivity.
Qed.

Lemma ratios_fail (r : Q) (table : list (Q * Q)) :
  Exists (fun e => r + e.2 == 0) table ->
  ratios r table = Raise ZeroDivisionError.
Proof.
  induction table as [|[a res] table IH]; intros H.
  - apply Exists_nil in H. contradiction.
  - simpl. unfold div. destruct (Qeq_bool (r + res) 0) eqn:E; [reflexivity|].
    cbn [bind]. apply Exists_cons in H as [H|H].
    + simpl in H. apply Qeq_bool_iff in H. congruence.
    + rewrite (IH H). reflexivity.
Qed.

Lemma loop_on_table (r : Q) :
  thresholds_loop (length RESISTANCE_BY_ANGLE)
    (map (fun e => spec_ratio r e.2) RESISTANCE_BY_ANGLE)
    (map fst RESISTANCE_BY_ANGLE) 0 []
  = Ok (spec_thresholds r RESISTANCE_BY_ANGLE).
Proof.
  set (f := spec_ratio r).
  cbv -[Qplus Qdiv f]. reflexivity.
Qed.

End PullUpFacts.

Module NearestFacts.
Import WindDirectionSampler.
Local Open Scope Q_scope.

Lemma half (a : Q) : a / 2 == a * (1 # 2).
Proof. reflexivity. Qed.

Lemma ratio_increasing (r a b : Q) :
  0 < r -> 0 < b -> b < a -> spec_ratio r a < spec_ratio r b.
Proof.
  intros Hr Hb Hab. unfold spec_ratio.
  apply Qlt_shift_div_r; [Lqa.lra|].
  assert (E : r / (r + b) * (r + a) == r * (r + a) / (r + b))
    by (field; Lqa.lra).
  rewrite E.
  apply Qlt_shift_div_l; [Lqa.lra|]. Lqa.nra.
Qed.

Lemma near_below (v x y z : Q) :
  x < y -> y <= z -> v <= (x + y) / 2 -> near v x z.
Proof.
  unfold near. intros H1 H2 H3. rewrite half in H3.
  apply Qabs_case; intros; apply Qabs_case; intros; Lqa.lra.
Qed.

Lemma near_above (v x y : Q) :
  x < y -> ~ v <= (x + y) / 2 -> near v y x.
Proof.
  unfold near. intros H1 H3. rewrite half in H3.
  apply Qabs_case; intros; apply Qabs_case; intros; Lqa.lra.
Qed.

Lemma near_refl (v x : Q) : near v x x.
Proof. unfold near. apply Qle_refl. Qed.

Lemma near_trans (v x y z : Q) : near v x y -> near v y z -> near v x z.
Proof. unfold near. intros. eapply Qle_trans; eassumption. Qed.

Lemma nearest_of_sorted (r : Q) (table : list (Q * Q)) :
  0 < r ->
  Forall (fun e => 0 < e.2) table ->
  StronglySorted (fun e1 e2 => e2.2 < e1.2) table ->
  forall (v angle : Q),
    first_match (spec_thresholds r table) v = Some angle ->
    exists resistance : Q,
      In (angle, resistance) table
      /\ Forall (fun e => near v (spec_ratio r resistance) (spec_ratio r e.2))
           table.
Proof.
  intros Hr. induction table as [|[a0 res0] rest IH]; intros Hpos Hsort v angle.
  - discriminate.
  - apply Forall_cons in Hpos as [Hp0 Hpos].
    apply StronglySorted_cons in Hsort as [Hall Hsort].
    simpl in Hp0. cbn [spec_thresholds].
    destruct rest as [|[a1 res1] rest'].
    + cbn [first_match]. destruct (Qle_bool v 1); [|discriminate].
      intros E. injection E as <-. exists res0. split; [left; reflexivity|].
      apply Forall_cons. split; [apply near_refl|apply Forall_nil; exact I].
    + cbn [first_match snd].
      pose proof Hpos as Hpos'. apply Forall_cons in Hpos' as [Hp1 _].
      pose proof Hall as Hall'. apply Forall_cons in Hall' as [H01 _].
      simpl in Hp1, H01.
      pose proof (ratio_increasing r res0 res1 Hr Hp1 H01) as Hinc.
      destruct (Qle_bool v ((spec_ratio r res0 + spec_ratio r res1) / 2))
        eqn:E.
      * intros E'. injection E' as <-. apply Qle_bool_iff in E.
        exists res0. split; [left; reflexivity|].
        apply Forall_cons. split; [apply near_refl|].
        apply Forall_forall. intros [a' res'] Hin. simpl.
        apply (near_below v _ (spec_ratio r res1)); [exact Hinc| |exact E].
        apply elem_of_cons in Hin as [Heq|Hin].
        { injection Heq as -> ->. apply Qle_refl. }
        apply StronglySorted_cons in Hsort as [Hall1 _].
        rewrite Forall_forall in Hall1. specialize (Hall1 _ Hin).
        simpl in Hall1. apply Qlt_le_weak.
        apply ratio_increasing; [exact Hr| |exact Hall1].
        apply Forall_cons in Hpos as [_ Hpos].
        rewrite Forall_forall in Hpos. apply (Hpos _ Hin).
      * intros Hm.
        destruct (IH Hpos Hsort v angle Hm) as (res & Hin & Hnear).
        exists res. split; [right; exact Hin|].
        apply Forall_cons. split; [|exact Hnear].
        simpl. apply Forall_cons in Hnear as [Hn1 _]. simpl in Hn1.
        eapply near_trans; [exact Hn1|].
        apply near_above; [exact Hinc|].
        intros Hle. apply Qle_bool_iff in Hle. congruence.
Qed.

End NearestFacts.

Module TableFacts.
Import WindDirectionSampler.
Local Open Scope Q_scope.

Lemma table_positive : Forall (fun e => 0 < e.2) RESISTANCE_BY_ANGLE.
Proof.
  unfold RESISTANCE_BY_ANGLE.
  repeat (apply Forall_cons; split; [reflexivity|]). apply Forall_nil. exact I.
Qed.

Lemma table_sorted :
  StronglySorted (fun e1 e2 => e2.2 < e1.2) RESISTANCE_BY_ANGLE.
Proof.
  unfold RESISTANCE_BY_ANGLE.
  repeat (apply StronglySorted_cons; split;
          [repeat (apply Forall_cons; split; [reflexivity|]);
           apply Forall_nil; exact I|]).
  constructor.
Qed.

Lemma table_no_zero_divisor (r : Q) :
  0 < r -> Forall (fun e => ~ r + e.2 == 0) RESISTANCE_BY_ANGLE.
Proof.
  intros Hr. eapply Forall_impl; [apply table_positive|].
  intros e He H. simpl in He. Lqa.lra.
Qed.

Lemma base_init_ok {T : Type} (i d : timedelta) (cb : bool) :
  i <> 0%Z ->
  exists b : IntervalSampler.t T, IntervalSampler.__init__ i d cb = Ok b.
Proof.
  intros Hi. eexists. apply IntervalSamplerFacts.init_ok. exact Hi.
Qed.

Lemma spec_ratio_below_one (r res : Q) :
  0 < r -> 0 < res -> spec_ratio r res < 1.
Proof.
  intros Hr Hres. unfold spec_ratio.
  apply Qlt_shift_div_r; Lqa.lra.
Qed.

Lemma spec_thresholds_bounded (r : Q) (table : list (Q * Q)) :
  0 < r -> Forall (fun e => 0 < e.2) table ->
  Forall (fun e => e.2 <= 1) (spec_thresholds r table).
Proof.
  intros Hr. induction table as [|[a res] rest IH]; intros Hpos.
  - apply Forall_nil. exact I.
  - apply Forall_cons in Hpos as [Hp Hpos]. simpl in Hp.
    cbn [spec_thresholds]. destruct rest as [|[a1 res1] rest'].
    + apply Forall_cons. split; [apply Qle_refl|apply Forall_nil; exact I].
    + apply Forall_cons. split; [|apply IH; exact Hpos].
      apply Forall_cons in Hpos as [Hp1 _]. simpl in Hp1. simpl.
      pose proof (spec_ratio_below_one r res Hr Hp).
      pose proof (spec_ratio_below_one r res1 Hr Hp1).
      rewrite NearestFacts.half. Lqa.lra.
Qed.

Lemma spec_thresholds_last (r : Q) (table : list (Q * Q)) :
  table <> [] ->
  exists angle, last (spec_thresholds r table) = Some (angle, 1).
Proof.
  induction table as [|[a res] rest IH]; intros Hne; [contradiction|].
  destruct rest as [|[a1 res1] rest'].
  - exists a. reflexivity.
  - destruct (IH ltac:(discriminate)) as [angle Hl]. exists angle.
    change (last ((a, (spec_ratio r res + spec_ratio r res1) / 2)
                  :: spec_thresholds r ((a1, res1) :: rest'))
            = Some (angle, 1)).
    rewrite last_cons, Hl. reflexivity.
Qed.

Lemma first_match_none (items : list (Q * Q)) (v : Q) :
  Forall (fun e => e.2 <= 1) items -> 1 < v -> first_match items v = None.
Proof.
  induction items as [|[a t] items IH]; intros Hall Hv; [reflexivity|].
  apply Forall_cons in Hall as [Ht Hall]. simpl in Ht. simpl.
  destruct (Qle_bool v t) eqn:E; [|apply IH; assumption].
  apply Qle_bool_iff in E. Lqa.lra.
Qed.

End TableFacts.

Module ConstructionFacts.
Import WindDirectionSampler.
Local Open Scope Q_scope.

Lemma init_thresholds (r : Q) (i d : timedelta) (cb : bool) :
  i <> 0%Z ->
  Forall (fun e => ~ r + e.2 == 0) RESISTANCE_BY_ANGLE ->
  exists w : t,
    __init__ r i d cb = Ok w
    /\ _thresholds_by_angle w = spec_thresholds r RESISTANCE_BY_ANGLE.
Proof.
  intros Hi Hnz. unfold __init__.
  destruct (@TableFacts.base_init_ok (option Q) i d cb Hi) as [b ->].
  cbn [bind]. rewrite (PullUpFacts.ratios_ok r _ Hnz). cbn [bind].
  rewrite PullUpFacts.loop_on_table. cbn [bind].
  eexists. split; reflexivity.
Qed.

Lemma spec_thresholds_keys (r : Q) (table : list (Q * Q)) :
  map fst (spec_thresholds r table) = map fst table.
Proof.
  induction table as [|[a res] rest IH]; [reflexivity|].
  destruct rest as [|[a1 res1] rest']; [reflexivity|].
  change (map fst ((a, (spec_ratio r res + spec_ratio r res1) / 2)
                   :: spec_thresholds r ((a1, res1) :: rest'))
          = map fst ((a, res) :: (a1, res1) :: rest')).
  cbn [map fst]. rewrite IH. reflexivity.
Qed.

End ConstructionFacts.

(** X4: [WindDirectionSampler.__init__] for an arbitrary pull-up [r] and a
    non-zero interval.  When no table resistance is the opposite of [r]
    (in particular for every positive [r]) construction succeeds: there is
    one threshold per table angle, in table order, the midpoint of
    consecutive ratios [r / (r + resistance)] and 1 for the last angle.
    When some table resistance is the opposite of [r], construction raises
    [ZeroDivisionError]. *)
Theorem thresholds_for_every_pull_up (r : Q) (i d : timedelta) (cb : bool) :
  i <> 0 ->
  (Forall (fun e => ~ (r + e.2 == 0)%Q) WindDirectionSampler.RESISTANCE_BY_ANGLE
   -> exists w : WindDirectionSampler.t,
        WindDirectionSampler.__init__ r i d cb = Ok w
        /\ WindDirectionSampler._thresholds_by_angle w
           = spec_thresholds r WindDirectionSampler.RESISTANCE_BY_ANGLE
        /\ map fst (WindDirectionSampler._thresholds_by_angle w)
           = map fst WindDirectionSampler.RESISTANCE_BY_ANGLE)
  /\ (Exists (fun e => (r + e.2 == 0)%Q) WindDirectionSampler.RESISTANCE_BY_ANGLE
      -> WindDirectionSampler.__init__ r i d cb = Raise ZeroDivisionError)
  /\ ((0 < r)%Q ->
      Forall (fun e => ~ (r + e.2 == 0)%Q)
        WindDirectionSampler.RESISTANCE_BY_ANGLE).
Proof.
  intros Hi. split; [|split].
  - intros Hnz.
    destruct (ConstructionFacts.init_thresholds r i d cb Hi Hnz)
      as (w & Hw & Ht).
    exists w. split; [exact Hw|]. split; [exact Ht|].
    rewrite Ht. apply ConstructionFacts.spec_thresholds_keys.
  - intros Hz. unfold WindDirectionSampler.__init__.
    destruct (@TableFacts.base_init_ok (option Q) i d cb Hi) as [b ->].
    cbn [bind]. rewrite (PullUpFacts.ratios_fail r _ Hz). reflexivity.
  - apply TableFacts.table_no_zero_divisor.
Qed.

Lemma thresholds_for_every_pull_up_witness :
  WindDirectionSampler.__init__ (- (1000)) (seconds 1) (seconds 3) true
  = Raise ZeroDivisionError.
Proof.
  apply (thresholds_for_every_pull_up (- (1000)) (seconds 1) (seconds 3) true).
  - discriminate.
  - unfold WindDirectionSampler.RESISTANCE_BY_ANGLE.
    do 13 apply Exists_cons_tl. apply Exists_cons_hd. reflexivity.
Defined.

(** X5: for every positive pull-up, [degree] returns [None] exactly for
    readings above 1: every reading up to 1 is classified, the catch-all
    threshold never lets one through. *)
Theorem unclassified_exactly_above_one (r : Q) (i d : timedelta)
    (cb : bool) :
  (0 < r)%Q -> i <> 0 ->
  exists w : WindDirectionSampler.t,
    WindDirectionSampler.__init__ r i d cb = Ok w
    /\ forall value : Q,
         WindDirectionSampler.degree w value = None <-> (1 < value)%Q.
Proof.
  intros Hr Hi.
  destruct (ConstructionFacts.init_thresholds r i d cb Hi
              (TableFacts.table_no_zero_divisor r Hr)) as (w & Hw & Ht).
  exists w. split; [exact Hw|]. intros value.
  unfold WindDirectionSampler.degree. rewrite Ht. split.
  - intros Hnone.
    destruct (TableFacts.spec_thresholds_last r
                WindDirectionSampler.RESISTANCE_BY_ANGLE ltac:(discriminate))
      as [angle Hlast].
    destruct (Qlt_le_dec 1 value) as [H|H]; [exact H|].
    exfalso. revert Hnone.
    apply (WindDirectionFacts.first_match_last _ value angle 1 Hlast).
    apply Qle_bool_iff. exact H.
  - apply TableFacts.first_match_none.
    apply TableFacts.spec_thresholds_bounded;
      [exact Hr|apply TableFacts.table_positive].
Qed.

Lemma unclassified_exactly_above_one_witness :
  exists w : WindDirectionSampler.t,
    WindDirectionSampler.__init__ 4700 (seconds 1) (seconds 3) true = Ok w
    /\ WindDirectionSampler.degree w (3 # 2) = None.
Proof.
  destruct (unclassified_exactly_above_one 4700 (seconds 1) (seconds 3) true)
    as (w & Hw & Hnone).
  - reflexivity.
  - discriminate.
  - exists w. split; [exact Hw|]. apply Hnone. reflexivity.
Defined.

(** X6: for every positive pull-up, [degree] classifies a reading to the
    table angle whose divider ratio [r / (r + resistance)] is nearest to
    the reading: no table ratio is strictly nearer. *)
Theorem classifies_to_nearest_ratio (r : Q) (i d : timedelta) (cb : bool) :
  (0 < r)%Q -> i <> 0 ->
  exists w : WindDirectionSampler.t,
    WindDirectionSampler.__init__ r i d cb = Ok w
    /\ forall value angle : Q,
         WindDirectionSampler.degree w value = Some angle ->
         exists resistance : Q,
           In (angle, resistance) WindDirectionSampler.RESISTANCE_BY_ANGLE
           /\ Forall (fun e => near value (spec_ratio r resistance)
                                 (spec_ratio r e.2))
                WindDirectionSampler.RESISTANCE_BY_ANGLE.
Proof.
  intros Hr Hi.
  destruct (ConstructionFacts.init_thresholds r i d cb Hi
              (TableFacts.table_no_zero_divisor r Hr)) as (w & Hw & Ht).
  exists w. split; [exact Hw|]. intros value angle.
  unfold WindDirectionSampler.degree. rewrite Ht.
  apply NearestFacts.nearest_of_sorted;
    [exact Hr|apply TableFacts.table_positive|apply TableFacts.table_sorted].
Qed.

Lemma classifies_to_nearest_ratio_witness :
  exists w : WindDirectionSampler.t,
    WindDirectionSampler.__init__ 4700 (seconds 1) (seconds 3) true = Ok w
    /\ forall value angle : Q,
         WindDirectionSampler.degree w value = Some angle ->
         exists resistance : Q,
           In (angle, resistance) WindDirectionSampler.RESISTANCE_BY_ANGLE
           /\ Forall (fun e => near value (spec_ratio 4700 resistance)
                                 (spec_ratio 4700 e.2))
                WindDirectionSampler.RESISTANCE_BY_ANGLE.
Proof.
  apply (classifies_to_nearest_ratio 4700 (seconds 1) (seconds 3) true).
  - reflexivity.
  - discriminate.
Defined.

Module SchemaFacts.
Import WeatherStation.

Lemma same_schema_refl (a : t) : same_schema a a.
Proof. split; reflexivity. Qed.

Lemma same_schema_trans (a b c : t) :
  same_schema a b -> same_schema b c -> same_schema a c.
Proof.
  intros [H1 L1] [H2 L2]. split; [|congruence].
  intros k. rewrite H1. apply H2.
Qed.

Lemma same_schema_dom (a b : t) :
  same_schema a b -> dom (_readings a) = dom (_readings b).
Proof.
  intros [H _]. apply set_eq. intros k. rewrite !elem_of_dom.
  specialize (H k).
  destruct (_readings a !! k), (_readings b !! k); simpl in H;
    try discriminate; split; intros [x Hx]; try discriminate; eauto.
Qed.

Lemma keeps_update (key : string) (args : result (pyval * option Z))
    (now : Z) :
  keeps (update_reading key args now).
Proof.
  intros st. unfold update_reading.
  destruct (_readings st !! key) as [r|] eqn:E; [|apply same_schema_refl].
  destruct args as [[v ts]|e]; [|apply same_schema_refl].
  split; [|reflexivity]. intros k. simpl.
  destruct (decide (key = k)) as [<-|Hne].
  - rewrite lookup_insert_eq, E. reflexivity.
  - rewrite lookup_insert_ne by exact Hne. reflexivity.
Qed.

Lemma keeps_publish (keys : gset string) : keeps (_publish keys).
Proof. intros st. apply same_schema_refl. Qed.

Lemma keeps_then {A B : Type} (m : M A) (k : A -> M B) :
  keeps m -> (forall a, keeps (k a)) -> keeps (and_then k m).
Proof.
  intros Hm Hk st. unfold and_then. specialize (Hm st).
  destruct (m st) as [st1 [a|e]]; simpl in *; [|exact Hm].
  eapply same_schema_trans; [exact Hm|apply Hk].
Qed.

End SchemaFacts.

(** X7: no callback of the station changes the schema of the reading
    store: whatever the window, the clock readings and the outcome (also
    when the callback raises half-way), the store has the same keys with
    the same units afterwards, and the listener is the same. *)
Theorem callbacks_keep_the_schema
    (polyfit : list R -> list R -> nat -> list R) (st : WeatherStation.t) :
  (forall (utcnow : nat -> Z) (data : list Z),
     same_schema st (WeatherStation._rain_sample utcnow data st).1)
  /\ (forall (utcnow : nat -> Z) (data : list Z),
        same_schema st (WeatherStation._wind_speed_sample utcnow data st).1)
  /\ (forall (utcnow : Z) (data : list (option Q)),
        same_schema st
          (WeatherStation._wind_direction_sample utcnow data st).1)
  /\ (forall data : list WeatherStation.bme280_reading,
        same_schema st (WeatherStation._bme280_sample polyfit data st).1)
  /\ (forall st' : WeatherStation.t,
        same_schema st st' ->
        dom (WeatherStation._readings st) = dom (WeatherStation._readings st')).
Proof.
  assert (Hk : forall (A : Type) (m : WeatherStation.M A),
             keeps m -> same_schema st (m st).1) by (intros A m H; apply H).
  split; [|split; [|split; [|split]]].
  5: { intros st' H. apply SchemaFacts.same_schema_dom. exact H. }
  all: intros; apply Hk.
  all: unfold WeatherStation._rain_sample, WeatherStation._wind_speed_sample,
         WeatherStation._wind_direction_sample, WeatherStation._bme280_sample,
         mbind, WeatherStation.M_bind.
  all: repeat (apply SchemaFacts.keeps_then;
               [apply SchemaFacts.keeps_update|intros _]).
  all: apply SchemaFacts.keeps_publish.
Qed.

Module CallbackFacts.
Import WeatherStation.

Lemma update_ok (key : string) (v : pyval) (ts : option Z) (now : Z)
    (st : t) :
  key ∈ dom (_readings st) ->
  update_reading key (Ok (v, ts)) now st = (written key v ts now st, Ok tt).
Proof.
  intros Hin. apply elem_of_dom in Hin as [r Hr].
  unfold update_reading, written. rewrite Hr. f_equal. f_equal.
  apply map_eq. intros k. destruct (decide (key = k)) as [<-|Hne].
  - rewrite lookup_insert_eq, lookup_alter_eq, Hr. reflexivity.
  - rewrite lookup_insert_ne, lookup_alter_ne by exact Hne. reflexivity.
Qed.

Lemma update_raise (key : string) (e : exn) (now : Z) (st : t) :
  key ∈ dom (_readings st) ->
  update_reading key (Raise e) now st = (st, Raise e).
Proof.
  intros Hin. apply elem_of_dom in Hin as [r Hr].
  unfold update_reading. rewrite Hr. reflexivity.
Qed.

Lemma written_dom (key : string) (v : pyval) (ts : option Z) (now : Z)
    (st : t) :
  dom (_readings (written key v ts now st)) = dom (_readings st).
Proof. unfold written. simpl. apply dom_alter_L. Qed.

Lemma written_listener (key : string) (v : pyval) (ts : option Z) (now : Z)
    (st : t) :
  listener (written key v ts now st) = listener st.
Proof. reflexivity. Qed.

Lemma written_holds (key : string) (v : pyval) (ts now : Z) (st : t) :
  key ∈ dom (_readings st) ->
  holds (_readings (written key v (Some ts) now st)) key v ts.
Proof.
  intros Hin. apply elem_of_dom in Hin as [r Hr].
  unfold holds, written. simpl. rewrite lookup_alter_eq, Hr. simpl.
  eexists. split; [reflexivity|]. split; reflexivity.
Qed.

Lemma written_holds_now (key : string) (v : pyval) (now : Z) (st : t) :
  key ∈ dom (_readings st) ->
  holds (_readings (written key v None now st)) key v now.
Proof.
  intros Hin. apply elem_of_dom in Hin as [r Hr].
  unfold holds, written. simpl. rewrite lookup_alter_eq, Hr. simpl.
  eexists. split; [reflexivity|]. split; reflexivity.
Qed.

Lemma written_other (key k : string) (v : pyval) (ts : option Z) (now : Z)
    (st : t) :
  key <> k ->
  _readings (written key v ts now st) !! k = _readings st !! k.
Proof. intros Hne. unfold written. simpl. apply lookup_alter_ne. exact Hne. Qed.

Lemma holds_other (key k : string) (v v' : pyval) (ts : option Z)
    (ts' now : Z) (st : t) :
  key <> k ->
  holds (_readings st) k v' ts' ->
  holds (_readings (written key v ts now st)) k v' ts'.
Proof.
  intros Hne (r & Hr & Hv & Ht). exists r.
  rewrite written_other by exact Hne. repeat split; assumption.
Qed.

Lemma holds_filter (keys : gset string)
    (m : gmap string (SensorReading.t pyval)) (k : string) (v : pyval)
    (ts : Z) :
  k ∈ keys -> holds m k v ts ->
  holds (filter (fun kv => kv.1 ∈ keys) m) k v ts.
Proof.
  intros Hk (r & Hr & Hv & Ht). exists r. split; [|split; assumption].
  apply map_lookup_filter_Some. split; [exact Hr|exact Hk].
Qed.

End CallbackFacts.

(** X8: the callbacks on an empty window, for a store that has the twelve
    reading keys.  [_bme280_sample] raises [IndexError], [_wind_speed_sample]
    raises [ValueError] and [_wind_direction_sample] raises
    [ZeroDivisionError]; each leaves the store untouched and emits nothing.
    [_rain_sample] does not raise: it completes and writes the three
    totals of an empty sum. *)
Theorem callbacks_on_an_empty_window
    (polyfit : list R -> list R -> nat -> list R) (st : WeatherStation.t) :
  reading_keys ⊆ dom (WeatherStation._readings st) ->
  WeatherStation._bme280_sample polyfit [] st = (st, Raise IndexError)
  /\ (forall utcnow : nat -> Z,
        WeatherStation._wind_speed_sample utcnow [] st
        = (st, Raise ValueError))
  /\ (forall utcnow : Z,
        WeatherStation._wind_direction_sample utcnow [] st
        = (st, Raise ZeroDivisionError))
  /\ (forall utcnow : nat -> Z,
        exists (st' : WeatherStation.t) batch,
          WeatherStation._rain_sample utcnow [] st = (st', Ok batch)
          /\ holds (WeatherStation._readings st') "rain_1h"
               (WeatherStation.Num (WeatherStation.RAIN_SCALE_FACTOR * 0))
               (utcnow 0%nat)
          /\ holds (WeatherStation._readings st') "rain_6h"
               (WeatherStation.Num (WeatherStation.RAIN_SCALE_FACTOR * 0))
               (utcnow 1%nat)
          /\ holds (WeatherStation._readings st') "rain_24h"
               (WeatherStation.Num (WeatherStation.RAIN_SCALE_FACTOR * 0))
               (utcnow 2%nat)).
Proof.
  intros Hkeys.
  assert (Hin : forall k, k ∈ reading_keys ->
                          k ∈ dom (WeatherStation._readings st))
    by (intros k Hk; apply Hkeys, Hk).
  split; [|split; [|split]].
  - unfold WeatherStation._bme280_sample, mbind, WeatherStation.M_bind,
      WeatherStation.and_then.
    cbn [last_item last result_bind bind].
    rewrite CallbackFacts.update_raise; [reflexivity|].
    apply Hin. unfold reading_keys. set_solver.
  - intros utcnow.
    unfold WeatherStation._wind_speed_sample, mbind, WeatherStation.M_bind,
      WeatherStation.and_then.
    cbn [builtins.max result_bind bind].
    rewrite CallbackFacts.update_raise; [reflexivity|].
    apply Hin. unfold reading_keys. set_solver.
  - intros utcnow.
    unfold WeatherStation._wind_direction_sample, mbind,
      WeatherStation.M_bind, WeatherStation.and_then.
    cbn [WeatherStation.floats result_bind bind].
    rewrite CircularMeanFacts.average_angles_empty. cbn [result_bind bind].
    rewrite CallbackFacts.update_raise; [reflexivity|].
    apply Hin. unfold reading_keys. set_solver.
  - intros utcnow.
    unfold WeatherStation._rain_sample, mbind, WeatherStation.M_bind,
      WeatherStation.and_then.
    rewrite CallbackFacts.update_ok
      by (apply Hin; unfold reading_keys; set_solver).
    rewrite CallbackFacts.update_ok
      by (rewrite CallbackFacts.written_dom; apply Hin; unfold reading_keys;
          set_solver).
    rewrite CallbackFacts.update_ok
      by (rewrite !CallbackFacts.written_dom; apply Hin; unfold reading_keys;
          set_solver).
    unfold WeatherStation._publish. eexists. eexists.
    split; [reflexivity|].
    split; [|split].
    + do 2 (apply CallbackFacts.holds_other; [discriminate|]).
      apply CallbackFacts.written_holds_now.
      apply Hin. unfold reading_keys. set_solver.
    + apply CallbackFacts.holds_other; [discriminate|].
      apply CallbackFacts.written_holds_now.
      rewrite CallbackFacts.written_dom.
      apply Hin. unfold reading_keys. set_solver.
    + apply CallbackFacts.written_holds_now.
      rewrite !CallbackFacts.written_dom.
      apply Hin. unfold reading_keys. set_solver.
Qed.

Lemma callbacks_on_an_empty_window_witness :
  let st := WeatherStation.__init__ (fun _ => 0) true in
  WeatherStation._bme280_sample exact_polyfit [] st = (st, Raise IndexError).
Proof.
  intros st.
  apply (callbacks_on_an_empty_window exact_polyfit st).
  unfold st. rewrite StationFacts.init_keys. reflexivity.
Defined.

Module RoundingFacts.
Local Open Scope R_scope.

Lemma floor_bounds (x : R) : IZR (Int_part x) <= x < IZR (Int_part x) + 1.
Proof. destruct (base_Int_part x). lra. Qed.

Lemma floor_mono (x y : R) : x <= y -> (Int_part x <= Int_part y)%Z.
Proof.
  intros Hxy. pose proof (floor_bounds x). pose proof (floor_bounds y).
  destruct (Z_le_gt_dec (Int_part x) (Int_part y)) as [H1|H1]; [exact H1|].
  exfalso. assert (Int_part y + 1 <= Int_part x)%Z by lia.
  apply IZR_le in H2. rewrite plus_IZR in H2. lra.
Qed.

Lemma round_cases (x : R) :
  (builtins.round x = Int_part x /\ x - IZR (Int_part x) <= 1 / 2)
  \/ (builtins.round x = (Int_part x + 1)%Z /\ 1 / 2 <= x - IZR (Int_part x)).
Proof.
  unfold builtins.round.
  destruct (Rlt_dec (x - IZR (Int_part x)) (1 / 2)); [left; split; [reflexivity|lra]|].
  destruct (Rlt_dec (1 / 2) (x - IZR (Int_part x)));
    [right; split; [reflexivity|lra]|].
  destruct (Z.even (Int_part x)); [left|right]; split; try reflexivity; lra.
Qed.

Lemma round_mono (x y : R) :
  x <= y -> (builtins.round x <= builtins.round y)%Z.
Proof.
  intros Hxy. pose proof (floor_mono x y Hxy) as Hf.
  destruct (Z.eq_dec (Int_part x) (Int_part y)) as [E|Hne].
  - unfold builtins.round. rewrite E.
    destruct (Rlt_dec (x - IZR (Int_part y)) (1 / 2)),
      (Rlt_dec (y - IZR (Int_part y)) (1 / 2)); try lia; try lra;
      destruct (Rlt_dec (1 / 2) (x - IZR (Int_part y))),
        (Rlt_dec (1 / 2) (y - IZR (Int_part y))); try lia; try lra;
      destruct (Z.even (Int_part y)); lia.
  - destruct (round_cases x) as [[-> _]|[-> _]],
      (round_cases y) as [[-> _]|[-> _]]; lia.
Qed.

Lemma round1_mono (x y : R) :
  x <= y -> builtins.round1 x <= builtins.round1 y.
Proof.
  intros Hxy. unfold builtins.round1.
  assert (H : (builtins.round (x * 10) <= builtins.round (y * 10))%Z)
    by (apply round_mono; lra).
  apply IZR_le in H. lra.
Qed.

Lemma round_IZR (n : Z) : builtins.round (IZR n) = n.
Proof.
  assert (E : Int_part (IZR n) = n).
  { symmetry. apply Int_part_spec. lra. }
  unfold builtins.round. rewrite E.
  destruct (Rlt_dec (IZR n - IZR n) (1 / 2)); [reflexivity|lra].
Qed.

End RoundingFacts.

Module SumFacts.

Lemma sum_from (l : list Z) (a : Z) : fold_left Z.add l a = a + builtins.sum l.
Proof.
  unfold builtins.sum. revert a. induction l as [|x l IH]; intros a; simpl.
  - lia.
  - rewrite (IH (a + x)), (IH (0 + x)). lia.
Qed.

Lemma sum_cons (x : Z) (l : list Z) :
  builtins.sum (x :: l) = x + builtins.sum l.
Proof. unfold builtins.sum at 1. simpl. apply sum_from. Qed.

Lemma sum_app (a b : list Z) :
  builtins.sum (a ++ b) = builtins.sum a + builtins.sum b.
Proof.
  induction a as [|x a IH]; [reflexivity|].
  simpl. rewrite !sum_cons, IH. lia.
Qed.

Lemma sum_nonneg (l : list Z) : Forall (fun x => 0 <= x) l -> 0 <= builtins.sum l.
Proof.
  induction 1 as [|x l Hx Hl IH]; [reflexivity|]. rewrite sum_cons. lia.
Qed.

Lemma sum_drop (k : nat) (l : list Z) :
  Forall (fun x => 0 <= x) l -> builtins.sum (drop k l) <= builtins.sum l.
Proof.
  intros Hl. rewrite <- (take_drop k l) at 2. rewrite sum_app.
  assert (0 <= builtins.sum (take k l)).
  { apply sum_nonneg. apply Forall_take. exact Hl. }
  lia.
Qed.

Lemma max_from (l : list Z) (x : Z) :
  x <= fold_left Z.max l x /\ Forall (fun y => y <= fold_left Z.max l x) l.
Proof.
  revert x. induction l as [|y l IH]; intros x; simpl.
  - split; [lia|constructor].
  - destruct (IH (Z.max x y)) as [H1 H2]. split; [lia|].
    constructor; [lia|exact H2].
Qed.

Lemma sum_le_max (l : list Z) (m : Z) :
  Forall (fun y => y <= m) l -> builtins.sum l <= Z.of_nat (length l) * m.
Proof.
  induction 1 as [|x l Hx Hl IH]; [reflexivity|].
  rewrite sum_cons. simpl length. lia.
Qed.

End SumFacts.

Module ScaleFacts.

Lemma per_hour :
  builtins.int (3600 / total_seconds WeatherStation.RAIN_SAMPLE_INTERVAL) = 12.
Proof. reflexivity. Qed.

Lemma per_six_hours :
  builtins.int (6 * 3600 / total_seconds WeatherStation.RAIN_SAMPLE_INTERVAL)
  = 72.
Proof. reflexivity. Qed.

Lemma last_n_nested {A : Type} (a b : nat) (l : list A) :
  (a <= b)%nat -> last_n a l = drop (Nat.min b (length l) - a) (last_n b l).
Proof.
  intros Hab. unfold last_n. rewrite drop_drop. f_equal. lia.
Qed.

Lemma scale_positive : (0 < WeatherStation.RAIN_SCALE_FACTOR)%R.
Proof. unfold WeatherStation.RAIN_SCALE_FACTOR. lra. Qed.

Lemma wind_scale_positive : (0 < WeatherStation.WIND_SPEED_SCALE_FACTOR)%R.
Proof.
  unfold WeatherStation.WIND_SPEED_SCALE_FACTOR, total_seconds,
    WeatherStation.WIND_SPEED_SAMPLE_INTERVAL, seconds, Q2R. simpl.
  rewrite mult_IZR.
  assert (E : (IZR 3 * IZR 1000000 * / IZR 1000000 = 3)%R) by field.
  rewrite E. lra.
Qed.

End ScaleFacts.

(** X9: [_rain_sample] on a store that has the reading keys never raises.
    It writes [0.2794] times the sum of the last 12 samples to [rain_1h],
    of the last 72 samples to [rain_6h] and of the whole window to
    [rain_24h] (all of the window when it is shorter), each stamped with the
    clock; for a window of non-negative counts the three totals are ordered:
    [0 <= rain_1h <= rain_6h <= rain_24h]. *)
Theorem rain_totals_are_nested (st : WeatherStation.t) (utcnow : nat -> Z)
    (data : list Z) :
  reading_keys ⊆ dom (WeatherStation._readings st) ->
  exists (st' : WeatherStation.t) batch,
    WeatherStation._rain_sample utcnow data st = (st', Ok batch)
    /\ holds (WeatherStation._readings st') "rain_1h"
         (WeatherStation.Num
            (WeatherStation.RAIN_SCALE_FACTOR
             * IZR (builtins.sum (last_n 12 data)))) (utcnow 0%nat)
    /\ holds (WeatherStation._readings st') "rain_6h"
         (WeatherStation.Num
            (WeatherStation.RAIN_SCALE_FACTOR
             * IZR (builtins.sum (last_n 72 data)))) (utcnow 1%nat)
    /\ holds (WeatherStation._readings st') "rain_24h"
         (WeatherStation.Num
            (WeatherStation.RAIN_SCALE_FACTOR * IZR (builtins.sum data)))
         (utcnow 2%nat)
    /\ (Forall (fun n => 0 <= n) data ->
        (0 <= WeatherStation.RAIN_SCALE_FACTOR
              * IZR (builtins.sum (last_n 12 data))
         <= WeatherStation.RAIN_SCALE_FACTOR
            * IZR (builtins.sum (last_n 72 data)))%R
        /\ (WeatherStation.RAIN_SCALE_FACTOR
            * IZR (builtins.sum (last_n 72 data))
            <= WeatherStation.RAIN_SCALE_FACTOR * IZR (builtins.sum data))%R).
Proof.
  intros Hkeys.
  assert (Hin : forall k, k ∈ reading_keys ->
                          k ∈ dom (WeatherStation._readings st))
    by (intros k Hk; apply Hkeys, Hk).
  unfold WeatherStation._rain_sample, mbind, WeatherStation.M_bind,
    WeatherStation.and_then.
  rewrite ScaleFacts.per_hour, ScaleFacts.per_six_hours.
  rewrite !IntervalSamplerFacts.slice_from_neg by lia.
  change (Z.to_nat 12) with 12%nat. change (Z.to_nat 72) with 72%nat.
  rewrite CallbackFacts.update_ok
    by (apply Hin; unfold reading_keys; set_solver).
  rewrite CallbackFacts.update_ok
    by (rewrite CallbackFacts.written_dom; apply Hin; unfold reading_keys;
        set_solver).
  rewrite CallbackFacts.update_ok
    by (rewrite !CallbackFacts.written_dom; apply Hin; unfold reading_keys;
        set_solver).
  unfold WeatherStation._publish. eexists. eexists.
  split; [reflexivity|].
  split; [|split; [|split]].
  - do 2 (apply CallbackFacts.holds_other; [discriminate|]).
    apply CallbackFacts.written_holds_now.
    apply Hin. unfold reading_keys. set_solver.
  - apply CallbackFacts.holds_other; [discriminate|].
    apply CallbackFacts.written_holds_now.
    rewrite CallbackFacts.written_dom.
    apply Hin. unfold reading_keys. set_solver.
  - apply CallbackFacts.written_holds_now.
    rewrite !CallbackFacts.written_dom.
    apply Hin. unfold reading_keys. set_solver.
  - intros Hpos. pose proof ScaleFacts.scale_positive as Hs.
    assert (H72 : Forall (fun n => 0 <= n) (last_n 72 data))
      by (apply Forall_drop; exact Hpos).
    assert (H1 : 0 <= builtins.sum (last_n 12 data)).
    { apply SumFacts.sum_nonneg. apply Forall_drop. exact Hpos. }
    assert (H2 : builtins.sum (last_n 12 data)
                 <= builtins.sum (last_n 72 data)).
    { rewrite (ScaleFacts.last_n_nested 12 72 data) by lia.
      apply SumFacts.sum_drop. exact H72. }
    assert (H3 : builtins.sum (last_n 72 data) <= builtins.sum data)
      by (apply SumFacts.sum_drop; exact Hpos).
    apply IZR_le in H1, H2, H3. repeat split; nra.
Qed.

Lemma rain_totals_are_nested_witness :
  exists (st' : WeatherStation.t) batch,
    WeatherStation._rain_sample (fun _ => 0) [1; 0; 2]
      (WeatherStation.__init__ (fun _ => 0) true) = (st', Ok batch)
    /\ holds (WeatherStation._readings st') "rain_24h"
         (WeatherStation.Num
            (WeatherStation.RAIN_SCALE_FACTOR * IZR (builtins.sum [1; 0; 2])))
         0.
Proof.
  destruct (rain_totals_are_nested (WeatherStation.__init__ (fun _ => 0) true)
              (fun _ => 0) [1; 0; 2])
    as (st' & batch & Hrun & _ & _ & H24 & _).
  - rewrite StationFacts.init_keys. reflexivity.
  - exists st', batch. split; [exact Hrun|exact H24].
Defined.

(** X10: [_wind_speed_sample] on a non-empty window, for a store that has
    the reading keys: it completes, writes the rounded gust and the rounded
    mean speed, and the gust published is never below the speed
    published. *)
Theorem gust_is_at_least_speed (st : WeatherStation.t) (utcnow : nat -> Z)
    (data : list Z) :
  reading_keys ⊆ dom (WeatherStation._readings st) ->
  data <> [] ->
  exists (st' : WeatherStation.t) batch (gust speed : R),
    WeatherStation._wind_speed_sample utcnow data st = (st', Ok batch)
    /\ holds (WeatherStation._readings st') "wind_gust"
         (WeatherStation.Num gust) (utcnow 0%nat)
    /\ holds (WeatherStation._readings st') "wind_speed"
         (WeatherStation.Num speed) (utcnow 1%nat)
    /\ speed
       = builtins.round1
           (WeatherStation.mean data * WeatherStation.WIND_SPEED_SCALE_FACTOR)
    /\ (speed <= gust)%R.
Proof.
  intros Hkeys Hne.
  assert (Hin : forall k, k ∈ reading_keys ->
                          k ∈ dom (WeatherStation._readings st))
    by (intros k Hk; apply Hkeys, Hk).
  destruct data as [|x data]; [contradiction|].
  unfold WeatherStation._wind_speed_sample, mbind, WeatherStation.M_bind,
    WeatherStation.and_then.
  cbn [builtins.max result_bind bind].
  set (m := fold_left Z.max data x).
  rewrite CallbackFacts.update_ok
    by (apply Hin; unfold reading_keys; set_solver).
  rewrite CallbackFacts.update_ok
    by (rewrite CallbackFacts.written_dom; apply Hin; unfold reading_keys;
        set_solver).
  unfold WeatherStation._publish. do 4 eexists.
  split; [reflexivity|].
  split; [|split; [|split; [reflexivity|]]].
  - apply CallbackFacts.holds_other; [discriminate|].
    apply CallbackFacts.written_holds_now.
    apply Hin. unfold reading_keys. set_solver.
  - apply CallbackFacts.written_holds_now.
    rewrite CallbackFacts.written_dom.
    apply Hin. unfold reading_keys. set_solver.
  - apply RoundingFacts.round1_mono.
    pose proof ScaleFacts.wind_scale_positive as Hscale.
    apply Rmult_le_compat_r; [lra|].
    unfold WeatherStation.mean.
    destruct (SumFacts.max_from data x) as [Hx Hall]. fold m in Hx, Hall.
    assert (Hsum : builtins.sum (x :: data)
                   <= Z.of_nat (length (x :: data)) * m).
    { apply SumFacts.sum_le_max. constructor; assumption. }
    apply IZR_le in Hsum. rewrite mult_IZR, <- INR_IZR_INZ in Hsum.
    assert (Hlen : (0 < INR (length (x :: data)))%R)
      by (apply lt_0_INR; simpl; lia).
    apply (Rmult_le_reg_r (INR (length (x :: data)))); [exact Hlen|].
    unfold Rdiv. rewrite Rmult_assoc, Rinv_l by lra. lra.
Qed.

Lemma gust_is_at_least_speed_witness :
  exists (st' : WeatherStation.t) batch (gust speed : R),
    WeatherStation._wind_speed_sample (fun _ => 0) [3; 1]
      (WeatherStation.__init__ (fun _ => 0) true) = (st', Ok batch)
    /\ holds (WeatherStation._readings st') "wind_gust"
         (WeatherStation.Num gust) 0
    /\ (speed <= gust)%R.
Proof.
  destruct (gust_is_at_least_speed (WeatherStation.__init__ (fun _ => 0) true)
              (fun _ => 0) [3; 1])
    as (st' & batch & gust & speed & Hrun & Hg & _ & _ & Hle).
  - rewrite StationFacts.init_keys. reflexivity.
  - discriminate.
  - exists st', batch, gust, speed. split; [exact Hrun|]. split; assumption.
Defined.

Module DewPointFacts.
Import WeatherStation.
Local Open Scope R_scope.

Lemma ln_le_0 (x : R) : 0 < x -> x <= 1 -> ln x <= 0.
Proof.
  intros H0 H1. destruct (Rle_lt_or_eq_dec x 1 H1) as [Hlt|Heq].
  - rewrite <- ln_1. left. apply ln_increasing; assumption.
  - rewrite Heq, ln_1. lra.
Qed.

Lemma dew_point_ok (T h : R) :
  -257.14 < T -> 0 < h -> h <= 100 ->
  dew_point T h
  = Ok (257.14 * (ln (h / 100) + 18.678 * T / (257.14 + T))
        / (18.678 - (ln (h / 100) + 18.678 * T / (257.14 + T))))
  /\ 0 < 18.678 - (ln (h / 100) + 18.678 * T / (257.14 + T)).
Proof.
  intros HT Hh0 Hh1.
  assert (HL : ln (h / 100) <= 0) by (apply ln_le_0; lra).
  assert (Hq : 18.678 - 18.678 * T / (257.14 + T)
               = 18.678 * 257.14 / (257.14 + T)) by (field; lra).
  assert (Hpos : 0 < 18.678 * 257.14 / (257.14 + T)).
  { apply Rdiv_lt_0_compat; lra. }
  assert (Hden : 0 < 18.678 - (ln (h / 100) + 18.678 * T / (257.14 + T)))
    by lra.
  split; [|exact Hden].
  unfold dew_point, leb, fdiv, mbind, result_bind.
  destruct (Rle_dec (h / 100) 0) as [H|_]; [lra|]. cbn [bind].
  destruct (Req_dec_T (257.14 + T) 0) as [H|_]; [lra|]. cbn [bind].
  destruct (Req_dec_T _ 0) as [H|_]; [lra|]. reflexivity.
Qed.

End DewPointFacts.

(** X11: [dew_point] for a temperature above -257.14 degrees.  For a
    relative humidity in (0, 100] it returns a value, the value never
    exceeds the temperature, and at 100 percent it is the temperature.  A
    humidity of zero or less raises [ValueError] (from [math.log]) whatever
    the temperature, and a temperature of exactly -257.14 raises
    [ZeroDivisionError]. *)
Theorem dew_point_is_at_most_the_temperature (T h : R) :
  (-257.14 < T)%R ->
  ((0 < h)%R -> (h <= 100)%R ->
   exists v : R,
     WeatherStation.dew_point T h = Ok v
     /\ (v <= T)%R
     /\ (h = 100%R -> v = T))
  /\ (forall T' : R,
        (h <= 0)%R -> WeatherStation.dew_point T' h = Raise ValueError)
  /\ ((0 < h)%R ->
      WeatherStation.dew_point (-257.14)%R h = Raise ZeroDivisionError).
Proof.
  intros HT. split; [|split].
  - intros Hh0 Hh1.
    destruct (DewPointFacts.dew_point_ok T h HT Hh0 Hh1) as [Hv Hden].
    eexists. split; [exact Hv|].
    assert (HL : (ln (h / 100) <= 0)%R)
      by (apply DewPointFacts.ln_le_0; lra).
    set (L := ln (h / 100)) in *.
    set (q := (18.678 * T / (257.14 + T))%R) in *.
    assert (Hq : (q * (257.14 + T) = 18.678 * T)%R)
      by (unfold q; field; lra).
    split.
    + apply (Rmult_le_reg_r (18.678 - (L + q))); [exact Hden|].
      unfold Rdiv at 1. rewrite Rmult_assoc, Rinv_l by lra. nra.
    + intros Hh. assert (HL0 : L = 0%R).
      { unfold L. rewrite Hh. replace (100 / 100)%R with 1%R by field.
        apply ln_1. }
      rewrite HL0 in *. unfold q. field. split; lra.
  - intros T' Hh. unfold WeatherStation.dew_point, WeatherStation.leb.
    destruct (Rle_dec (h / 100) 0) as [_|H]; [reflexivity|lra].
  - intros Hh.
    unfold WeatherStation.dew_point, WeatherStation.leb, WeatherStation.fdiv,
      mbind, result_bind.
    destruct (Rle_dec (h / 100) 0) as [H|_]; [lra|]. cbn [bind].
    destruct (Req_dec_T (257.14 + -257.14) 0) as [_|H]; [reflexivity|lra].
Qed.

Lemma dew_point_is_at_most_the_temperature_witness :
  exists v : R,
    WeatherStation.dew_point 20 100 = Ok v /\ (v <= 20)%R.
Proof.
  destruct (proj1 (dew_point_is_at_most_the_temperature 20 100 ltac:(lra)))
    as (v & Hv & Hle & _).
  - lra.
  - lra.
  - exists v. split; assumption.
Defined.

Module BmeFacts.
Import WeatherStation.

Lemma stamped_ok (data : list bme280_reading) (latest : bme280_reading)
    (v : pyval) :
  last data = Some latest ->
  stamped data v = Ok (v, Some (bme_timestamp latest)).
Proof.
  intros H. unfold stamped, last_item, mbind, result_bind. rewrite H.
  reflexivity.
Qed.

Lemma last_item_ok {A : Type} (data : list A) (latest : A) :
  last data = Some latest -> last_item data = Ok latest.
Proof. intros H. unfold last_item. rewrite H. reflexivity. Qed.

Lemma air_keys_are_reading_keys : air_keys ⊆ reading_keys.
Proof. apply (bool_decide_unpack _). vm_compute. exact I. Qed.

End BmeFacts.

(** X12: [_bme280_sample] when every reduction succeeds, for a store that
    has the reading keys.  It writes the six air readings (humidity and
    pressure rounded to integers, temperature and dew point to halves, the
    two trends to one decimal), stamps each with the timestamp of the
    latest sample, leaves every other reading as it was, and hands the
    listener a batch of exactly those six keys holding the readings just
    written. *)
Theorem air_batch_has_the_six_readings
    (polyfit : list R -> list R -> nat -> list R) (st : WeatherStation.t)
    (data : list WeatherStation.bme280_reading)
    (latest : WeatherStation.bme280_reading) (pt tt dew : R) :
  reading_keys ⊆ dom (WeatherStation._readings st) ->
  WeatherStation.listener st = true ->
  last data = Some latest ->
  WeatherStation.trend_per_hour polyfit WeatherStation.AIR_SAMPLE_INTERVAL
    (map WeatherStation.pressure data) = Ok pt ->
  WeatherStation.trend_per_hour polyfit WeatherStation.AIR_SAMPLE_INTERVAL
    (map WeatherStation.temperature data) = Ok tt ->
  WeatherStation.dew_point (WeatherStation.temperature latest)
    (WeatherStation.humidity latest) = Ok dew ->
  exists (st' : WeatherStation.t)
         (batch : gmap string (SensorReading.t WeatherStation.pyval)),
    WeatherStation._bme280_sample polyfit data st = (st', Ok (Some batch))
    /\ dom batch = air_keys
    /\ (forall k, k ∈ air_keys ->
                  batch !! k = WeatherStation._readings st' !! k)
    /\ (forall k, k ∉ air_keys ->
                  WeatherStation._readings st' !! k
                  = WeatherStation._readings st !! k)
    /\ (let ts := WeatherStation.bme_timestamp latest in
        holds batch "humidity"
          (WeatherStation.Num
             (IZR (builtins.round (WeatherStation.humidity latest)))) ts
        /\ holds batch "pressure"
             (WeatherStation.Num
                (IZR (builtins.round (WeatherStation.pressure latest)))) ts
        /\ holds batch "pressure-trend"
             (WeatherStation.Num (builtins.round1 pt)) ts
        /\ holds batch "temperature"
             (WeatherStation.Num
                (IZR (builtins.round (WeatherStation.temperature latest * 2))
                 / 2)%R) ts
        /\ holds batch "temperature-trend"
             (WeatherStation.Num (builtins.round1 tt)) ts
        /\ holds batch "dew_point"
             (WeatherStation.Num (IZR (builtins.round (dew * 2)) / 2)%R) ts).
Proof.
  intros Hkeys Hl Hlast Hpt Htt Hdew.
  assert (Hin : forall k, k ∈ reading_keys ->
                          k ∈ dom (WeatherStation._readings st))
    by (intros k Hk; apply Hkeys, Hk).
  unfold WeatherStation._bme280_sample, mbind, WeatherStation.M_bind,
    WeatherStation.and_then.
  rewrite Hpt, Htt, (BmeFacts.last_item_ok _ _ Hlast).
  unfold result_bind. cbn [bind]. rewrite Hdew. cbn [bind].
  rewrite !(BmeFacts.stamped_ok _ _ _ Hlast).
  do 6 (rewrite CallbackFacts.update_ok
          by (rewrite ?CallbackFacts.written_dom; apply Hin;
              unfold reading_keys; set_solver)).
  unfold WeatherStation._publish.
  rewrite !CallbackFacts.written_listener, Hl.
  eexists. eexists. split; [reflexivity|].
  fold air_keys.
  split; [|split; [|split]].
  - rewrite StationFacts.filter_keys, !CallbackFacts.written_dom.
    apply set_eq. intros k. rewrite elem_of_intersection.
    split; [intros [_ Hk]; exact Hk|].
    intros Hk. split; [|exact Hk]. apply Hin.
    apply BmeFacts.air_keys_are_reading_keys. exact Hk.
  - intros k Hk.
    destruct (WeatherStation._readings _ !! k) as [r|] eqn:E.
    + apply map_lookup_filter_Some. split; [exact E|exact Hk].
    + apply map_lookup_filter_None. left. exact E.
  - intros k Hk.
    rewrite !CallbackFacts.written_other; [reflexivity|..];
      intros <-; apply Hk; unfold air_keys; set_solver.
  - cbv zeta.
    repeat split;
      (apply CallbackFacts.holds_filter; [unfold air_keys; set_solver|]);
      repeat (apply CallbackFacts.holds_other; [discriminate|]);
      apply CallbackFacts.written_holds;
      rewrite ?CallbackFacts.written_dom; apply Hin;
      unfold reading_keys; set_solver.
Qed.

Lemma air_batch_has_the_six_readings_witness :
  let sample := WeatherStation.Bme280 20 100 1013 7 in
  exists (st' : WeatherStation.t)
         (batch : gmap string (SensorReading.t WeatherStation.pyval)),
    WeatherStation._bme280_sample exact_polyfit [sample]
      (WeatherStation.__init__ (fun _ => 0) true) = (st', Ok (Some batch))
    /\ dom batch = air_keys.
Proof.
  intros sample.
  destruct (proj1 (dew_point_is_at_most_the_temperature 20 100 ltac:(lra))
              ltac:(lra) ltac:(lra)) as (dew & Hdew & _).
  destruct (air_batch_has_the_six_readings exact_polyfit
              (WeatherStation.__init__ (fun _ => 0) true) [sample] sample
              (0 * 3600 / Q2R (total_seconds
                                 WeatherStation.AIR_SAMPLE_INTERVAL))%R
              (0 * 3600 / Q2R (total_seconds
                                 WeatherStation.AIR_SAMPLE_INTERVAL))%R
              dew)
    as (st' & batch & Hrun & Hdom & _).
  - rewrite StationFacts.init_keys. reflexivity.
  - reflexivity.
  - reflexivity.
  - reflexivity.
  - reflexivity.
  - exact Hdew.
  - exists st', batch. split; assumption.
Defined.

Module DirectionFacts.
Import WeatherStation.
Local Open Scope R_scope.

Lemma sum_repeat (f : R -> R) (a : R) (n : nat) :
  sum_R (map f (repeat a n)) = INR n * f a.
Proof.
  unfold sum_R. induction n as [|n IH].
  - simpl. lra.
  - cbn [repeat map fold_right]. rewrite IH, S_INR. lra.
Qed.

Lemma means_of_repeat (a : R) (n : nat) :
  (0 < n)%nat ->
  mean_sin (repeat a n) = sin (math.radians a)
  /\ mean_cos (repeat a n) = cos (math.radians a).
Proof.
  intros Hn. assert (0 < INR n) by (apply lt_0_INR; exact Hn).
  unfold mean_sin, mean_cos. rewrite !sum_repeat, repeat_length.
  split; field; lra.
Qed.

Lemma degrees_radians (a : R) : math.degrees (math.radians a) = a.
Proof.
  unfold math.degrees, math.radians. pose proof PI_RGT_0. field. lra.
Qed.

Lemma arc_in_quadrant (y : R) :
  - (PI / 2) < y < PI / 2 ->
  math.degrees (atan (sin y / cos y)) = math.degrees y.
Proof.
  intros Hy. change (sin y / cos y) with (tan y).
  rewrite atan_tan by exact Hy. reflexivity.
Qed.

Lemma degrees_plus (x y : R) :
  math.degrees (x + y) = math.degrees x + math.degrees y.
Proof. unfold math.degrees. ring. Qed.

Lemma degrees_PI : math.degrees PI = 180.
Proof. unfold math.degrees. pose proof PI_RGT_0. field. lra. Qed.

Lemma shifted_PI (x : R) :
  sin x / cos x = sin (x - PI) / cos (x - PI).
Proof.
  rewrite sin_minus, cos_minus, sin_PI, cos_PI.
  replace (sin x * -1 - cos x * 0) with (- sin x) by ring.
  replace (cos x * -1 + sin x * 0) with (- cos x) by ring.
  destruct (Req_dec (cos x) 0) as [E|E].
  - rewrite E. unfold Rdiv. rewrite Ropp_0, Rinv_0. ring.
  - field. exact E.
Qed.

Lemma shifted_2PI (x : R) :
  sin (x - 2 * PI) = sin x /\ cos (x - 2 * PI) = cos x.
Proof.
  rewrite sin_minus, cos_minus, sin_2PI, cos_2PI. split; ring.
Qed.

(** What [average_angles] selects for a unit vector of direction [x]. *)
Lemma selected_of_direction (x : R) :
  0 <= x < 2 * PI -> selected (sin x) (cos x) = math.degrees x.
Proof.
  intros [H0 H2]. pose proof PI_RGT_0 as Hpi.
  pose proof (CircularMeanFacts.selected_cases (sin x) (cos x))
    as (_ & C1 & C2 & C3 & C4).
  destruct (Rtotal_order x (PI / 2)) as [Hlt|[Heq|Hgt]].
  - (* first quadrant *)
    assert (Hc : 0 < cos x) by (apply cos_gt_0; lra).
    destruct (Req_dec x 0) as [Hx0|Hx0].
    + subst x. destruct (C4 Hc sin_0) as [-> _].
      unfold math.degrees. ring.
    + assert (Hs : 0 < sin x) by (apply sin_gt_0; lra).
      rewrite (C1 Hs (Rlt_le _ _ Hc)). unfold arc_of.
      destruct (Req_dec_T (cos x) 0); [lra|].
      apply arc_in_quadrant. lra.
  - (* straight up *)
    subst x. rewrite sin_PI2, cos_PI2 in *.
    rewrite (C1 ltac:(lra) ltac:(lra)). unfold arc_of.
    destruct (Req_dec_T 0 0); [|lra].
    unfold math.degrees. field. lra.
  - destruct (Rtotal_order x (3 * (PI / 2))) as [Hlt|[Heq|Hgt']].
    + (* second and third quadrants *)
      assert (Hc : cos x < 0) by (apply cos_lt_0; lra).
      rewrite (C2 (Rlt_le _ _ Hc) ltac:(intros [_ E]; lra)). unfold arc_of.
      destruct (Req_dec_T (cos x) 0); [lra|].
      rewrite shifted_PI, arc_in_quadrant by lra.
      replace x with ((x - PI) + PI) at 2 by ring.
      rewrite degrees_plus, degrees_PI. reflexivity.
    + (* straight down *)
      subst x. rewrite sin_3PI2, cos_3PI2 in *.
      rewrite (C2 ltac:(lra) ltac:(intros [E _]; lra)). unfold arc_of.
      destruct (Req_dec_T 0 0); [|lra].
      unfold math.degrees. field. lra.
    + (* fourth quadrant *)
      destruct (shifted_2PI x) as [Es Ec].
      assert (Hc : 0 < cos x) by (rewrite <- Ec; apply cos_gt_0; lra).
      assert (Hs : sin x < 0) by (apply sin_lt_0; lra).
      rewrite (C3 Hc Hs). unfold arc_of.
      destruct (Req_dec_T (cos x) 0); [lra|].
      rewrite <- Es, <- Ec, arc_in_quadrant by lra.
      replace x with ((x - 2 * PI) + (PI + PI)) at 2 by ring.
      rewrite !degrees_plus, degrees_PI. ring.
Qed.

End DirectionFacts.

(** X13: the circular mean of a steady wind is its direction: for every
    angle [a] in [[0, 360)] and every non-empty window whose samples all
    equal [a], [average_angles] returns [a]. *)
Theorem steady_direction_is_its_own_mean (a : R) (n : nat) :
  (0 <= a < 360)%R -> (0 < n)%nat ->
  WeatherStation.average_angles (repeat a n) = Ok a.
Proof.
  intros Ha Hn.
  rewrite CircularMeanFacts.average_angles_nonempty
    by (destruct n; [lia|discriminate]).
  destruct (DirectionFacts.means_of_repeat a n Hn) as [-> ->].
  rewrite DirectionFacts.selected_of_direction.
  - rewrite DirectionFacts.degrees_radians. reflexivity.
  - unfold math.radians. pose proof PI_RGT_0.
    split; [|replace (2 * PI)%R with (360 * (PI / 180))%R by field]; nra.
Qed.

Lemma steady_direction_is_its_own_mean_witness :
  WeatherStation.average_angles (repeat 202.5%R 3) = Ok 202.5%R.
Proof.
  apply steady_direction_is_its_own_mean; [lra|lia].
Defined.

Module SteadyChangeFacts.
Local Open Scope R_scope.

Lemma sum_affine (a k : R) (xs : list R) :
  sum_R (map (fun x => a + k * x) xs) = INR (length xs) * a + k * sum_R xs.
Proof.
  unfold sum_R. induction xs as [|x xs IH].
  - simpl. lra.
  - cbn [map fold_right length]. rewrite IH, S_INR. lra.
Qed.

Lemma dot_affine (a k : R) (xs : list R) :
  dot xs (map (fun x => a + k * x) xs) = a * sum_R xs + k * dot xs xs.
Proof.
  unfold dot, sum_R. induction xs as [|x xs IH].
  - simpl. lra.
  - cbn [map zip_with fold_right]. rewrite IH. lra.
Qed.

Lemma slope_of_affine (a k : R) (n : nat) :
  (2 <= n)%nat ->
  lsq_slope (WeatherStation.range n)
    (map (fun x => a + k * x) (WeatherStation.range n)) = k.
Proof.
  intros Hn. pose proof (LeastSquaresFacts.range_det_pos n Hn) as Hd.
  unfold lsq_slope. rewrite dot_affine, sum_affine.
  rewrite LeastSquaresFacts.range_length in *.
  set (sx := sum_R (WeatherStation.range n)) in *.
  set (sxx := dot (WeatherStation.range n) (WeatherStation.range n)) in *.
  field. lra.
Qed.

End SteadyChangeFacts.

(** X15: with [numpy.polyfit] returning the least-squares line, the trend
    of a series that changes by the same step [k] at every sample
    ([a, a + k, a + 2k, ...], at least two samples) is exactly [k] per
    sample, that is [k * 3600 / interval_seconds] per hour, whatever the
    level [a]; a constant series has trend 0. *)
Theorem trend_of_a_steady_change
    (polyfit : list R -> list R -> nat -> list R) (interval : timedelta)
    (a k : R) (n : nat) :
  (forall xs ys : list R,
     length xs = length ys -> (2 <= length xs)%nat ->
     polyfit xs ys 1%nat = [lsq_slope xs ys; lsq_intercept xs ys]) ->
  (2 <= n)%nat ->
  WeatherStation.trend_per_hour polyfit interval
    (map (fun i => (a + k * INR i)%R) (seq 0 n))
  = Ok (k * 3600 / Q2R (total_seconds interval))%R
  /\ WeatherStation.trend_per_hour polyfit interval (repeat a n)
     = Ok (0 * 3600 / Q2R (total_seconds interval))%R.
Proof.
  intros Hfit Hn.
  assert (Hseries : forall k' : R,
    WeatherStation.trend_per_hour polyfit interval
      (map (fun i => (a + k' * INR i)%R) (seq 0 n))
    = Ok (k' * 3600 / Q2R (total_seconds interval))%R).
  { intros k'.
    unfold WeatherStation.trend_per_hour, WeatherStation._trend.
    rewrite length_map, length_seq.
    destruct (Nat.leb_spec n 1) as [H|_]; [lia|].
    rewrite Hfit by (rewrite ?LeastSquaresFacts.range_length, ?length_map,
                       ?length_seq; lia).
    cbn [index nth_error mbind result_bind bind].
    replace (map (fun i => (a + k' * INR i)%R) (seq 0 n))
      with (map (fun x => (a + k' * x)%R) (WeatherStation.range n))
      by (unfold WeatherStation.range; rewrite map_map; reflexivity).
    rewrite SteadyChangeFacts.slope_of_affine by exact Hn. reflexivity. }
  split; [apply Hseries|].
  rewrite <- (Hseries 0%R). f_equal.
  clear. generalize 0%nat. induction n as [|n IH]; intros s; [reflexivity|].
  cbn [repeat seq map]. rewrite <- IH. f_equal. lra.
Qed.

Lemma trend_of_a_steady_change_witness :
  WeatherStation.trend_per_hour exact_polyfit (seconds 60)
    (map (fun i => (1013 + 0.5 * INR i)%R) (seq 0 4))
  = Ok (0.5 * 3600 / Q2R (total_seconds (seconds 60)))%R.
Proof.
  apply (trend_of_a_steady_change exact_polyfit (seconds 60) 1013 0.5 4).
  - intros xs ys _ _. reflexivity.
  - lia.
Defined.

(** X16: a humidity reading of zero or less stops [_bme280_sample]
    half-way.  For a store that has the reading keys and a window whose
    latest sample has such a humidity, the callback raises [ValueError]
    (from [math.log] in [dew_point]) after it has written humidity,
    pressure, temperature and the two trends; the dew point keeps its
    previous reading and no batch is emitted. *)
Theorem bad_humidity_stops_before_dew_point
    (polyfit : list R -> list R -> nat -> list R) (st : WeatherStation.t)
    (data : list WeatherStation.bme280_reading)
    (latest : WeatherStation.bme280_reading) (pt tt : R) :
  reading_keys ⊆ dom (WeatherStation._readings st) ->
  last data = Some latest ->
  (WeatherStation.humidity latest <= 0)%R ->
  WeatherStation.trend_per_hour polyfit WeatherStation.AIR_SAMPLE_INTERVAL
    (map WeatherStation.pressure data) = Ok pt ->
  WeatherStation.trend_per_hour polyfit WeatherStation.AIR_SAMPLE_INTERVAL
    (map WeatherStation.temperature data) = Ok tt ->
  exists st' : WeatherStation.t,
    WeatherStation._bme280_sample polyfit data st = (st', Raise ValueError)
    /\ WeatherStation._readings st' !! "dew_point"
       = WeatherStation._readings st !! "dew_point"
    /\ (let ts := WeatherStation.bme_timestamp latest in
        holds (WeatherStation._readings st') "humidity"
          (WeatherStation.Num
             (IZR (builtins.round (WeatherStation.humidity latest)))) ts
        /\ holds (WeatherStation._readings st') "pressure"
             (WeatherStation.Num
                (IZR (builtins.round (WeatherStation.pressure latest)))) ts
        /\ holds (WeatherStation._readings st') "pressure-trend"
             (WeatherStation.Num (builtins.round1 pt)) ts
        /\ holds (WeatherStation._readings st') "temperature"
             (WeatherStation.Num
                (IZR (builtins.round (WeatherStation.temperature latest * 2))
                 / 2)%R) ts
        /\ holds (WeatherStation._readings st') "temperature-trend"
             (WeatherStation.Num (builtins.round1 tt)) ts).
Proof.
  intros Hkeys Hlast Hh Hpt Htt.
  assert (Hin : forall k, k ∈ reading_keys ->
                          k ∈ dom (WeatherStation._readings st))
    by (intros k Hk; apply Hkeys, Hk).
  assert (Hdew : WeatherStation.dew_point (WeatherStation.temperature latest)
                   (WeatherStation.humidity latest) = Raise ValueError).
  { unfold WeatherStation.dew_point, WeatherStation.leb.
    destruct (Rle_dec (WeatherStation.humidity latest / 100) 0) as [_|H];
      [reflexivity|lra]. }
  unfold WeatherStation._bme280_sample, mbind, WeatherStation.M_bind,
    WeatherStation.and_then.
  rewrite Hpt, Htt, (BmeFacts.last_item_ok _ _ Hlast).
  unfold result_bind. cbn [bind]. rewrite Hdew. cbn [bind].
  rewrite !(BmeFacts.stamped_ok _ _ _ Hlast).
  do 5 (rewrite CallbackFacts.update_ok
          by (rewrite ?CallbackFacts.written_dom; apply Hin;
              unfold reading_keys; set_solver)).
  rewrite CallbackFacts.update_raise
    by (rewrite ?CallbackFacts.written_dom; apply Hin;
        unfold reading_keys; set_solver).
  eexists. split; [reflexivity|]. split.
  - rewrite !CallbackFacts.written_other by discriminate. reflexivity.
  - cbv zeta.
    repeat split;
      repeat (apply CallbackFacts.holds_other; [discriminate|]);
      apply CallbackFacts.written_holds;
      rewrite ?CallbackFacts.written_dom; apply Hin;
      unfold reading_keys; set_solver.
Qed.

Lemma bad_humidity_stops_before_dew_point_witness :
  let sample := WeatherStation.Bme280 20 0 1013 7 in
  exists st' : WeatherStation.t,
    WeatherStation._bme280_sample exact_polyfit [sample]
      (WeatherStation.__init__ (fun _ => 0) true) = (st', Raise ValueError).
Proof.
  intros sample.
  destruct (bad_humidity_stops_before_dew_point exact_polyfit
              (WeatherStation.__init__ (fun _ => 0) true) [sample] sample
              (0 * 3600 / Q2R (total_seconds
                                 WeatherStation.AIR_SAMPLE_INTERVAL))%R
              (0 * 3600 / Q2R (total_seconds
                                 WeatherStation.AIR_SAMPLE_INTERVAL))%R)
    as (st' & Hrun & _).
  - rewrite StationFacts.init_keys. reflexivity.
  - reflexivity.
  - simpl. lra.
  - reflexivity.
  - reflexivity.
  - exists st'. exact Hrun.
Defined.

Module StoreFacts.
Import mqtt.

Section Facts.
Context {V : Type} (value_eqb : V -> V -> bool).

Local Abbreviation reading := (SensorReading.t V).

Lemma listen_all_cons (g : @globals V) (b : list (string * reading))
    (bs : list (list (string * reading))) :
  listen_all value_eqb g (b :: bs)
  = ((listen_all value_eqb (listener value_eqb g b).1 bs).1,
     (listener value_eqb g b).2
     ++ (listen_all value_eqb (listener value_eqb g b).1 bs).2).
Proof.
  simpl. destruct (listener value_eqb g b) as [g1 out1]. simpl.
  destruct (listen_all value_eqb g1 bs) as [g2 out2]. reflexivity.
Qed.

(** The entry of [key] after one iteration of the loop on [key]. *)
Lemma body_data_own (g : @globals V) (key : string) (r : reading) :
  data (listener_body value_eqb g key r).1 !! key
  = match data g !! key with
    | None => Some (adopted r)
    | Some known =>
        match SensorReading.value known with
        | None => Some known
        | Some v =>
            if same_value value_eqb (SensorReading.value r) v
            then Some known
            else Some (SensorReading.Make (SensorReading.value r)
                         (SensorReading.timestamp r)
                         (SensorReading.unit known))
        end
    end.
Proof.
  unfold listener_body.
  destruct (data g !! key) as [known|] eqn:E.
  - destruct (SensorReading.value known) as [v|] eqn:Ev.
    + destruct (same_value value_eqb (SensorReading.value r) v).
      * simpl. exact E.
      * rewrite ListenerFacts.forward_data. simpl.
        rewrite lookup_insert_eq. reflexivity.
    + rewrite ListenerFacts.forward_data. exact E.
  - rewrite ListenerFacts.forward_data. simpl.
    rewrite lookup_insert_eq. reflexivity.
Qed.

(** A stored [None] is never replaced, and it is what gets published. *)
Lemma body_stuck (g : @globals V) (key k : string) (r known : reading) :
  data g !! key = Some known -> SensorReading.value known = None ->
  data (listener_body value_eqb g k r).1 !! key = Some known
  /\ Forall (fun m => forwards key m = true -> body m = Value None)
       (listener_body value_eqb g k r).2.
Proof.
  intros Hk Hv. destruct (decide (k = key)) as [->|Hne].
  - rewrite body_data_own, Hk, Hv. split; [reflexivity|].
    unfold listener_body. rewrite Hk, Hv. unfold forward. rewrite Hk. simpl.
    rewrite Hv.
    destruct (timestamp g); repeat constructor; simpl; try discriminate.
  - destruct (ListenerFacts.body_other value_eqb g key k r Hne) as [H0 Hd].
    split; [rewrite Hd; exact Hk|].
    apply Forall_forall. intros m Hm Hf. exfalso.
    unfold times_forwarded in H0.
    apply length_zero_iff_nil in H0.
    assert (Hin : In m (List.filter (forwards key)
                          (listener_body value_eqb g k r).2)).
    { apply filter_In. split; [apply list_elem_of_In; exact Hm|exact Hf]. }
    rewrite H0 in Hin. exact Hin.
Qed.

Lemma listener_stuck (rs : list (string * reading)) (g : @globals V)
    (key : string) (known : reading) :
  data g !! key = Some known -> SensorReading.value known = None ->
  data (listener value_eqb g rs).1 !! key = Some known
  /\ Forall (fun m => forwards key m = true -> body m = Value None)
       (listener value_eqb g rs).2.
Proof.
  revert g. induction rs as [|[k r] rs IH]; intros g Hk Hv.
  - split; [exact Hk|constructor].
  - rewrite ListenerFacts.listener_cons. simpl fst. simpl snd.
    destruct (body_stuck g key k r known Hk Hv) as [Hk1 Hout1].
    destruct (IH _ Hk1 Hv) as [Hk2 Hout2].
    split; [exact Hk2|]. apply Forall_app. split; assumption.
Qed.

Lemma listen_all_stuck (bs : list (list (string * reading)))
    (g : @globals V) (key : string) (known : reading) :
  data g !! key = Some known -> SensorReading.value known = None ->
  data (listen_all value_eqb g bs).1 !! key = Some known
  /\ Forall (fun m => forwards key m = true -> body m = Value None)
       (listen_all value_eqb g bs).2.
Proof.
  revert g. induction bs as [|b bs IH]; intros g Hk Hv.
  - split; [exact Hk|constructor].
  - rewrite listen_all_cons. simpl fst. simpl snd.
    destruct (listener_stuck b g key known Hk Hv) as [Hk1 Hout1].
    destruct (IH _ Hk1 Hv) as [Hk2 Hout2].
    split; [exact Hk2|]. apply Forall_app. split; assumption.
Qed.

End Facts.
End StoreFacts.

(** X17: a key whose stored value is [None] stays so for ever.  Line 18
    of [mqtt.py] skips the update when the stored value is [None], and no
    other branch applies: whatever batches follow, the stored reading of
    such a key is never replaced, every message that forwards the key
    carries [None], and each batch that holds the key forwards it once. *)
Theorem stored_none_is_never_replaced {V : Type}
    (value_eqb : V -> V -> bool) (g : mqtt.globals) (key : string)
    (known : SensorReading.t V) :
  mqtt.data g !! key = Some known ->
  SensorReading.value known = None ->
  (forall batches : list (list (string * SensorReading.t V)),
     mqtt.data (mqtt.listen_all value_eqb g batches).1 !! key = Some known
     /\ Forall (fun m => mqtt.forwards key m = true ->
                         mqtt.body m = mqtt.Value None)
          (mqtt.listen_all value_eqb g batches).2)
  /\ (forall (readings : list (string * SensorReading.t V))
             (reading : SensorReading.t V),
        NoDup (map fst readings) -> (key, reading) ∈ readings ->
        mqtt.times_forwarded key (mqtt.listener value_eqb g readings).2
        = 1%nat).
Proof.
  intros Hk Hv. split.
  - intros batches. apply StoreFacts.listen_all_stuck; assumption.
  - intros readings reading Hnd Hin.
    rewrite (ListenerFacts.listener_forwards value_eqb readings g key reading
               Hnd Hin).
    unfold mqtt.unchanged. rewrite Hk, Hv. reflexivity.
Qed.

Lemma stored_none_is_never_replaced_witness :
  let g := {| mqtt.data := {[ "wind_deg"%string :=
                              SensorReading.Make (None : option Z) 0 None ]};
              mqtt.timestamp := None |} in
  mqtt.data (mqtt.listen_all Z.eqb g
               [[("wind_deg"%string, reading_at 270 5)]]).1 !! "wind_deg"
  = Some (SensorReading.Make None 0 None).
Proof.
  intros g.
  apply (proj1 (stored_none_is_never_replaced Z.eqb g "wind_deg"
                  (SensorReading.Make None 0 None) eq_refl eq_refl)).
Defined.

Module BatchFacts.
Import mqtt.

Section Facts.
Context {V : Type} (value_eqb : V -> V -> bool).

Local Abbreviation reading := (SensorReading.t V).

Lemma body_dom (g : @globals V) (k : string) (r : reading) :
  dom (data (listener_body value_eqb g k r).1) = {[k]} ∪ dom (data g).
Proof.
  unfold listener_body.
  destruct (data g !! k) as [known|] eqn:E.
  - assert (Hk : {[k]} ∪ dom (data g) = dom (data g)).
    { apply subseteq_union_1_L, singleton_subseteq_l.
      apply elem_of_dom. eexists. exact E. }
    destruct (SensorReading.value known) as [v|].
    + destruct (same_value value_eqb (SensorReading.value r) v).
      * simpl. symmetry. exact Hk.
      * rewrite ListenerFacts.forward_data. simpl. apply dom_insert_L.
    + rewrite ListenerFacts.forward_data. symmetry. exact Hk.
  - rewrite ListenerFacts.forward_data. simpl. apply dom_insert_L.
Qed.

Lemma listener_dom (rs : list (string * reading)) (g : @globals V) :
  dom (data (listener value_eqb g rs).1)
  = dom (data g) ∪ list_to_set (map fst rs).
Proof.
  revert g. induction rs as [|[k r] rs IH]; intros g.
  - simpl. rewrite union_empty_r_L. reflexivity.
  - rewrite ListenerFacts.listener_cons. simpl fst.
    rewrite IH, body_dom. cbn [map fst list_to_set].
    rewrite (union_comm_L {[k]} (dom (data g))), union_assoc_L. reflexivity.
Qed.

Lemma listener_data_own (rs : list (string * reading)) (g : @globals V)
    (key : string) (r : reading) :
  NoDup (map fst rs) -> (key, r) ∈ rs ->
  data (listener value_eqb g rs).1 !! key
  = data (listener_body value_eqb g key r).1 !! key.
Proof.
  revert g. induction rs as [|[k r0] rs IH]; intros g Hnd Hin.
  - apply elem_of_nil in Hin. contradiction.
  - simpl in Hnd. apply NoDup_cons in Hnd as [Hk Hnd].
    rewrite ListenerFacts.listener_cons. simpl fst.
    apply elem_of_cons in Hin as [Heq|Hin].
    + injection Heq as -> ->.
      apply ListenerFacts.listener_data_absent. exact Hk.
    + assert (Hne : k <> key).
      { intros ->. apply Hk. apply list_elem_of_fmap. exists (key, r).
        split; [reflexivity|exact Hin]. }
      rewrite (IH _ Hnd Hin), !StoreFacts.body_data_own.
      rewrite (proj2 (ListenerFacts.body_other value_eqb g key k r0 Hne)).
      reflexivity.
Qed.

End Facts.
End BatchFacts.

(** X18: the listener's store after a batch (a dict, so with distinct
    keys), when [==] on values is equality.  The store has gained exactly
    the keys of the batch and lost none; entries of other keys are
    untouched; a key seen for the first time is stored with the incoming
    value, timestamp and unit; a key already known keeps the unit it was
    first stored with and, unless its stored value was [None], its stored
    value after the batch is the incoming value. *)
Theorem store_follows_the_batch {V : Type} (value_eqb : V -> V -> bool)
    (g : mqtt.globals) (readings : list (string * SensorReading.t V)) :
  (forall a b : V, value_eqb a b = true -> a = b) ->
  NoDup (map fst readings) ->
  dom (mqtt.data (mqtt.listener value_eqb g readings).1)
  = dom (mqtt.data g) ∪ list_to_set (map fst readings)
  /\ (forall key : string,
        key ∉ map fst readings ->
        mqtt.data (mqtt.listener value_eqb g readings).1 !! key
        = mqtt.data g !! key)
  /\ (forall (key : string) (reading : SensorReading.t V),
        (key, reading) ∈ readings ->
        match mqtt.data g !! key with
        | None =>
            mqtt.data (mqtt.listener value_eqb g readings).1 !! key
            = Some (adopted reading)
        | Some known =>
            exists stored : SensorReading.t V,
              mqtt.data (mqtt.listener value_eqb g readings).1 !! key
              = Some stored
              /\ SensorReading.unit stored = SensorReading.unit known
              /\ (SensorReading.value known <> None ->
                  SensorReading.value stored = SensorReading.value reading)
        end).
Proof.
  intros Heqb Hnd. split; [apply BatchFacts.listener_dom|].
  split; [intros key Hk; apply ListenerFacts.listener_data_absent; exact Hk|].
  intros key reading Hin.
  rewrite (BatchFacts.listener_data_own value_eqb readings g key reading
             Hnd Hin), StoreFacts.body_data_own.
  destruct (mqtt.data g !! key) as [known|]; [|reflexivity].
  destruct (SensorReading.value known) as [v|] eqn:Ev.
  - destruct (mqtt.same_value value_eqb (SensorReading.value reading) v)
      eqn:Es.
    + exists known. split; [reflexivity|]. split; [reflexivity|].
      intros _. rewrite Ev. unfold mqtt.same_value in Es.
      destruct (SensorReading.value reading) as [a|]; [|discriminate].
      f_equal. symmetry. apply Heqb. exact Es.
    + eexists. split; [reflexivity|]. split; [reflexivity|].
      intros _. reflexivity.
  - exists known. split; [reflexivity|]. split; [reflexivity|].
    intros H. contradiction.
Qed.

Lemma store_follows_the_batch_witness :
  mqtt.data (mqtt.listener Z.eqb mqtt.initial
               [("rain_1h"%string, reading_at 3 0);
                ("rain_6h"%string, reading_at 5 0)]).1 !! "rain_24h"
  = mqtt.data (@mqtt.initial Z) !! "rain_24h".
Proof.
  apply (store_follows_the_batch Z.eqb mqtt.initial
           [("rain_1h"%string, reading_at 3 0);
            ("rain_6h"%string, reading_at 5 0)]).
  - intros a b H. apply Z.eqb_eq. exact H.
  - apply (bool_decide_unpack _). vm_compute. exact I.
  - apply (bool_decide_unpack _). vm_compute. exact I.
Defined.

Module DeliveryFacts.
Import mqtt.

Section Facts.
Context {V : Type} (value_eqb : V -> V -> bool).

Local Abbreviation reading := (SensorReading.t V).

Lemma body_unchanged (g : @globals V) (k : string) (r : reading) :
  unchanged value_eqb g k r = true ->
  (listener_body value_eqb g k r).2 = []
  /\ data (listener_body value_eqb g k r).1 = data g.
Proof.
  unfold unchanged, listener_body.
  destruct (data g !! k) as [known|]; [|discriminate].
  destruct (SensorReading.value known) as [v|]; [|discriminate].
  intros ->. split; reflexivity.
Qed.

Lemma listener_unchanged (rs : list (string * reading)) (g : @globals V) :
  Forall (fun kr => unchanged value_eqb g kr.1 kr.2 = true) rs ->
  (listener value_eqb g rs).2 = []
  /\ data (listener value_eqb g rs).1 = data g.
Proof.
  revert g. induction rs as [|[k r] rs IH]; intros g Hall.
  - split; reflexivity.
  - apply Forall_cons in Hall as [Hk Hall]. simpl in Hk.
    rewrite ListenerFacts.listener_cons. simpl fst. simpl snd.
    destruct (body_unchanged g k r Hk) as [Hout Hdata].
    destruct (IH (listener_body value_eqb g k r).1) as [Hout' Hdata'].
    { eapply Forall_impl; [exact Hall|]. intros [k' r'] H. simpl in *.
      unfold unchanged in *. rewrite Hdata. exact H. }
    rewrite Hout, Hout', Hdata', Hdata. split; reflexivity.
Qed.

Lemma body_new (g : @globals V) (k : string) (r : reading) :
  timestamp g = None -> data g !! k = None ->
  listener_body value_eqb g k r
  = ({| data := <[k := adopted r]> (data g); timestamp := None |},
     [announce (k, r)]).
Proof.
  intros Ht Hk. unfold listener_body, forward. rewrite Hk. simpl.
  rewrite Ht, lookup_insert_eq. reflexivity.
Qed.

Lemma listener_new (rs : list (string * reading)) (g : @globals V) :
  timestamp g = None -> NoDup (map fst rs) ->
  Forall (fun kr => data g !! kr.1 = None) rs ->
  (listener value_eqb g rs).2 = map announce rs
  /\ timestamp (listener value_eqb g rs).1 = None.
Proof.
  revert g. induction rs as [|[k r] rs IH]; intros g Ht Hnd Hall.
  - split; [reflexivity|exact Ht].
  - simpl in Hnd. apply NoDup_cons in Hnd as [Hk Hnd].
    apply Forall_cons in Hall as [Hnew Hall]. simpl in Hnew.
    rewrite ListenerFacts.listener_cons, (body_new g k r Ht Hnew).
    simpl fst. simpl snd.
    destruct (IH {| data := <[k := adopted r]> (data g);
                    timestamp := None |}) as [Hout Hclock];
      [reflexivity|exact Hnd| |].
    + apply Forall_forall. intros [k' r'] Hin. simpl.
      rewrite Forall_forall in Hall. specialize (Hall _ Hin). simpl in Hall.
      rewrite lookup_insert_ne; [exact Hall|].
      intros ->. apply Hk. apply list_elem_of_fmap. exists (k', r').
      split; [reflexivity|exact Hin].
    + rewrite Hout. split; [reflexivity|exact Hclock].
Qed.

End Facts.
End DeliveryFacts.

(** X19: a batch of keys the listener has never seen (a dict, so with
    distinct keys), delivered while the clock is unset, publishes exactly
    one message per reading, in batch order, carrying the incoming value;
    it publishes no clock message and leaves the clock unset.  This is the
    case of the first batch of every key. *)
Theorem new_keys_do_not_start_the_clock {V : Type}
    (value_eqb : V -> V -> bool) (g : mqtt.globals)
    (readings : list (string * SensorReading.t V)) :
  mqtt.timestamp g = None ->
  NoDup (map fst readings) ->
  Forall (fun kr => mqtt.data g !! kr.1 = None) readings ->
  (mqtt.listener value_eqb g readings).2 = map announce readings
  /\ mqtt.timestamp (mqtt.listener value_eqb g readings).1 = None
  /\ clock_payloads (mqtt.listener value_eqb g readings).2 = [].
Proof.
  intros Ht Hnd Hnew.
  destruct (DeliveryFacts.listener_new value_eqb readings g Ht Hnd Hnew)
    as [Hout Hclock].
  split; [exact Hout|]. split; [exact Hclock|].
  rewrite Hout. clear. induction readings as [|kr rs IH]; [reflexivity|].
  simpl. exact IH.
Qed.

Lemma new_keys_do_not_start_the_clock_witness :
  (mqtt.listener Z.eqb mqtt.initial
     [("wind_gust"%string, reading_at 4 0);
      ("wind_speed"%string, reading_at 2 0)]).2
  = map announce [("wind_gust"%string, reading_at 4 0);
                  ("wind_speed"%string, reading_at 2 0)].
Proof.
  apply (new_keys_do_not_start_the_clock Z.eqb mqtt.initial
           [("wind_gust"%string, reading_at 4 0);
            ("wind_speed"%string, reading_at 2 0)]).
  - reflexivity.
  - apply (bool_decide_unpack _). vm_compute. exact I.
  - repeat constructor.
Defined.

(** X20: delivering a batch a second time forwards nothing.  When [==] on
    values is reflexive, every reading of the batch has a value, and no key
    of the batch was stored with [None] before, a second delivery of the
    same batch (a dict, so with distinct keys) right after the first
    publishes no message at all and leaves the stored readings as they
    are. *)
Theorem redelivered_batch_forwards_nothing {V : Type}
    (value_eqb : V -> V -> bool) (g : mqtt.globals)
    (readings : list (string * SensorReading.t V)) :
  (forall a : V, value_eqb a a = true) ->
  NoDup (map fst readings) ->
  Forall (fun kr => SensorReading.value kr.2 <> None) readings ->
  Forall (fun kr => forall known,
            mqtt.data g !! kr.1 = Some known ->
            SensorReading.value known <> None) readings ->
  let once := (mqtt.listener value_eqb g readings).1 in
  (mqtt.listener value_eqb once readings).2 = []
  /\ mqtt.data (mqtt.listener value_eqb once readings).1 = mqtt.data once.
Proof.
  intros Hrefl Hnd Hval Hknown once.
  apply DeliveryFacts.listener_unchanged.
  apply Forall_forall. intros [k r] Hin. simpl.
  rewrite Forall_forall in Hval, Hknown.
  specialize (Hval _ Hin). specialize (Hknown _ Hin). simpl in Hval, Hknown.
  unfold mqtt.unchanged, once.
  rewrite (BatchFacts.listener_data_own value_eqb readings g k r Hnd Hin),
    StoreFacts.body_data_own.
  destruct (SensorReading.value r) as [a|] eqn:Ea; [|contradiction].
  destruct (mqtt.data g !! k) as [known|].
  - specialize (Hknown known eq_refl).
    destruct (SensorReading.value known) as [v|] eqn:Ev; [|contradiction].
    destruct (mqtt.same_value value_eqb (Some a) v) eqn:Es.
    + rewrite Ev. exact Es.
    + simpl. apply Hrefl.
  - simpl. rewrite Ea. simpl. apply Hrefl.
Qed.

Lemma redelivered_batch_forwards_nothing_witness :
  let batch := [("humidity"%string, reading_at 50 0);
                ("pressure"%string, reading_at 1013 0)] in
  (mqtt.listener Z.eqb (mqtt.listener Z.eqb mqtt.initial batch).1 batch).2
  = [].
Proof.
  intros batch.
  apply (redelivered_batch_forwards_nothing Z.eqb mqtt.initial batch).
  - intros a. apply Z.eqb_refl.
  - apply (bool_decide_unpack _). vm_compute. exact I.
  - repeat constructor; discriminate.
  - repeat constructor; intros known H; discriminate H.
Defined.

Module PayloadFacts.
Import mqtt.

Section Facts.
Context {V : Type} (value_eqb : V -> V -> bool).

Local Abbreviation reading := (SensorReading.t V).

Lemma clock_payloads_app (a b : list (@message V)) :
  clock_payloads (a ++ b) = clock_payloads a ++ clock_payloads b.
Proof. unfold clock_payloads. apply omap_app. Qed.

Lemma between_widen (g0 g g' g1 : @globals V) (p : Z) :
  clock_le (timestamp g0) (timestamp g) ->
  clock_le (timestamp g') (timestamp g1) ->
  published_between g g' p -> published_between g0 g1 p.
Proof.
  intros H0 H1 (t & Ht & Hp & Ha & Hb). exists t.
  split; [exact Ht|]. split; [exact Hp|]. split.
  - eapply ClockFacts.clock_le_trans; eassumption.
  - eapply ClockFacts.clock_le_trans; eassumption.
Qed.

Lemma between_order (g g' g'' : @globals V) (p q : Z) :
  published_between g g' p -> published_between g' g'' q -> p < q.
Proof.
  intros (t & Ht & -> & _ & Hb) (u & Hu & -> & Ha & _).
  assert (Htu : t + seconds 1 <= u).
  { destruct (timestamp g') as [m|]; simpl in *; [lia|contradiction]. }
  unfold epoch_seconds, seconds in *.
  rewrite !Z.quot_div_nonneg by lia.
  assert (t / 1000000 + 1 <= u / 1000000).
  { replace (t / 1000000 + 1) with ((t + 1 * 1000000) / 1000000)
      by (apply Z.div_add; lia).
    apply Z.div_le_mono; lia. }
  lia.
Qed.

Lemma forward_payloads (k : string) (g : @globals V) :
  (forall t, timestamp g = Some t -> 0 <= t) ->
  Forall (published_between g (forward k g).1)
    (clock_payloads (forward k g).2)
  /\ StronglySorted Z.lt (clock_payloads (forward k g).2)
  /\ (forall t, timestamp (forward k g).1 = Some t -> 0 <= t).
Proof.
  intros Hpos. unfold forward. destruct (timestamp g) as [t|] eqn:E.
  - specialize (Hpos t eq_refl). simpl. split; [|split].
    + constructor; [|constructor]. exists t. rewrite E. simpl.
      repeat split; lia.
    + repeat constructor.
    + intros t' H. injection H as <-. unfold seconds. lia.
  - simpl. split; [constructor|]. split; [constructor|].
    intros t H. rewrite E in H. discriminate.
Qed.

Lemma catch_up_nonneg (c : option Z) (ts : Z) :
  (forall t, c = Some t -> 0 <= t) -> 0 <= ts ->
  forall t, catch_up c ts = Some t -> 0 <= t.
Proof.
  intros Hc Hts t. destruct c as [t0|]; simpl.
  - destruct (t0 <? ts); intros H; injection H as <-;
      [exact Hts|apply Hc; reflexivity].
  - intros H. injection H as <-. exact Hts.
Qed.

Lemma body_payloads (g : @globals V) (k : string) (r : reading) :
  (forall t, timestamp g = Some t -> 0 <= t) ->
  0 <= SensorReading.timestamp r ->
  Forall (published_between g (listener_body value_eqb g k r).1)
    (clock_payloads (listener_body value_eqb g k r).2)
  /\ StronglySorted Z.lt (clock_payloads (listener_body value_eqb g k r).2)
  /\ (forall t, timestamp (listener_body value_eqb g k r).1 = Some t ->
                0 <= t).
Proof.
  intros Hpos Hr. unfold listener_body.
  destruct (data g !! k) as [known|].
  - destruct (SensorReading.value known) as [v|];
      [|apply forward_payloads; exact Hpos].
    destruct (same_value value_eqb (SensorReading.value r) v).
    + simpl. split; [constructor|]. split; [constructor|].
      apply catch_up_nonneg; assumption.
    + set (g1 := {| data := _; timestamp := catch_up _ _ |}).
      destruct (forward_payloads k g1) as (H1 & H2 & H3).
      { apply catch_up_nonneg; assumption. }
      split; [|split; assumption].
      eapply Forall_impl; [exact H1|]. intros p Hp.
      eapply between_widen; [|apply ClockFacts.clock_le_refl|exact Hp].
      apply ClockFacts.catch_up_le.
  - set (g1 := {| data := _; timestamp := timestamp g |}).
    destruct (forward_payloads k g1) as (H1 & H2 & H3); [exact Hpos|].
    split; [|split; assumption].
    eapply Forall_impl; [exact H1|]. intros p Hp.
    eapply between_widen; [|apply ClockFacts.clock_le_refl|exact Hp].
    apply ClockFacts.clock_le_refl.
Qed.

Lemma joined (g g1 g2 : @globals V) (a b : list Z) :
  clock_le (timestamp g) (timestamp g1) ->
  clock_le (timestamp g1) (timestamp g2) ->
  Forall (published_between g g1) a -> StronglySorted Z.lt a ->
  Forall (published_between g1 g2) b -> StronglySorted Z.lt b ->
  Forall (published_between g g2) (a ++ b)
  /\ StronglySorted Z.lt (a ++ b).
Proof.
  intros H01 H12 Ha Sa Hb Sb. split.
  - apply Forall_app. split.
    + eapply Forall_impl; [exact Ha|]. intros p Hp.
      eapply between_widen; [apply ClockFacts.clock_le_refl|exact H12|].
      exact Hp.
    + eapply Forall_impl; [exact Hb|]. intros p Hp.
      eapply between_widen; [exact H01|apply ClockFacts.clock_le_refl|].
      exact Hp.
  - apply StronglySorted_app_2; [|exact Sa|exact Sb].
    intros p q Hp Hq. rewrite Forall_forall in Ha, Hb.
    eapply between_order; [apply Ha; exact Hp|apply Hb; exact Hq].
Qed.

Lemma listener_payloads (rs : list (string * reading)) (g : @globals V) :
  (forall t, timestamp g = Some t -> 0 <= t) ->
  Forall (fun kr => 0 <= SensorReading.timestamp kr.2) rs ->
  Forall (published_between g (listener value_eqb g rs).1)
    (clock_payloads (listener value_eqb g rs).2)
  /\ StronglySorted Z.lt (clock_payloads (listener value_eqb g rs).2)
  /\ (forall t, timestamp (listener value_eqb g rs).1 = Some t -> 0 <= t).
Proof.
  revert g. induction rs as [|[k r] rs IH]; intros g Hpos Hall.
  - simpl. split; [constructor|]. split; [constructor|exact Hpos].
  - apply Forall_cons in Hall as [Hr Hall]. simpl in Hr.
    rewrite ListenerFacts.listener_cons. simpl fst. simpl snd.
    rewrite clock_payloads_app.
    destruct (body_payloads g k r Hpos Hr) as (B1 & B2 & B3).
    destruct (IH _ B3 Hall) as (L1 & L2 & L3).
    destruct (joined g _ _ _ _ (ClockFacts.body_le value_eqb g k r)
                (ClockFacts.listener_le value_eqb rs _) B1 B2 L1 L2)
      as [J1 J2].
    split; [exact J1|]. split; [exact J2|exact L3].
Qed.

Lemma listen_all_payloads (bs : list (list (string * reading)))
    (g : @globals V) :
  (forall t, timestamp g = Some t -> 0 <= t) ->
  Forall (Forall (fun kr => 0 <= SensorReading.timestamp kr.2)) bs ->
  Forall (published_between g (listen_all value_eqb g bs).1)
    (clock_payloads (listen_all value_eqb g bs).2)
  /\ StronglySorted Z.lt (clock_payloads (listen_all value_eqb g bs).2)
  /\ (forall t, timestamp (listen_all value_eqb g bs).1 = Some t -> 0 <= t).
Proof.
  revert g. induction bs as [|b bs IH]; intros g Hpos Hall.
  - simpl. split; [constructor|]. split; [constructor|exact Hpos].
  - apply Forall_cons in Hall as [Hb Hall].
    rewrite StoreFacts.listen_all_cons. simpl fst. simpl snd.
    rewrite clock_payloads_app.
    destruct (listener_payloads b g Hpos Hb) as (B1 & B2 & B3).
    destruct (IH _ B3 Hall) as (L1 & L2 & L3).
    destruct (joined g _ _ _ _ (ClockFacts.listener_le value_eqb b g)
                (ClockFacts.listen_all_le value_eqb bs _) B1 B2 L1 L2)
      as [J1 J2].
    split; [exact J1|]. split; [exact J2|exact L3].
Qed.

End Facts.
End PayloadFacts.

(** X21: the clock messages of a run are strictly increasing.  When the
    clock is unset or not before the epoch and no reading is stamped before
    the epoch, the [ws/dt] payloads (whole epoch seconds) published across
    any sequence of batches form a strictly increasing sequence: no second
    is published twice and none goes back. *)
Theorem clock_messages_strictly_increase {V : Type}
    (value_eqb : V -> V -> bool) (g : mqtt.globals)
    (batches : list (list (string * SensorReading.t V))) :
  (forall t : Z, mqtt.timestamp g = Some t -> 0 <= t) ->
  Forall (Forall (fun kr => 0 <= SensorReading.timestamp kr.2)) batches ->
  StronglySorted Z.lt
    (clock_payloads (mqtt.listen_all value_eqb g batches).2).
Proof.
  intros Hpos Hall.
  apply (PayloadFacts.listen_all_payloads value_eqb batches g Hpos Hall).
Qed.

Lemma clock_messages_strictly_increase_witness :
  StronglySorted Z.lt
    (clock_payloads
       (mqtt.listen_all Z.eqb mqtt.initial
          [[("a"%string, reading_at 1 0)];
           [("a"%string, reading_at 2 (seconds 10))];
           [("b"%string, reading_at 1 (seconds 5));
            ("c"%string, reading_at 1 (seconds 5))]]).2).
Proof.
  apply clock_messages_strictly_increase.
  - intros t H. discriminate H.
  - repeat constructor; vm_compute; discriminate.
Defined.

Module TimerFacts.
Import IntervalTimer.

Lemma imap_Qeq {A : Type} (f g : nat -> A -> Q) (l : list A) :
  (forall k x, f k x == g k x)%Q -> Forall2 Qeq (imap f l) (imap g l).
Proof.
  revert f g. induction l as [|x l IH]; intros f g H; [constructor|].
  simpl. constructor; [apply H|]. apply IH. intros k y. apply H.
Qed.

Lemma Forall2_Qeq_trans (a b c : list Q) :
  Forall2 Qeq a b -> Forall2 Qeq b c -> Forall2 Qeq a c.
Proof.
  intros Hab. revert c. induction Hab as [|x y a b Hxy _ IH]; intros c Hbc.
  - inversion Hbc. constructor.
  - inversion Hbc as [|y' z b' c' Hyz Hbc' E1 E2]. subst.
    constructor; [rewrite Hxy; exact Hyz|]. apply IH. exact Hbc'.
Qed.

Lemma loop_calls (i nr : Q) (turns : list turn) :
  calls (loop i nr turns) = length (live turns).
Proof.
  revert nr. induction turns as [|r rest IH]; intros nr; [reflexivity|].
  simpl. destruct (woken r); [reflexivity|].
  destruct (is_set r); [reflexivity|]. simpl. f_equal. apply IH.
Qed.

Lemma loop_timeouts (i nr : Q) (turns : list turn) :
  Forall2 Qeq (timeouts (loop i nr turns))
    (imap (fun k r => nr + inject_Z (Z.of_nat k) * i - now r)%Q
       (take (S (length (live turns))) turns)).
Proof.
  revert nr. induction turns as [|r rest IH]; intros nr; [constructor|].
  cbn [loop live timeouts omap].
  change (omap _ ?l) with (timeouts l).
  assert (H0 : (nr - now r == nr + inject_Z (Z.of_nat 0) * i - now r)%Q)
    by (change (inject_Z (Z.of_nat 0)) with 0%Q; Lqa.lra).
  destruct (woken r); [|destruct (is_set r)]; cbn [orb length take imap].
  - constructor; [exact H0|]. rewrite take_0. constructor.
  - constructor; [exact H0|]. rewrite take_0. constructor.
  - constructor; [exact H0|].
    eapply Forall2_Qeq_trans; [apply IH|].
    apply imap_Qeq. intros k x. unfold compose.
    rewrite Nat2Z.inj_succ, <- Z.add_1_r, inject_Z_plus.
    change (inject_Z 1) with 1%Q. Lqa.lra.
Qed.

End TimerFacts.

(** X22: the deadlines of [IntervalTimer.run] do not drift.  Whatever the
    clock reads in each turn of the loop (so however late a turn starts),
    the timeout of the wait in turn [k] (from 0) is
    [started + (k + 1) * interval - now]: the wait aims at a multiple of
    the interval after the start, and the delay of one turn is not carried
    into the next.  One call is made per turn until a turn sees the event
    set, and none after it. *)
Theorem deadlines_do_not_drift (self : IntervalTimer.t) (started : Q)
    (turns : list IntervalTimer.turn) :
  IntervalTimer.calls (IntervalTimer.run self started turns)
  = length (IntervalTimer.live turns)
  /\ Forall2 Qeq
       (IntervalTimer.timeouts (IntervalTimer.run self started turns))
       (imap (fun k r => started
                         + inject_Z (Z.of_nat (S k))
                           * IntervalTimer.interval self
                         - IntervalTimer.now r)%Q
          (take (S (length (IntervalTimer.live turns))) turns)).
Proof.
  unfold IntervalTimer.run. split; [apply TimerFacts.loop_calls|].
  eapply TimerFacts.Forall2_Qeq_trans; [apply TimerFacts.loop_timeouts|].
  apply TimerFacts.imap_Qeq. intros k r.
  rewrite Nat2Z.inj_succ, <- Z.add_1_r, inject_Z_plus.
    change (inject_Z 1) with 1%Q. Lqa.lra.
Qed.

Module LifecycleFacts.
Import Lifecycle.

Lemma tick_frame (w : world) :
  _timer (self (_tick w).1) = _timer (self w)
  /\ timers (_tick w).1 = timers w.
Proof.
  unfold _tick. destruct (_count (self w)); simpl; split; reflexivity.
Qed.

Lemma store_frame (w : world) (x : Z) :
  _timer (self (_store w x).1) = _timer (self w)
  /\ timers (_store w x).1 = timers w.
Proof.
  unfold _store. destruct (_data (self w)); simpl; split; reflexivity.
Qed.

Lemma sample_frame (w : world) :
  _timer (self (_sample w).1) = _timer (self w)
  /\ timers (_sample w).1 = timers w.
Proof.
  unfold _sample. destruct (_count (self w)) as [c|];
    [|split; reflexivity].
  pose proof (store_frame w c) as [H1 H2].
  destruct (_store w c) as [w' [u|e]]; simpl in *; split; assumption.
Qed.

Lemma cancel_raises (w : world) :
  unstoppable w ->
  (cancel w).2 = Raise AttributeError
  /\ _timer (self (cancel w).1) = _timer (self w)
  /\ timers (cancel w).1 = timers w
  /\ when_pressed (self (cancel w).1) = false.
Proof.
  intros [Hno _]. unfold cancel. simpl.
  destruct (_timer (self w)) as [[|i]|] eqn:E; simpl.
  - repeat split; assumption.
  - destruct (Hno i). reflexivity.
  - repeat split; assumption.
Qed.

Lemma exec_unstoppable (w : world) (e : event) :
  unstoppable w ->
  unstoppable (exec w e).1
  /\ (e = Cancel -> (exec w e).2 = Raise AttributeError)
  /\ length (timers (exec w e).1)
     = (length (timers w) + (if is_start e then 1 else 0))%nat.
Proof.
  intros Hw. pose proof Hw as [Hno Hrun].
  destruct e as [| | |i|]; simpl.
  - split; [|split; [discriminate|rewrite length_app; reflexivity]].
    split; [intros i; discriminate|].
    apply Forall_app. split; [exact Hrun|]. repeat constructor.
  - destruct (cancel_raises w Hw) as (Hr & Ht & Hts & _).
    split; [|split; [intros _; exact Hr|rewrite Hts; lia]].
    split; [rewrite Ht; exact Hno|rewrite Hts; exact Hrun].
  - split; [|split; [discriminate|]].
    + destruct (when_pressed (self w)); [|exact Hw].
      destruct (tick_frame w) as [Ht Hts].
      split; [rewrite Ht; exact Hno|rewrite Hts; exact Hrun].
    + destruct (when_pressed (self w)); [|simpl; lia].
      destruct (tick_frame w) as [_ ->]. lia.
  - split; [|split; [discriminate|]].
    + destruct (timers w !! i) as [tm|]; [|exact Hw].
      destruct (IntervalTimer.finished tm); exact Hw.
    + destruct (timers w !! i) as [tm|]; [|simpl; lia].
      destruct (IntervalTimer.finished tm); simpl; lia.
  - split; [|split; [discriminate|]].
    + destruct (spawned w) as [|n]; [exact Hw|].
      set (w0 := {| self := self w; timers := timers w; spawned := n;
                    handed := handed w |}).
      destruct (sample_frame w0) as [Ht Hts].
      split; [rewrite Ht; exact Hno|rewrite Hts; exact Hrun].
    + destruct (spawned w) as [|n]; [simpl; lia|].
      set (w0 := {| self := self w; timers := timers w; spawned := n;
                    handed := handed w |}).
      destruct (sample_frame w0) as [_ ->]. simpl. lia.
Qed.

Lemma run_cons (w : world) (e : event) (rest : list event) :
  run w (e :: rest)
  = ((run (exec w e).1 rest).1, (exec w e).2 :: (run (exec w e).1 rest).2).
Proof.
  simpl. destruct (exec w e) as [w1 o]. simpl.
  destruct (run w1 rest) as [w2 os]. reflexivity.
Qed.

Lemma run_unstoppable (events : list event) (w : world) :
  unstoppable w ->
  unstoppable (run w events).1
  /\ Forall2 (fun e o => e = Cancel -> o = Raise AttributeError)
       events (run w events).2
  /\ length (timers (run w events).1)
     = (length (timers w) + length (List.filter is_start events))%nat.
Proof.
  revert w. induction events as [|e rest IH]; intros w Hw.
  - simpl. split; [exact Hw|]. split; [constructor|lia].
  - rewrite run_cons. simpl fst. simpl snd.
    destruct (exec_unstoppable w e Hw) as (H1 & H2 & H3).
    destruct (IH _ H1) as (I1 & I2 & I3).
    split; [exact I1|]. split; [constructor; assumption|].
    rewrite I3, H3. simpl. destruct (is_start e); simpl; lia.
Qed.

Lemma init_shape (interval duration : timedelta) (callback : bool) (s : t) :
  __init__ interval duration callback = Ok s ->
  when_pressed s = true /\ _count s = None /\ _data s = None
  /\ _timer s = None.
Proof.
  unfold __init__.
  destruct (IntervalSampler.__init__ interval duration callback) as [b|e];
    simpl; [|discriminate].
  intros H. injection H as <-. repeat split; reflexivity.
Qed.

Lemma exec_unstarted (w : world) (e : event) :
  unstarted w -> e <> Start -> e <> Cancel ->
  unstarted (exec w e).1
  /\ (e = Press -> (exec w e).2 = Raise AttributeError).
Proof.
  intros (Hc & Hp & Hs & Ht) H1 H2.
  destruct e as [| | |i|]; simpl; try contradiction.
  - rewrite Hp. unfold _tick. rewrite Hc. simpl.
    split; [repeat split; assumption|reflexivity].
  - rewrite Ht. simpl. split; [repeat split; assumption|discriminate].
  - rewrite Hs. split; [repeat split; assumption|discriminate].
Qed.

Lemma run_unstarted (events : list event) (w : world) :
  unstarted w ->
  Forall (fun e => e <> Start /\ e <> Cancel) events ->
  Forall2 (fun e o => e = Press -> o = Raise AttributeError)
    events (run w events).2.
Proof.
  revert w. induction events as [|e rest IH]; intros w Hw Hall.
  - constructor.
  - apply Forall_cons in Hall as [[H1 H2] Hall].
    rewrite run_cons. simpl snd.
    destruct (exec_unstarted w e Hw H1 H2) as [Hw' Ho].
    constructor; [exact Ho|]. apply IH; assumption.
Qed.

Lemma store_started (w : world) (x : Z) :
  started w -> started (_store w x).1 /\ (_store w x).2 = Ok tt.
Proof.
  intros [Hc [d Hd]]. unfold _store. rewrite Hd. simpl.
  split; [|reflexivity]. split; [exact Hc|eexists; reflexivity].
Qed.

Lemma exec_started (w : world) (e : event) :
  started w ->
  started (exec w e).1 /\ (e <> Cancel -> (exec w e).2 = Ok tt).
Proof.
  intros Hw. pose proof Hw as [[c Hc] [d Hd]].
  destruct e as [| | |i|]; simpl.
  - split; [split; eexists; reflexivity|reflexivity].
  - split; [|contradiction].
    unfold cancel. simpl.
    destruct (_timer (self w)) as [[|i]|]; simpl;
      split; eexists; eassumption.
  - destruct (when_pressed (self w)); [|split; [exact Hw|reflexivity]].
    unfold _tick. rewrite Hc. simpl.
    split; [|reflexivity]. split; eexists; [reflexivity|exact Hd].
  - destruct (timers w !! i) as [tm|]; [|split; [exact Hw|reflexivity]].
    destruct (IntervalTimer.finished tm); (split; [exact Hw|reflexivity]).
  - destruct (spawned w) as [|n]; [split; [exact Hw|reflexivity]|].
    unfold _sample. simpl. rewrite Hc.
    unfold _store. simpl. rewrite Hd. simpl.
    split; [|reflexivity]. split; eexists; reflexivity.
Qed.

Lemma run_started (events : list event) (w : world) :
  started w ->
  Forall2 (fun e o => e <> Cancel -> o = Ok tt) events (run w events).2.
Proof.
  revert w. induction events as [|e rest IH]; intros w Hw.
  - constructor.
  - rewrite run_cons. simpl snd.
    destruct (exec_started w e Hw) as [Hw' Ho].
    constructor; [exact Ho|]. apply IH. exact Hw'.
Qed.

(** The first [n] samples stored once the handler is detached: the count
    that was pending, then zeros. *)
Lemma run_detached (events : list event) (w : world) (c : Z)
    (d : list Z) :
  when_pressed (self w) = false ->
  _count (self w) = Some c -> _data (self w) = Some d ->
  Forall (fun e => e <> Start) events ->
  exists n : nat,
    (n <= length (List.filter
                    (fun e => match e with Sample => true | _ => false end)
                    events))%nat
    /\ _data (self (run w events).1)
       = Some (IntervalSampler._data
                 (IntervalSampler.store_all (as_base (self w) d)
                    (take n (c :: repeat 0 n))))
    /\ _count (self (run w events).1) = Some (if n is O then c else 0)
    /\ when_pressed (self (run w events).1) = false.
Proof.
  revert w c d. induction events as [|e rest IH];
    intros w c d Hp Hc Hd Hall.
  - exists O. simpl. repeat split; try assumption. lia.
  - apply Forall_cons in Hall as [He Hall]. rewrite run_cons. simpl fst.
    destruct e as [| | |i|]; try contradiction.
    + (* cancel: the handler stays detached *)
      assert (E : exists w1, (exec w Cancel).1 = w1
                  /\ when_pressed (self w1) = false
                  /\ _count (self w1) = Some c /\ _data (self w1) = Some d
                  /\ as_base (self w1) d = as_base (self w) d).
      { eexists. split; [reflexivity|]. simpl. unfold cancel. simpl.
        destruct (_timer (self w)) as [[|i]|]; simpl;
          repeat split; assumption. }
      destruct E as (w1 & -> & Hp1 & Hc1 & Hd1 & Hb).
      destruct (IH w1 c d Hp1 Hc1 Hd1 Hall) as (n & Hn & H1 & H2 & H3).
      exists n. rewrite <- Hb. simpl. repeat split; assumption.
    + (* press: nothing is attached *)
      simpl. rewrite Hp. simpl.
      destruct (IH w c d Hp Hc Hd Hall) as (n & Hn & H1 & H2 & H3).
      exists n. repeat split; assumption.
    + (* a timer's wait runs out *)
      assert (E : exists w1, (exec w (Elapse i)).1 = w1
                  /\ self w1 = self w).
      { eexists. split; [reflexivity|]. simpl.
        destruct (timers w !! i) as [tm|]; [|reflexivity].
        destruct (IntervalTimer.finished tm); reflexivity. }
      destruct E as (w1 & -> & Hs).
      destruct (IH w1 c d) as (n & Hn & H1 & H2 & H3);
        rewrite ?Hs; try assumption.
      exists n. rewrite Hs in H1. simpl. repeat split; assumption.
    + (* a sample thread runs *)
      simpl. destruct (spawned w) as [|k].
      * simpl. destruct (IH w c d Hp Hc Hd Hall) as (n & Hn & H1 & H2 & H3).
        exists n. repeat split; try assumption. lia.
      * unfold _sample. simpl. rewrite Hc. unfold _store. simpl.
        rewrite Hd. simpl.
        set (d1 := slice_from (- _size (self w)) (d ++ [c])).
        set (w1 := with_self _ _).
        destruct (IH w1 0 d1) as (n & Hn & H1 & H2 & H3);
          try reflexivity; try assumption.
        exists (S n). split; [lia|]. split; [|split; [|exact H3]].
        -- rewrite H1. reflexivity.
        -- rewrite H2. destruct n; reflexivity.
Qed.

End LifecycleFacts.

(** X23: [cancel] never stops a sampler.  Line 71 stores the result of
    [Thread.start()], which is [None], in [self._timer]; so for a sampler
    made by [__init__] and any run of starts, cancels, presses, timer
    turns and sample threads, every [cancel] raises [AttributeError], no
    timer is ever told to finish, and every [start] has added one more
    running timer. *)
Theorem cancel_never_stops_the_timer (interval duration : timedelta)
    (callback : bool) (s : Lifecycle.t) (events : list Lifecycle.event) :
  Lifecycle.__init__ interval duration callback = Ok s ->
  Forall2 (fun e o => e = Lifecycle.Cancel -> o = Raise AttributeError)
    events (Lifecycle.run (Lifecycle.boot s) events).2
  /\ Forall (fun tm => IntervalTimer.finished tm = false)
       (Lifecycle.timers (Lifecycle.run (Lifecycle.boot s) events).1)
  /\ length (Lifecycle.timers (Lifecycle.run (Lifecycle.boot s) events).1)
     = length (List.filter Lifecycle.is_start events).
Proof.
  intros Hinit.
  destruct (LifecycleFacts.init_shape _ _ _ _ Hinit) as (_ & _ & _ & Ht).
  assert (Hw : Lifecycle.unstoppable (Lifecycle.boot s)).
  { split; [|constructor]. intros i. simpl. rewrite Ht. discriminate. }
  destruct (LifecycleFacts.run_unstoppable events _ Hw) as (H1 & H2 & H3).
  split; [exact H2|]. split; [apply H1|exact H3].
Qed.

Lemma cancel_never_stops_the_timer_witness :
  let s := Lifecycle.Make (float_seconds (seconds 3)) 20 true true
             None None None in
  let events := [Lifecycle.Start; Lifecycle.Press; Lifecycle.Cancel;
                 Lifecycle.Elapse 0; Lifecycle.Sample; Lifecycle.Start] in
  Forall2 (fun e o => e = Lifecycle.Cancel -> o = Raise AttributeError)
    events (Lifecycle.run (Lifecycle.boot s) events).2
  /\ Forall (fun tm => IntervalTimer.finished tm = false)
       (Lifecycle.timers (Lifecycle.run (Lifecycle.boot s) events).1)
  /\ length (Lifecycle.timers (Lifecycle.run (Lifecycle.boot s) events).1)
     = 2%nat.
Proof.
  intros s events.
  apply (cancel_never_stops_the_timer (seconds 3) (seconds 60) true s
           events).
  reflexivity.
Defined.

(** X24: the count exists only once the sampler is started.  [__init__]
    attaches [_tick] to the button but [_count] is first assigned by
    [start]: for a sampler made by [__init__], every press before the
    first [start] (and before any [cancel], which detaches the handler)
    raises [AttributeError] in the handler.  From a [start] on, whatever
    the state before it, no press, timer turn, sample thread or further
    [start] raises. *)
Theorem press_raises_until_started (interval duration : timedelta)
    (callback : bool) (s : Lifecycle.t)
    (before after : list Lifecycle.event) (w : Lifecycle.world) :
  Lifecycle.__init__ interval duration callback = Ok s ->
  Forall (fun e => e <> Lifecycle.Start /\ e <> Lifecycle.Cancel) before ->
  Forall2 (fun e o => e = Lifecycle.Press -> o = Raise AttributeError)
    before (Lifecycle.run (Lifecycle.boot s) before).2
  /\ Forall2 (fun e o => e <> Lifecycle.Cancel -> o = Ok tt)
       after (Lifecycle.run (Lifecycle.start w) after).2.
Proof.
  intros Hinit Hbefore.
  destruct (LifecycleFacts.init_shape _ _ _ _ Hinit) as (Hp & Hc & _ & _).
  split.
  - apply LifecycleFacts.run_unstarted; [|exact Hbefore].
    repeat split; assumption.
  - apply LifecycleFacts.run_started. split; eexists; reflexivity.
Qed.

Lemma press_raises_until_started_witness :
  let s := Lifecycle.Make (float_seconds (seconds 3)) 20 true true
             None None None in
  let before := [Lifecycle.Press; Lifecycle.Sample; Lifecycle.Press] in
  let after := [Lifecycle.Press; Lifecycle.Sample; Lifecycle.Elapse 0;
                Lifecycle.Cancel; Lifecycle.Sample; Lifecycle.Press] in
  Forall2 (fun e o => e = Lifecycle.Press -> o = Raise AttributeError)
    before (Lifecycle.run (Lifecycle.boot s) before).2
  /\ Forall2 (fun e o => e <> Lifecycle.Cancel -> o = Ok tt)
       after (Lifecycle.run (Lifecycle.start (Lifecycle.boot s)) after).2.
Proof.
  intros s before after.
  apply (press_raises_until_started (seconds 3) (seconds 60) true s
           before after (Lifecycle.boot s)).
  - reflexivity.
  - repeat constructor; discriminate.
Defined.

(** X25: what a sampler records after [cancel].  [ButtonSampler.cancel]
    detaches the handler before the call that raises, and the timer goes
    on: on a started sampler with count [c] and window [d], after a
    [cancel] and any later events but [start], the samples stored since
    are the first [n] of [c, 0, 0, ...] for some [n] up to the number of
    sample threads run; no press is counted any more. *)
Theorem detached_button_stores_zeros (w : Lifecycle.world) (c : Z)
    (d : list Z) (events : list Lifecycle.event) :
  Lifecycle._count (Lifecycle.self w) = Some c ->
  Lifecycle._data (Lifecycle.self w) = Some d ->
  Forall (fun e => e <> Lifecycle.Start) events ->
  let after := (Lifecycle.run (Lifecycle.cancel w).1 events).1 in
  exists n : nat,
    (n <= length (List.filter
                    (fun e => match e with
                              | Lifecycle.Sample => true
                              | _ => false
                              end) events))%nat
    /\ Lifecycle._data (Lifecycle.self after)
       = Some (IntervalSampler._data
                 (IntervalSampler.store_all
                    (Lifecycle.as_base (Lifecycle.self w) d)
                    (take n (c :: repeat 0 n))))
    /\ Lifecycle._count (Lifecycle.self after)
       = Some (if n is O then c else 0).
Proof.
  intros Hc Hd Hall after.
  assert (E : Lifecycle.when_pressed (Lifecycle.self (Lifecycle.cancel w).1)
              = false
              /\ Lifecycle._count (Lifecycle.self (Lifecycle.cancel w).1)
                 = Some c
              /\ Lifecycle._data (Lifecycle.self (Lifecycle.cancel w).1)
                 = Some d
              /\ Lifecycle.as_base (Lifecycle.self (Lifecycle.cancel w).1) d
                 = Lifecycle.as_base (Lifecycle.self w) d).
  { unfold Lifecycle.cancel. simpl.
    destruct (Lifecycle._timer (Lifecycle.self w)) as [[|i]|]; simpl;
      repeat split; assumption. }
  destruct E as (Hp1 & Hc1 & Hd1 & Hb).
  destruct (LifecycleFacts.run_detached events _ c d Hp1 Hc1 Hd1 Hall)
    as (n & Hn & H1 & H2 & _).
  exists n. rewrite <- Hb. repeat split; assumption.
Qed.

Lemma detached_button_stores_zeros_witness :
  let w := Lifecycle.World
             (Lifecycle.Make 3 20 true true (Some 4) (Some [1; 2])
                (Some Lifecycle.PyNone))
             [IntervalTimer.__init__ 3] 0 [] in
  let events := [Lifecycle.Press; Lifecycle.Elapse 0; Lifecycle.Sample;
                 Lifecycle.Press; Lifecycle.Elapse 0; Lifecycle.Sample] in
  exists n : nat,
    (n <= 2)%nat
    /\ Lifecycle._data
         (Lifecycle.self
            (Lifecycle.run (Lifecycle.cancel w).1 events).1)
       = Some (IntervalSampler._data
                 (IntervalSampler.store_all
                    (Lifecycle.as_base (Lifecycle.self w) [1; 2])
                    (take n (4 :: repeat 0 n))))
    /\ Lifecycle._count
         (Lifecycle.self
            (Lifecycle.run (Lifecycle.cancel w).1 events).1)
       = Some (if n is O then 4 else 0).
Proof.
  intros w events.
  apply (detached_button_stores_zeros w 4 [1; 2] events).
  - reflexivity.
  - reflexivity.
  - repeat constructor; discriminate.
Defined.

Module AliasingFacts.
Import Aliasing.

Section Facts.
Context {T : Type}.

Lemma store_bound (self : t T) (x : T) : bound (_store self x).
Proof.
  unfold bound, _store. simpl. rewrite length_app. simpl. lia.
Qed.

Lemma store_data (self : t T) (x : T) :
  _data (_store self x) = length (heap self).
Proof. unfold _store. simpl. apply length_alter. Qed.

Lemma store_length (self : t T) (x : T) :
  length (heap (_store self x)) = S (length (heap self)).
Proof.
  unfold _store. simpl. rewrite length_app, length_alter. simpl. lia.
Qed.

(** The list appended to. *)
Lemma store_current (self : t T) (x : T) :
  bound self ->
  deref (_store self x) (_data self) = deref self (_data self) ++ [x].
Proof.
  intros Hb. unfold bound in Hb. unfold deref, _store. simpl.
  rewrite lookup_app_l by (rewrite length_alter; exact Hb).
  rewrite list_lookup_alter_eq.
  destruct (lookup_lt_is_Some_2 _ _ Hb) as [l ->]. reflexivity.
Qed.

(** The new list. *)
Lemma store_new (self : t T) (x : T) :
  bound self ->
  deref (_store self x) (_data (_store self x))
  = slice_from (- _size self) (deref self (_data self) ++ [x]).
Proof.
  intros Hb. unfold bound in Hb. unfold deref, _store. simpl.
  rewrite lookup_app_r by lia. rewrite Nat.sub_diag. simpl.
  rewrite list_lookup_alter_eq.
  destruct (lookup_lt_is_Some_2 _ _ Hb) as [l ->]. reflexivity.
Qed.

(** Every other list is left alone. *)
Lemma store_other (self : t T) (x : T) (r : nat) :
  (r < length (heap self))%nat -> r <> _data self ->
  deref (_store self x) r = deref self r.
Proof.
  intros Hr Hne. unfold deref, _store. simpl.
  rewrite lookup_app_l by (rewrite length_alter; exact Hr).
  rewrite list_lookup_alter_ne by (intros E; apply Hne; symmetry; exact E).
  reflexivity.
Qed.

Lemma store_all_old (ys : list T) (self : t T) (r : nat) :
  bound self -> (r < _data self)%nat ->
  deref (store_all self ys) r = deref self r.
Proof.
  revert self. induction ys as [|y ys IH]; intros self Hb Hr;
    [reflexivity|].
  unfold bound in Hb. simpl.
  change (fold_left _store ys (_store self y))
    with (store_all (_store self y) ys).
  rewrite IH.
  - apply store_other; lia.
  - apply store_bound.
  - rewrite store_data. lia.
Qed.

Lemma store_all_handed (ys : list T) (self : t T) :
  bound self ->
  deref (store_all self ys) (_data self)
  = deref self (_data self) ++ take 1 ys.
Proof.
  intros Hb. destruct ys as [|y ys].
  - simpl. rewrite app_nil_r. reflexivity.
  - simpl.
    change (fold_left _store ys (_store self y))
      with (store_all (_store self y) ys).
    rewrite store_all_old.
    + rewrite take_0. apply store_current. exact Hb.
    + apply store_bound.
    + rewrite store_data. exact Hb.
Qed.

Lemma store_window (self : t T) (interval : Q) (x : T) :
  bound self ->
  IntervalSampler._store (window self interval) x
  = (window (_store self x) interval,
     if _callback self
     then Some (deref (_store self x) (_data (_store self x)))
     else None).
Proof.
  intros Hb. unfold IntervalSampler._store, window.
  rewrite store_new by exact Hb. reflexivity.
Qed.

Lemma store_all_window (xs : list T) (self : t T) (interval : Q) :
  bound self ->
  window (store_all self xs) interval
  = IntervalSampler.store_all (window self interval) xs.
Proof.
  revert self. induction xs as [|x xs IH]; intros self Hb; [reflexivity|].
  change (store_all self (x :: xs)) with (store_all (_store self x) xs).
  rewrite IH by apply store_bound.
  change (IntervalSampler.store_all (window self interval) (x :: xs))
    with (IntervalSampler.store_all
            (fst (IntervalSampler._store (window self interval) x)) xs).
  rewrite store_window by exact Hb. reflexivity.
Qed.

End Facts.
End AliasingFacts.

(** X26: the list a callback is handed changes under it, once.  [_store]
    hands the callback thread the list it has just bound to
    [self._data], and the next [_store] appends to that same list before
    it rebinds the attribute to a new slice.  So for a sampler with a
    callback: the list handed over holds the window at that moment; after
    the next sample it holds that window with the new sample appended (so
    [data[-1]] is then the next sample); and no later sample changes it
    again. *)
Theorem handed_list_gets_the_next_sample {T : Type}
    (self : Aliasing.t T) (x : T) (later : list T) :
  (Aliasing._data self < length (Aliasing.heap self))%nat ->
  Aliasing._callback self = true ->
  let stored := Aliasing._store self x in
  let list := Aliasing._data stored in
  Aliasing.handed stored = Aliasing.handed self ++ [list]
  /\ Aliasing.deref stored list
     = slice_from (- Aliasing._size self)
         (Aliasing.deref self (Aliasing._data self) ++ [x])
  /\ Aliasing.deref (Aliasing.store_all stored later) list
     = Aliasing.deref stored list ++ take 1 later.
Proof.
  intros Hb Hcb stored list. split; [|split].
  - unfold stored, list, Aliasing._store. simpl. rewrite Hcb. reflexivity.
  - apply AliasingFacts.store_new. exact Hb.
  - apply AliasingFacts.store_all_handed. apply AliasingFacts.store_bound.
Qed.

Lemma handed_list_gets_the_next_sample_witness :
  let self := Aliasing.start (Aliasing.Make 2 true 0 [] []) in
  let stored := Aliasing._store self 7 in
  Aliasing.deref (Aliasing.store_all stored [8; 9])
    (Aliasing._data stored)
  = Aliasing.deref stored (Aliasing._data stored) ++ take 1 [8; 9].
Proof.
  intros self stored.
  apply (handed_list_gets_the_next_sample self 7 [8; 9]).
  - simpl. lia.
  - reflexivity.
Defined.

(** X27: the current window does not feel the sharing.  For a sampler
    whose window is a list of the heap, the window after any samples, read
    through [self._data], is the one obtained by treating lists as values
    (each [_store] yielding the slice of the window with the sample
    appended), and the list handed to each callback holds, when it is
    handed over, the argument computed that way. *)
Theorem window_agrees_with_lists_as_values {T : Type}
    (self : Aliasing.t T) (interval : Q) (samples : list T) (x : T) :
  (Aliasing._data self < length (Aliasing.heap self))%nat ->
  Aliasing.window (Aliasing.store_all self samples) interval
  = IntervalSampler.store_all (Aliasing.window self interval) samples
  /\ IntervalSampler._store (Aliasing.window self interval) x
     = (Aliasing.window (Aliasing._store self x) interval,
        if Aliasing._callback self
        then Some (Aliasing.deref (Aliasing._store self x)
                     (Aliasing._data (Aliasing._store self x)))
        else None).
Proof.
  intros Hb. split.
  - apply AliasingFacts.store_all_window. exact Hb.
  - apply AliasingFacts.store_window. exact Hb.
Qed.

Lemma window_agrees_with_lists_as_values_witness :
  let self := Aliasing.start (Aliasing.Make 2 true 0 [] []) in
  Aliasing.window (Aliasing.store_all self [1; 2; 3]) 3
  = IntervalSampler.store_all (Aliasing.window self 3) [1; 2; 3].
Proof.
  intros self.
  apply (window_agrees_with_lists_as_values self 3 [1; 2; 3] 0).
  simpl. lia.
Defined.

Module AttributeFacts.
Import WeatherStation.

Lemma fire_keeps (polyfit : list R -> list R -> nat -> list R)
    (st : t) (c : callback) :
  same_schema st (fire polyfit st c).
Proof.
  assert (Hk : forall (A : Type) (m : M A),
             keeps m -> same_schema st (m st).1) by (intros A m H; apply H).
  destruct c; simpl; apply Hk;
    unfold _rain_sample, _wind_speed_sample, _wind_direction_sample,
      _bme280_sample, mbind, M_bind;
    repeat (apply SchemaFacts.keeps_then;
            [apply SchemaFacts.keeps_update|intros _]);
    apply SchemaFacts.keeps_publish.
Qed.

Lemma fire_all_keeps (polyfit : list R -> list R -> nat -> list R)
    (cs : list callback) (st : t) :
  same_schema st (fire_all polyfit st cs).
Proof.
  revert st. induction cs as [|c cs IH]; intros st.
  - apply SchemaFacts.same_schema_refl.
  - eapply SchemaFacts.same_schema_trans; [apply fire_keeps|apply IH].
Qed.

Lemma trend_keys_spec (name : string) :
  name ∈ trend_keys
  <-> name = "pressure-trend"%string \/ name = "temperature-trend"%string.
Proof.
  unfold trend_keys. rewrite elem_of_union, !elem_of_singleton. reflexivity.
Qed.

(** The units the constructor gives: none for the two trends. *)
Lemma init_units (utcnow : nat -> Z) (l : bool) (name : string) :
  name ∈ reading_keys ->
  exists r : SensorReading.t pyval,
    _readings (__init__ utcnow l) !! name = Some r
    /\ (SensorReading.unit r = None <-> name ∈ trend_keys).
Proof.
  intros Hin. unfold reading_keys in Hin.
  repeat (apply elem_of_union in Hin as [Hin|Hin]);
    apply elem_of_singleton in Hin; subst name;
    (eexists; split; [reflexivity|]);
    rewrite trend_keys_spec; simpl;
    (split;
     [intros E; first [discriminate E | left; reflexivity
                      | right; reflexivity]
     |intros [E|E]; first [discriminate E | reflexivity]]).
Qed.

End AttributeFacts.

(** X28: the station's schema at any time.  For a station made by
    [__init__] and any callbacks run since, with any windows and whatever
    their outcomes: [__getattr__] returns a reading exactly for the twelve
    reading keys and raises for every other name; the listener is the one
    given to [__init__]; and a reading has no unit exactly when it is one
    of the two trends, whose constructor call passes the unit string as
    the value. *)
Theorem station_schema_is_fixed
    (polyfit : list R -> list R -> nat -> list R) (utcnow : nat -> Z)
    (listener : bool) (callbacks : list callback) (name : string) :
  let st := fire_all polyfit (WeatherStation.__init__ utcnow listener)
              callbacks in
  WeatherStation.listener st = listener
  /\ (name ∉ reading_keys -> __getattr__ st name = None)
  /\ (name ∈ reading_keys ->
      exists r : SensorReading.t WeatherStation.pyval,
        __getattr__ st name = Some (Some r)
        /\ (SensorReading.unit r = None <-> name ∈ trend_keys)).
Proof.
  intros st.
  pose proof (AttributeFacts.fire_all_keeps polyfit callbacks
                (WeatherStation.__init__ utcnow listener)) as Hs.
  fold st in Hs.
  pose proof (SchemaFacts.same_schema_dom _ _ Hs) as Hdom.
  rewrite StationFacts.init_keys in Hdom.
  destruct Hs as [Hunits Hl].
  split; [symmetry; exact Hl|]. unfold __getattr__. rewrite <- Hdom.
  split.
  - intros Hout. rewrite bool_decide_eq_false_2 by exact Hout. reflexivity.
  - intros Hin. rewrite bool_decide_eq_true_2 by exact Hin.
    destruct (AttributeFacts.init_units utcnow listener name Hin)
      as (r0 & Hr0 & Hu0).
    specialize (Hunits name). rewrite Hr0 in Hunits.
    destruct (WeatherStation._readings st !! name) as [r|];
      [|discriminate Hunits].
    exists r. split; [reflexivity|].
    simpl in Hunits. injection Hunits as Hu. rewrite <- Hu. exact Hu0.
Qed.

